(** * KETI-CT-GUI: the MUP1 frame codec and the CoAP client

    A shallow embedding of [mup1-protocol.js] (class [MUP1Protocol]) and of
    [lib/coap-client.js] (class [CoAPClient]), with the properties of the
    protocol stack stated and proved over it; and of what uses them: the
    device map of [lib/device-manager.js] (classes [DeviceConnection] and
    [DeviceManager]) and the request history of [server.js].

    Conventions of the embedding:
    - a JavaScript number holding an integer is a [Z]; the bit operators
      [<<], [>>], [&], [|], [~] first convert to a signed 32-bit integer
      ([JS.ToInt32]), as ECMAScript prescribes;
    - a [Buffer] or an array of bytes is a [list Z]; [Buffer.from(array)]
      keeps the low 8 bits of every element;
    - a string is a [string] (one character per Latin-1 code unit);
    - the [pendingRequests] map is a [gmap Z _];
    - a thrown exception is the [inl] of a sum, a caught one a log entry. *)

From Stdlib Require Import ZArith Lia List Ascii String.
From Stdlib Require QArith Qround.
From stdpp Require Import gmap list strings sorting.

Local Open Scope Z_scope.

(* ===================================================================== *)
(** ** JavaScript primitives used by the two classes                      *)
(* ===================================================================== *)

Module JS.

(** ToInt32: the operand conversion of every bitwise operator. *)
Definition ToInt32 (x : Z) : Z := (x + 2147483648) mod 4294967296 - 2147483648.

Definition shl (a n : Z) : Z := ToInt32 (Z.shiftl (ToInt32 a) n).
Definition shr (a n : Z) : Z := Z.shiftr (ToInt32 a) n.
Definition band (a b : Z) : Z := Z.land (ToInt32 a) (ToInt32 b).
Definition bor (a b : Z) : Z := Z.lor (ToInt32 a) (ToInt32 b).
Definition bnot (a : Z) : Z := Z.lnot (ToInt32 a).

(** [Buffer.from(array)]: every element is truncated to a byte. *)
Definition Buffer_from (arr : list Z) : list Z := map (fun x => x mod 256) arr.

(** [buf[i]]: [None] stands for [undefined]. *)
Definition at_ (buf : list Z) (i : Z) : option Z :=
  if i <? 0 then None else buf !! Z.to_nat i.

(** [buf[i] === v] *)
Definition at_is (buf : list Z) (i v : Z) : bool :=
  match at_ buf i with
  | Some b => b =? v
  | None => false
  end.

Fixpoint indexOf_go (v : Z) (l : list Z) (i : Z) : Z :=
  match l with
  | [] => -1
  | x :: r => if x =? v then i else indexOf_go v r (i + 1)
  end.

(** [buf.indexOf(v, from)] for a non-negative [from]; -1 when absent. *)
Definition indexOf (buf : list Z) (v from : Z) : Z :=
  indexOf_go v (drop (Z.to_nat from) buf) from.

(** [buf.slice(start, end)] for non-negative bounds (clamped to the length). *)
Definition slice (buf : list Z) (start stop : Z) : list Z :=
  drop (Z.to_nat start) (take (Z.to_nat stop) buf).

Definition charCode (c : ascii) : Z := Z.of_N (N_of_ascii c).
Definition fromCharCode (z : Z) : ascii := ascii_of_N (Z.to_N (z mod 256)).

Fixpoint charCodes (s : string) : list Z :=
  match s with
  | EmptyString => []
  | String c r => charCode c :: charCodes r
  end.

(** [buf.toString('ascii', start, end)]: the high bit of every byte is
    cleared before it becomes a character. *)
Definition toString_ascii (buf : list Z) (start stop : Z) : string :=
  string_of_list_ascii
    (map (fun b => fromCharCode (Z.land b 127)) (slice buf start stop)).

Definition upper (c : ascii) : ascii :=
  let n := charCode c in
  if (97 <=? n) && (n <=? 122) then fromCharCode (n - 32) else c.

(** [s.toUpperCase()] on the letters a-z.  It is applied to hexadecimal
    digits, to 7-bit characters and to method names looked up among ASCII
    keys, where the other characters play no part. *)
Fixpoint toUpperCase (s : string) : string :=
  match s with
  | EmptyString => EmptyString
  | String c r => String (upper c) (toUpperCase r)
  end.

Definition digit (d : Z) : ascii :=
  fromCharCode (if d <? 10 then 48 + d else 87 + d).

Fixpoint digits (fuel : nat) (radix n : Z) (acc : string) : string :=
  match fuel with
  | O => acc
  | S f =>
      let acc' := String (digit (n mod radix)) acc in
      if n / radix =? 0 then acc' else digits f radix (n / radix) acc'
  end.

(** [n.toString(radix)] for a non-negative integer [n]: one round per
    digit, and a number has at most [log2 n + 1] digits. *)
Definition Number_toString (n radix : Z) : string :=
  digits (S (Z.to_nat (Z.log2 n))) radix n EmptyString.

Fixpoint replicate_char (k : nat) (c : ascii) (s : string) : string :=
  match k with
  | O => s
  | S k' => String c (replicate_char k' c s)
  end.

(** [s.padStart(len, c)] with a one-character filler. *)
Definition padStart (s : string) (len : nat) (c : ascii) : string :=
  replicate_char (len - String.length s) c s.

(** [s.split(sep)] with a one-character separator: never empty. *)
Fixpoint split (s : string) (sep : ascii) : list string :=
  match s with
  | EmptyString => [EmptyString]
  | String c r =>
      let parts := split r sep in
      if Ascii.eqb c sep then EmptyString :: parts
      else match parts with
           | p :: ps => String c p :: ps
           | [] => [String c EmptyString]
           end
  end.

Definition nonEmpty (s : string) : bool :=
  match s with
  | EmptyString => false
  | String _ _ => true
  end.

End JS.

(* ===================================================================== *)
(** ** class MUP1Protocol                                                 *)
(* ===================================================================== *)

Module MUP1Protocol.

Definition SOF : Z := 0x3E.
Definition EOF : Z := 0x3C.
Definition ESCAPE : Z := 0x5C.


Definition COMMANDS_COAP : Z := 0x43.
Definition COMMANDS_PING : Z := 0x50.

Definition ESCAPE_MAP (byte : Z) : option Z :=
  if byte =? 0x00 then Some 0x30
  else if byte =? 0xFF then Some 0x46
  else if byte =? 0x3E then Some 0x3E
  else if byte =? 0x3C then Some 0x3C
  else if byte =? 0x5C then Some 0x5C
  else None.

Definition UNESCAPE_MAP (byte : Z) : option Z :=
  if byte =? 0x30 then Some 0x00
  else if byte =? 0x46 then Some 0xFF
  else if byte =? 0x3E then Some 0x3E
  else if byte =? 0x3C then Some 0x3C
  else if byte =? 0x5C then Some 0x5C
  else None.

Definition needsEscape (byte : Z) : bool :=
  (byte =? 0x00) || (byte =? 0xFF) ||
  (byte =? 0x3E) || (byte =? 0x3C) || (byte =? 0x5C).

(** The summation loop of [calculateChecksum], two bytes per round. *)
Fixpoint sum_loop (data : list Z) (sum : Z) : Z :=
  match data with
  | [] => sum
  | [hi] => sum + JS.shl hi 8
  | hi :: lo :: rest => sum_loop rest (sum + JS.bor (JS.shl hi 8) lo)
  end.

(** [while (sum >> 16) sum = (sum & 0xFFFF) + (sum >> 16)]. *)
Fixpoint fold_loop (fuel : nat) (sum : Z) : Z :=
  match fuel with
  | O => sum
  | S f =>
      if JS.shr sum 16 =? 0 then sum
      else fold_loop f (JS.band sum 0xFFFF + JS.shr sum 16)
  end.

(** Three rounds always reach the exit of the folding loop
    ([fold_loop_exits] below), whatever the sum. *)
Definition calculateChecksum (data : list Z) : Z :=
  let sum := sum_loop data 0 in
  let sum := fold_loop 3 sum in
  JS.band (JS.bnot sum) 0xFFFF.

(** Step 3 of [encodeFrame]: the payload with its escape sequences. *)
Fixpoint escape_loop (data : list Z) : list Z :=
  match data with
  | [] => []
  | byte :: rest =>
      if needsEscape byte
      then ESCAPE :: default 0 (ESCAPE_MAP byte) :: escape_loop rest
      else byte :: escape_loop rest
  end.

(** Steps 1 to 4 of [encodeFrame]: the array before the checksum. *)
Definition frame_body (type : Z) (data : list Z) : list Z :=
  let frame := [SOF; type] ++ escape_loop data ++ [EOF] in
  if Z.of_nat (length frame) mod 2 =? 0 then frame ++ [EOF] else frame.

Definition checksumStr (checksum : Z) : string :=
  JS.padStart (JS.toUpperCase (JS.Number_toString checksum 16)) 4 "0"%char.

Definition encodeFrame (type : Z) (data : list Z) : list Z :=
  let frame := frame_body type data in
  let frameBuffer := JS.Buffer_from frame in
  let checksum := calculateChecksum frameBuffer in
  JS.Buffer_from (frame ++ JS.charCodes (checksumStr checksum)).

Inductive FrameError : Set :=
| FrameTooShort
| InvalidStartOfFrame.

Record DecodedFrame : Set := mkDecoded {
  type_ : ascii;
  data_ : list Z;
  checksum_ : string;
  valid_ : bool
}.

(** The [while (i < buffer.length - 4)] loop of [decodeFrame], run over
    the bytes at the indices 2 .. length - 5. *)
Fixpoint decode_loop (bytes : list Z) (escaping : bool) (data : list Z)
  : list Z :=
  match bytes with
  | [] => data
  | byte :: rest =>
      if byte =? EOF then data
      else if escaping
      then decode_loop rest false (data ++ [default byte (UNESCAPE_MAP byte)])
      else if byte =? ESCAPE then decode_loop rest true data
      else decode_loop rest false (data ++ [byte])
  end.

Definition decodeFrame (buffer : list Z) : FrameError + DecodedFrame :=
  let len := Z.of_nat (length buffer) in
  if len <? 8 then inl FrameTooShort
  else if negb (JS.at_is buffer 0 SOF) then inl InvalidStartOfFrame
  else
    let type := default 0 (JS.at_ buffer 1) in
    let data := decode_loop (JS.slice buffer 2 (len - 4)) false [] in
    let frameEnd := JS.indexOf buffer EOF 2 in
    let double := JS.at_is buffer (frameEnd + 1) EOF in
    let checksumStart := if double then frameEnd + 2 else frameEnd + 1 in
    let providedChecksum :=
      JS.toUpperCase (JS.toString_ascii buffer checksumStart (checksumStart + 4)) in
    let frameForChecksum :=
      JS.slice buffer 0 (frameEnd + (if double then 2 else 1)) in
    let calculatedChecksum := checksumStr (calculateChecksum frameForChecksum) in
    inr {| type_ := JS.fromCharCode type;
           data_ := JS.Buffer_from data;
           checksum_ := providedChecksum;
           valid_ := String.eqb providedChecksum calculatedChecksum |}.

Definition createCoapFrame (coapMessage : list Z) : list Z :=
  encodeFrame COMMANDS_COAP coapMessage.

Definition createPing : list Z := encodeFrame COMMANDS_PING [].



End MUP1Protocol.

(* ===================================================================== *)
(** ** class CoAPClient                                                   *)
(* ===================================================================== *)

Module CoAPClient.

Import MUP1Protocol.

Definition METHODS (name : string) : option Z :=
  if String.eqb name "GET" then Some 1
  else if String.eqb name "POST" then Some 2
  else if String.eqb name "PUT" then Some 3
  else if String.eqb name "DELETE" then Some 4
  else if String.eqb name "FETCH" then Some 5
  else if String.eqb name "PATCH" then Some 6
  else if String.eqb name "IPATCH" then Some 7
  else None.

Definition RESPONSE_CODES_table : list (Z * string) :=
  [(65, "2.01 Created"); (66, "2.02 Deleted"); (67, "2.03 Valid");
   (68, "2.04 Changed"); (69, "2.05 Content"); (95, "2.31 Continue");
   (128, "4.00 Bad Request"); (129, "4.01 Unauthorized");
   (130, "4.02 Bad Option"); (131, "4.03 Forbidden");
   (132, "4.04 Not Found"); (133, "4.05 Method Not Allowed");
   (134, "4.06 Not Acceptable"); (140, "4.12 Precondition Failed");
   (141, "4.13 Request Entity Too Large");
   (143, "4.15 Unsupported Content-Format");
   (160, "5.00 Internal Server Error"); (161, "5.01 Not Implemented");
   (162, "5.02 Bad Gateway"); (163, "5.03 Service Unavailable");
   (164, "5.04 Gateway Timeout"); (165, "5.05 Proxying Not Supported")]%string.

Definition RESPONSE_CODES : gmap Z string := list_to_map RESPONSE_CODES_table.

Definition OPTIONS_URI_PATH : Z := 11.
Definition OPTIONS_CONTENT_FORMAT : Z := 12.
Definition OPTIONS_URI_QUERY : Z := 15.
Definition CONTENT_FORMAT_YANG_CBOR : Z := 260.

(** *** Building a request *)

Definition encodeOptionHeader (delta length : Z) : list Z :=
  let '(deltaValue, deltaExt) :=
    if delta <? 13 then (delta, 0)
    else if delta <? 269 then (13, delta - 13)
    else (14, delta - 269) in
  let '(lengthValue, lengthExt) :=
    if length <? 13 then (length, 0)
    else if length <? 269 then (13, length - 13)
    else (14, length - 269) in
  [JS.bor (JS.shl deltaValue 4) lengthValue]
  ++ (if (13 <=? delta) && (delta <? 269) then [deltaExt]
      else if 269 <=? delta
      then [JS.band (JS.shr deltaExt 8) 0xFF; JS.band deltaExt 0xFF]
      else [])
  ++ (if (13 <=? length) && (length <? 269) then [lengthExt]
      else if 269 <=? length
      then [JS.band (JS.shr lengthExt 8) 0xFF; JS.band lengthExt 0xFF]
      else []).

(** The body shared by the Uri-Path loop and the Uri-Query loop of
    [encodeOptions]: one option numbered [number] per string; returns the
    bytes pushed and the new [prevOptionNum]. *)
Fixpoint option_loop (number : Z) (values : list string) (prevOptionNum : Z)
  : list Z * Z :=
  match values with
  | [] => ([], prevOptionNum)
  | value :: rest =>
      let optionDelta := number - prevOptionNum in
      let optionLength := Z.of_nat (String.length value) in
      let '(more, prev) := option_loop number rest number in
      (encodeOptionHeader optionDelta optionLength
         ++ JS.charCodes value ++ more, prev)
  end.

Definition uri_segments (uri : string) : list string :=
  let pathPart := default EmptyString (JS.split uri "?" !! 0%nat) in
  List.filter JS.nonEmpty (JS.split pathPart "/").

Definition uri_queries (uri : string) : list string :=
  match JS.split uri "?" !! 1%nat with
  | Some queryPart =>
      if JS.nonEmpty queryPart
      then List.filter JS.nonEmpty (JS.split queryPart "&")
      else []
  | None => []
  end.

Definition encodeOptions (uri : string) : list Z :=
  let '(pathOptions, prevOptionNum) :=
    option_loop OPTIONS_URI_PATH (uri_segments uri) 0 in
  let cfDelta := OPTIONS_CONTENT_FORMAT - prevOptionNum in
  let cfOption := encodeOptionHeader cfDelta 2 ++ [0x01; 0x04] in
  let prevOptionNum := OPTIONS_CONTENT_FORMAT in
  let '(queryOptions, _) :=
    option_loop OPTIONS_URI_QUERY (uri_queries uri) prevOptionNum in
  pathOptions ++ cfOption ++ queryOptions.

Section Client.

(** The CBOR library (cbor-x) is an external collaborator: [V] is the
    type of the values it handles, [cborDecode] answers [None] where
    the library throws. *)
Context {V : Type}.
Variable cborEncode : V -> list Z.
Variable cborDecode : list Z -> option V.

(** A request or response payload: [null], a [Buffer], or a value. *)
Inductive Payload : Type :=
| Null
| Bytes (b : list Z)
| Value (v : V).

Definition buildMessage (methodCode : Z) (uri : string) (payload : Payload)
  (messageId : Z) : list Z :=
  let version := 1 in
  let type := 0 in
  let tokenLength := 0 in
  let header :=
    [JS.bor (JS.bor (JS.shl version 6) (JS.shl type 4)) tokenLength;
     methodCode;
     JS.band (JS.shr messageId 8) 0xFF;
     JS.band messageId 0xFF] in
  let options := encodeOptions uri in
  let body :=
    match payload with
    | Null => []
    | Bytes encoded => 0xFF :: encoded
    | Value v => 0xFF :: cborEncode v
    end in
  JS.Buffer_from (header ++ options ++ body).

(** *** Parsing a response *)

Record Response : Type := mkResponse {
  version : Z;
  type : Z;
  code : Z;
  r_messageId : Z;
  payload : Payload;
  codeClass : Z;
  codeName : string
}.

Inductive ParseError : Set := MessageTooShort.

(** The [for] loop of [parseResponse] that looks for the payload
    marker from index [i]; [len] is returned when there is none. *)
Fixpoint find_payloadStart (bytes : list Z) (i len : Z) : Z :=
  match bytes with
  | [] => len
  | b :: rest => if b =? 0xFF then i + 1 else find_payloadStart rest (i + 1) len
  end.

Definition codeName_of (code : Z) : string :=
  match RESPONSE_CODES !! code with
  | Some name => name
  | None =>
      String.append (JS.Number_toString (code / 32) 10)
        (String.append "."
           (JS.padStart (JS.Number_toString (code mod 32) 10) 2 "0"%char))
  end.

(** [parseResponse(data)]: what it returns, or the exception it throws.
    The line its [catch] writes to the console when [cborDecode] throws
    is [parseResponse_console] below. *)
Definition parseResponse (data : list Z) : ParseError + Response :=
  let len := Z.of_nat (length data) in
  if len <? 4 then inl MessageTooShort
  else
    let d0 := default 0 (JS.at_ data 0) in
    let version := JS.band (JS.shr d0 6) 0x03 in
    let type := JS.band (JS.shr d0 4) 0x03 in
    let tokenLength := JS.band d0 0x0F in
    let code := default 0 (JS.at_ data 1) in
    let messageId :=
      JS.bor (JS.shl (default 0 (JS.at_ data 2)) 8) (default 0 (JS.at_ data 3)) in
    let offset := 4 + tokenLength in
    let payloadStart :=
      find_payloadStart (drop (Z.to_nat offset) data) offset len in
    let payload :=
      if payloadStart <? len then
        let payloadData := drop (Z.to_nat payloadStart) data in
        match cborDecode payloadData with
        | Some v => Value v
        | None => Bytes payloadData
        end
      else Null in
    inr {| version := version; type := type; code := code;
           r_messageId := messageId; payload := payload;
           codeClass := code / 32;
           codeName := codeName_of code |}.

(** *** The client object *)

(** What a waiter (the promise returned by [request]) is settled with. *)
Inductive RequestError : Type :=
| CoapError (message : string) (code : Z) (payload : Payload)
| RequestTimeout (timeout : Z) (method uri : string).

Inductive Settlement : Type :=
| Resolved (p : Payload)
| Rejected (e : RequestError).

(** An entry of [pendingRequests]: [waiter] identifies the promise whose
    [resolve] and [reject] the entry holds, [timeout] is the timer
    handle.  ([sentAt] only feeds a log line and is left out.) *)
Record Pending : Type := mkPending {
  waiter : nat;
  timeout : nat;
  method : string;
  uri : string
}.

(** An armed timer: what its callback closes over. *)
Record Timer : Type := mkTimer {
  t_mid : Z;
  t_waiter : nat;
  t_timeout : Z;
  t_method : string;
  t_uri : string
}.

Inductive LogEntry : Type :=
| LogRequest (method uri : string) (mid : Z)
| LogResponse (codeName : string) (mid : Z)
| WarnUnknownMessageId (mid : Z)
| WarnCborDecodeFailed           (* the message of the library is not kept *)
| ErrorResponseParse (e : ParseError)
| WarnChecksumMismatch (provided : string)
| LogAnnouncement (data : list Z)
| LogTrace (data : list Z)
| ErrorFrameDecode (e : FrameError).

Record Client : Type := mkClient {
  messageId : Z;
  pendingRequests : gmap Z Pending;
  receiveBuffer : list Z;
  timers : gmap nat Timer;       (* armed setTimeout handles *)
  nextHandle : nat;              (* next promise / timer handle *)
  written : list (list Z);       (* frames given to serial.write *)
  settled : list (nat * Settlement);
  console : list LogEntry
}.

Definition set_receiveBuffer (buf : list Z) (c : Client) : Client :=
  mkClient (messageId c) (pendingRequests c) buf (timers c)
    (nextHandle c) (written c) (settled c) (console c).

Definition log (e : LogEntry) (c : Client) : Client :=
  mkClient (messageId c) (pendingRequests c) (receiveBuffer c) (timers c)
    (nextHandle c) (written c) (settled c) (console c ++ [e]).

Definition logs (es : list LogEntry) (c : Client) : Client :=
  mkClient (messageId c) (pendingRequests c) (receiveBuffer c) (timers c)
    (nextHandle c) (written c) (settled c) (console c ++ es).

Definition settle (w : nat) (s : Settlement) (c : Client) : Client :=
  mkClient (messageId c) (pendingRequests c) (receiveBuffer c) (timers c)
    (nextHandle c) (written c) (settled c ++ [(w, s)]) (console c).

(** What [parseResponse(data)] writes to the console: the warning of the
    [catch] around [cborDecode], when there is a payload and the decoder
    throws on it; nothing when the message is too short, since the
    exception comes first. *)
Definition parseResponse_console (data : list Z) : list LogEntry :=
  let len := Z.of_nat (length data) in
  if len <? 4 then []
  else
    let d0 := default 0 (JS.at_ data 0) in
    let tokenLength := JS.band d0 0x0F in
    let offset := 4 + tokenLength in
    let payloadStart :=
      find_payloadStart (drop (Z.to_nat offset) data) offset len in
    if payloadStart <? len then
      let payloadData := drop (Z.to_nat payloadStart) data in
      match cborDecode payloadData with
      | Some _ => []
      | None => [WarnCborDecodeFailed]
      end
    else [].

(** [new CoAPClient(protocol, serial)]; [random] is the value drawn by
    [Math.random()], a number in [0, 1). *)
Definition constructor (random : QArith_base.Q) : Client :=
  {| messageId :=
       Qround.Qfloor (QArith_base.Qmult random (QArith_base.inject_Z 0xFFFF));
     pendingRequests := ∅;
     receiveBuffer := [];
     timers := ∅;
     nextHandle := 0;
     written := [];
     settled := [];
     console := [] |}.

Inductive RequestFailure : Set := UnknownMethod.

(** [request(method, uri, payload, timeout)]: the promise returned (its
    handle) or the exception thrown, and the client afterwards. *)
Definition request (method uri : string) (payload : Payload) (timeout : Z)
  (c : Client) : (RequestFailure + nat) * Client :=
  let mid := messageId c in
  let messageId' := if mid + 1 >? 0xFFFF then 1 else mid + 1 in
  match METHODS (JS.toUpperCase method) with
  | None =>
      (inl UnknownMethod,
       mkClient messageId' (pendingRequests c) (receiveBuffer c) (timers c)
         (nextHandle c) (written c) (settled c) (console c))
  | Some methodCode =>
      let message := buildMessage methodCode uri payload mid in
      let frame := createCoapFrame message in
      let h := nextHandle c in
      (inr h,
       mkClient messageId'
         (<[mid := mkPending h h method uri]> (pendingRequests c))
         (receiveBuffer c)
         (<[h := mkTimer mid h timeout method uri]> (timers c))
         (S h)
         (written c ++ [frame])
         (settled c)
         (console c ++ [LogRequest method uri mid]))
  end.

(** The callback given to [setTimeout] in [request], run when timer [h]
    fires. *)
Definition fireTimeout (h : nat) (c : Client) : Client :=
  match timers c !! h with
  | None => c
  | Some t =>
      let c1 :=
        mkClient (messageId c) (pendingRequests c) (receiveBuffer c)
          (delete h (timers c)) (nextHandle c) (written c) (settled c)
          (console c) in
      match pendingRequests c !! t_mid t with
      | Some _ =>
          settle (t_waiter t)
            (Rejected (RequestTimeout (t_timeout t) (t_method t) (t_uri t)))
            (mkClient (messageId c1) (delete (t_mid t) (pendingRequests c1))
               (receiveBuffer c1) (timers c1) (nextHandle c1) (written c1)
               (settled c1) (console c1))
      | None => c1
      end
  end.

Definition handleCoapResponse (data : list Z) (c : Client) : Client :=
  match parseResponse data with
  | inl e => log (ErrorResponseParse e) c
  | inr response =>
      let c := logs (parseResponse_console data) c in
      match pendingRequests c !! r_messageId response with
      | Some pending =>
          let c1 :=
            mkClient (messageId c)
              (delete (r_messageId response) (pendingRequests c))
              (receiveBuffer c)
              (delete (timeout pending) (timers c))   (* clearTimeout *)
              (nextHandle c) (written c) (settled c) (console c) in
          let c2 :=
            log (LogResponse (codeName response) (r_messageId response)) c1 in
          if codeClass response =? 2
          then settle (waiter pending) (Resolved (payload response)) c2
          else settle (waiter pending)
                 (Rejected (CoapError (codeName response) (code response)
                              (payload response))) c2
      | None => log (WarnUnknownMessageId (r_messageId response)) c
      end
  end.

(** The [try] block of [handleData]: decode one candidate frame and
    dispatch it on its type. *)
Definition dispatch (frameData : list Z) (c : Client) : Client :=
  match decodeFrame frameData with
  | inl e => log (ErrorFrameDecode e) c
  | inr decoded =>
      let c :=
        if valid_ decoded then c
        else log (WarnChecksumMismatch (checksum_ decoded)) c in
      if Ascii.eqb (type_ decoded) "C" then handleCoapResponse (data_ decoded) c
      else if Ascii.eqb (type_ decoded) "A" then log (LogAnnouncement (data_ decoded)) c
      else if Ascii.eqb (type_ decoded) "T" then log (LogTrace (data_ decoded)) c
      else c
  end.

(** One round of the [while] loop of [handleData]. *)
Inductive Round : Type :=
| Break (c : Client)
| Continue (c : Client).

Definition handleData_round (c : Client) : Round :=
  if negb (0 <? Z.of_nat (length (receiveBuffer c))) then Break c
  else
    let sofIndex := JS.indexOf (receiveBuffer c) SOF 0 in
    if sofIndex =? -1 then Break (set_receiveBuffer [] c)
    else
      let c :=
        if sofIndex >? 0
        then set_receiveBuffer (drop (Z.to_nat sofIndex) (receiveBuffer c)) c
        else c in
      if Z.of_nat (length (receiveBuffer c)) <? 8 then Break c
      else
        let eofIndex := JS.indexOf (receiveBuffer c) EOF 2 in
        if eofIndex =? -1 then Break c
        else
          let hasDoubleEof := JS.at_is (receiveBuffer c) (eofIndex + 1) EOF in
          let checksumStart := if hasDoubleEof then eofIndex + 2 else eofIndex + 1 in
          let frameEnd := checksumStart + 4 in
          if Z.of_nat (length (receiveBuffer c)) <? frameEnd then Break c
          else
            let frameData := JS.slice (receiveBuffer c) 0 frameEnd in
            let c :=
              set_receiveBuffer (drop (Z.to_nat frameEnd) (receiveBuffer c)) c in
            Continue (dispatch frameData c).

Fixpoint handleData_loop (fuel : nat) (c : Client) : Client :=
  match fuel with
  | O => c
  | S f =>
      match handleData_round c with
      | Break c' => c'
      | Continue c' => handleData_loop f c'
      end
  end.

(** [handleData(data)].  Every round that continues takes a frame of at
    least 7 bytes off the buffer, so the loop ends within
    [length buffer + 1] rounds ([handleData_loop_fuel] below). *)
Definition handleData (data : list Z) (c : Client) : Client :=
  let c := set_receiveBuffer (receiveBuffer c ++ data) c in
  handleData_loop (S (length (receiveBuffer c))) c.

(** What happens to a client over its lifetime. *)
Inductive Op : Type :=
| OpRequest (method uri : string) (payload : Payload) (timeout : Z)
| OpData (data : list Z)
| OpTimeout (h : nat).

Definition exec (c : Client) (op : Op) : Client :=
  match op with
  | OpRequest m u p t => snd (request m u p t c)
  | OpData d => handleData d c
  | OpTimeout h => fireTimeout h c
  end.

Definition run (ops : list Op) (c : Client) : Client := foldl exec c ops.

(** The message-IDs of the requests sent, oldest first, as logged. *)
Fixpoint request_mids (l : list LogEntry) : list Z :=
  match l with
  | [] => []
  | LogRequest _ _ mid :: r => mid :: request_mids r
  | _ :: r => request_mids r
  end.

End Client.


Section Convenience.

Context {V : Type}.
Variable cborEncode : V -> list Z.

(** The convenience methods.  An argument left out ([undefined]) is
    [None] for the URI and [Null] for the data; [request] then takes its
    defaults, the URI '/c' and the timeout 15000. *)
Definition get (uri : option string) (c : Client (V:=V))
  : (RequestFailure + nat) * Client :=
  request cborEncode "GET" (default "/c?d=a"%string uri) Null 15000 c.

Definition post (uri : option string) (data : Payload) (c : Client (V:=V))
  : (RequestFailure + nat) * Client :=
  request cborEncode "POST" (default "/c"%string uri) data 15000 c.

Definition put (uri : option string) (data : Payload) (c : Client (V:=V))
  : (RequestFailure + nat) * Client :=
  request cborEncode "PUT" (default "/c"%string uri) data 15000 c.

(** [delete(uri)] (the name [delete] is the map operation here). *)
Definition delete_ (uri : option string) (c : Client (V:=V))
  : (RequestFailure + nat) * Client :=
  request cborEncode "DELETE" (default "/c"%string uri) Null 15000 c.

Definition patch (uri : option string) (data : Payload) (c : Client (V:=V))
  : (RequestFailure + nat) * Client :=
  request cborEncode "PATCH" (default "/c"%string uri) data 15000 c.

Definition ipatch (uri : option string) (data : Payload) (c : Client (V:=V))
  : (RequestFailure + nat) * Client :=
  request cborEncode "IPATCH" (default "/c"%string uri) data 15000 c.

End Convenience.

End CoAPClient.

(* ===================================================================== *)
(** ** Reference definitions, written from the protocol descriptions      *)
(* ===================================================================== *)

Module Spec.

Import CoAPClient.

Definition is_byte (b : Z) : Prop := 0 <= b < 256.

(** The bytes taken as big-endian 16-bit words; an odd last byte is the
    high byte of a word whose low byte is zero. *)
Fixpoint words (data : list Z) : list Z :=
  match data with
  | [] => []
  | [hi] => [hi * 256]
  | hi :: lo :: rest => (hi * 256 + lo) :: words rest
  end.

Definition word_sum (data : list Z) : Z := foldr Z.add 0 (words data).

(** Carries above bit 15 folded back by addition until none remain. *)
Fixpoint fold_carries (fuel : nat) (s : Z) : Z :=
  match fuel with
  | O => s
  | S f => if s <? 65536 then s else fold_carries f (s mod 65536 + s / 65536)
  end.

(** A number below [2 ^ (15 * f + 2)] is folded within [f >= 2] rounds
    ([fold_carries_done] below). *)
Definition ones_complement_sum (data : list Z) : Z :=
  let s := word_sum data in
  fold_carries (Z.to_nat (Z.log2 s) + 2) s.

(** The stored checksum: the bitwise NOT, masked to 16 bits. *)
Definition checksum (data : list Z) : Z :=
  Z.land (Z.lnot (ones_complement_sum data)) 0xFFFF.

Definition hex_upper (d : Z) : ascii :=
  nth (Z.to_nat d) (list_ascii_of_string "0123456789ABCDEF") "?"%char.

(** Four uppercase hexadecimal characters, most significant first. *)
Definition hex4 (v : Z) : string :=
  string_of_list_ascii
    [hex_upper (v / 4096 mod 16); hex_upper (v / 256 mod 16);
     hex_upper (v / 16 mod 16); hex_upper (v mod 16)].

(** The "C.DD" name of a response code: its class (the three high bits),
    a dot, and its detail (the five low bits) on two decimal digits. *)
Definition cdd (code : Z) : string :=
  let dec d := JS.fromCharCode (48 + d) in
  String (dec (code / 32))
    (String "."
       (String (dec (code mod 32 / 10))
          (String (dec (code mod 32 mod 10)) EmptyString))).

(** The message-ID counter after one request. *)
Definition next_mid (m : Z) : Z := if m + 1 >? 0xFFFF then 1 else m + 1.

(** The message-IDs of [n] successive requests, from a counter at [m]. *)
Fixpoint mid_seq (n : nat) (m : Z) : list Z :=
  match n with
  | O => []
  | S k => m :: mid_seq k (next_mid m)
  end.

Definition is_request {V : Type} (op : Op (V:=V)) : bool :=
  match op with
  | OpRequest _ _ _ _ => true
  | _ => false
  end.

(** The number of [request] calls among the operations. *)
Definition count_requests {V : Type} (ops : list (Op (V:=V))) : nat :=
  length (List.filter is_request ops).

(** The two steps of one round of the reassembler, as functions of the
    scratch buffer alone.  [resync]: drop everything before the first SOF
    ([None] when there is no SOF: the buffer is emptied). *)
Definition resync (buf : list Z) : option (list Z) :=
  let sofIndex := JS.indexOf buf MUP1Protocol.SOF 0 in
  if sofIndex =? -1 then None else Some (drop (Z.to_nat sofIndex) buf).

(** [frame_split]: the candidate frame at the head of a resynchronised
    buffer and what follows it ([None] when more data must be awaited). *)
Definition frame_split (buf : list Z) : option (list Z * list Z) :=
  if Z.of_nat (length buf) <? 8 then None
  else
    let eofIndex := JS.indexOf buf MUP1Protocol.EOF 2 in
    if eofIndex =? -1 then None
    else
      let frameEnd :=
        (if JS.at_is buf (eofIndex + 1) MUP1Protocol.EOF
         then eofIndex + 2 else eofIndex + 1) + 4 in
      if Z.of_nat (length buf) <? frameEnd then None
      else Some (JS.slice buf 0 frameEnd, drop (Z.to_nat frameEnd) buf).

(** The first statement of [handleData]: the chunk joins the buffer. *)
Definition append_data {V : Type} (data : list Z) (c : Client (V:=V))
  : Client :=
  set_receiveBuffer (receiveBuffer c ++ data) c.

(** Feeding chunks one after the other. *)
Definition feed {V : Type} (cborDecode : list Z -> option V)
    (chunks : list (list Z)) (c : Client (V:=V)) : Client :=
  foldl (fun c chunk => handleData cborDecode chunk c) c chunks.

(** A 64-byte MUP1 frame of type 'C' as a device sends it: SOF, 'C', the
    escaped CoAP response 60 45 12 34 FF 01 .. 32 (2.05 Content for
    message-ID 0x1234, 50 payload bytes), two EOF, and the checksum
    "4334" of the 60 bytes before it. *)
Definition sample_payload : list Z :=
  [1; 2; 3; 4; 5; 6; 7; 8; 9; 10; 11; 12; 13; 14; 15; 16; 17; 18; 19; 20;
   21; 22; 23; 24; 25; 26; 27; 28; 29; 30; 31; 32; 33; 34; 35; 36; 37; 38;
   39; 40; 41; 42; 43; 44; 45; 46; 47; 48; 49; 50].

Definition sample_frame : list Z :=
  [0x3E; 0x43; 0x60; 0x45; 0x12; 0x34; 0x5C; 0x46] ++ sample_payload
  ++ [0x3C; 0x3C] ++ JS.charCodes "4334".

(** The options a request for [uri] carries, as (number, value) pairs:
    a Uri-Path (11) per path segment, one Content-Format (12) of value
    0x0104 = 260, a Uri-Query (15) per query item. *)
Definition option_list (uri : string) : list (Z * list Z) :=
  map (fun s => (11, JS.charCodes s)) (uri_segments uri)
  ++ [(12, [0x01; 0x04])]
  ++ map (fun q => (15, JS.charCodes q)) (uri_queries uri).

(** The option TLV of the CoAP wire format, read back.  A nibble below 13
    stands for itself; 13 and 14 announce one or two trailing bytes that
    hold the value minus 13 or minus 269. *)
Definition ext_value (nibble : Z) (bytes : list Z) : option (Z * list Z) :=
  if nibble <? 13 then Some (nibble, bytes)
  else if nibble =? 13 then
    match bytes with
    | b :: rest => Some (b + 13, rest)
    | [] => None
    end
  else if nibble =? 14 then
    match bytes with
    | b1 :: b2 :: rest => Some (b1 * 256 + b2 + 269, rest)
    | _ => None
    end
  else None.

(** The options up to the end of the message or to the payload marker
    0xFF; the result holds the bytes from the marker on.  Every option
    takes at least one byte, so [length bytes + 1] rounds are enough. *)
Fixpoint decode_options (fuel : nat) (prev : Z) (bytes : list Z)
  : option (list (Z * list Z) * list Z) :=
  match fuel with
  | O => None
  | S f =>
      match bytes with
      | [] => Some ([], [])
      | b :: rest =>
          if b =? 0xFF then Some ([], bytes)
          else
            match ext_value (b / 16) rest with
            | None => None
            | Some (delta, rest1) =>
                match ext_value (b mod 16) rest1 with
                | None => None
                | Some (len, rest2) =>
                    if Z.of_nat (length rest2) <? len then None
                    else
                      match decode_options f (prev + delta)
                              (drop (Z.to_nat len) rest2) with
                      | None => None
                      | Some (opts, tail) =>
                          Some ((prev + delta, take (Z.to_nat len) rest2) :: opts,
                                tail)
                      end
                end
            end
      end
  end.

Record Message : Type := mkMessage {
  m_version : Z;
  m_type : Z;
  m_tkl : Z;
  m_code : Z;
  m_mid : Z;
  m_options : list (Z * list Z);
  m_payload : option (list Z)
}.

(** A CoAP message read back: the 4-byte header, the token, the options,
    and the payload after the marker when there is one. *)
Definition decode_message (bytes : list Z) : option Message :=
  match bytes with
  | b0 :: code :: hi :: lo :: rest =>
      let tkl := b0 mod 16 in
      match decode_options (S (length rest)) 0 (drop (Z.to_nat tkl) rest) with
      | None => None
      | Some (opts, tail) =>
          Some {| m_version := b0 / 64;
                  m_type := b0 / 16 mod 4;
                  m_tkl := tkl;
                  m_code := code;
                  m_mid := hi * 256 + lo;
                  m_options := opts;
                  m_payload := match tail with
                               | [] => None
                               | _ :: p => Some p
                               end |}
      end
  | _ => None
  end.

(** Options written one after the other with delta-encoded numbers. *)
Fixpoint serialize (prev : Z) (opts : list (Z * list Z)) : list Z :=
  match opts with
  | [] => []
  | (number, value) :: rest =>
      encodeOptionHeader (number - prev) (Z.of_nat (length value))
      ++ value ++ serialize number rest
  end.

(** Options that the TLV form can hold as the encoder writes them: numbers
    at most 12 apart, values of bytes, lengths within two extension
    bytes. *)
Fixpoint opts_ok (prev : Z) (opts : list (Z * list Z)) : Prop :=
  match opts with
  | [] => True
  | (number, value) :: rest =>
      0 <= number - prev < 13
      /\ Z.of_nat (length value) < 65805
      /\ Forall is_byte value
      /\ opts_ok number rest
  end.

Definition last_number (prev : Z) (opts : list (Z * list Z)) : Z :=
  match last opts with
  | Some (number, _) => number
  | None => prev
  end.

(** The path segments and query items of the URI fit an option. *)
Definition uri_ok (uri : string) : Prop :=
  Forall (fun s => Z.of_nat (String.length s) < 65805)
    (uri_segments uri ++ uri_queries uri).

(** What an operation that is not a request leaves alone: the counter and
    the message-IDs logged so far. *)
Definition same_counter {V : Type} (c c' : Client (V:=V)) : Prop :=
  messageId c' = messageId c
  /\ request_mids (console c') = request_mids (console c).

(** The bytes of an escaped payload that stand for themselves: an escape
    byte and the byte after it are left out. *)
Fixpoint unescaped (skip : bool) (bytes : list Z) : list Z :=
  match bytes with
  | [] => []
  | b :: rest =>
      if skip then unescaped false rest
      else if b =? MUP1Protocol.ESCAPE then unescaped true rest
      else b :: unescaped false rest
  end.

(** A payload up to its first 0x3C. *)
Fixpoint before_EOF (payload : list Z) : list Z :=
  match payload with
  | [] => []
  | b :: rest => if b =? MUP1Protocol.EOF then [] else b :: before_EOF rest
  end.

(** A frame as it travels: SOF, the type, the escaped payload, one or two
    EOF, four checksum characters. *)
Definition wire_frame (type : Z) (payload : list Z) (double : bool)
    (cs : list Z) : list Z :=
  MUP1Protocol.SOF :: type :: MUP1Protocol.escape_loop payload
  ++ MUP1Protocol.EOF :: (if double then [MUP1Protocol.EOF] else []) ++ cs.

(** The part of a travelling frame that its checksum covers. *)
Definition wire_body (type : Z) (payload : list Z) (double : bool) : list Z :=
  MUP1Protocol.SOF :: type :: MUP1Protocol.escape_loop payload
  ++ MUP1Protocol.EOF :: (if double then [MUP1Protocol.EOF] else []).

(** The 4-bit field and the extension bytes that stand for a delta or a
    length in an option header. *)
Definition nibble (x : Z) : Z :=
  if x <? 13 then x else if x <? 269 then 13 else 14.

Definition ext_bytes (x : Z) : list Z :=
  if x <? 13 then []
  else if x <? 269 then [x - 13]
  else [(x - 269) / 256; (x - 269) mod 256].

(** Whether a character occurs in a string. *)
Fixpoint has_char (ch : ascii) (s : string) : bool :=
  match s with
  | EmptyString => false
  | String c r => Ascii.eqb c ch || has_char ch r
  end.

(** The header of one option read back: delta, length, and the bytes
    after the header. *)
Definition decode_header (bytes : list Z) : option (Z * Z * list Z) :=
  match bytes with
  | [] => None
  | b :: rest =>
      match ext_value (b / 16) rest with
      | None => None
      | Some (delta, rest1) =>
          match ext_value (b mod 16) rest1 with
          | None => None
          | Some (len, rest2) => Some (delta, len, rest2)
          end
      end
  end.

(** The console line that goes with a parsed response: [parseResponse]
    returns the raw bytes as payload when, and only when, the decoder
    refused them, and it has then warned. *)
Definition decode_warning {V : Type} (r : Response (V:=V)) : list LogEntry :=
  match payload r with
  | Bytes _ => [WarnCborDecodeFailed]
  | _ => []
  end.

(** What [parseResponse] makes of the bytes after a payload marker. *)
Definition received {V : Type} (cborDecode : list Z -> option V)
    (bytes : list Z) : Payload (V:=V) :=
  match bytes with
  | [] => Null
  | _ :: _ =>
      match cborDecode bytes with
      | Some v => Value v
      | None => Bytes bytes
      end
  end.

(** The bytes a request payload puts after the marker. *)
Definition payload_bytes {V : Type} (cborEncode : V -> list Z)
    (p : Payload (V:=V)) : option (list Z) :=
  match p with
  | Null => None
  | Bytes b => Some b
  | Value v => Some (cborEncode v)
  end.

(** The promises and timers of a client hang together: a pending entry
    holds the handle of its own armed timer, a timer rejects the promise
    it was created with, and a settled promise has no timer left. *)
Record consistent {V : Type} (c : Client (V:=V)) : Prop := mkConsistent {
  pending_timer : forall mid p,
    pendingRequests c !! mid = Some p ->
    timeout p = waiter p
    /\ exists t, timers c !! waiter p = Some t /\ t_mid t = mid;
  timer_waiter : forall h t,
    timers c !! h = Some t -> t_waiter t = h /\ (h < nextHandle c)%nat;
  settled_done : forall w,
    w ∈ (settled c).*1 -> timers c !! w = None /\ (w < nextHandle c)%nat;
  settled_once : NoDup (settled c).*1
}.

(** The receive buffer holds no complete frame: it is empty, or starts at
    a SOF and must await more data. *)
Definition awaiting (buf : list Z) : Prop :=
  buf = [] \/ (resync buf = Some buf /\ frame_split buf = None).

(** A frame that the reassembler takes off the stream whole. *)
Definition framed (frame : list Z) : Prop :=
  exists type body eofs cs,
    frame = MUP1Protocol.SOF :: type :: body ++ MUP1Protocol.EOF :: eofs ++ cs
    /\ (MUP1Protocol.EOF ∉ body)
    /\ (eofs = [] \/ eofs = [MUP1Protocol.EOF])
    /\ length cs = 4%nat
    /\ JS.at_is cs 0 MUP1Protocol.EOF = false
    /\ (1 <= length body + length eofs)%nat.

End Spec.

(* ===================================================================== *)
(** ** lib/device-manager.js: classes DeviceConnection and DeviceManager  *)
(* ===================================================================== *)

Module DeviceManager.

Import CoAPClient.

(** A JavaScript [Map] with string keys, in insertion order. *)
Fixpoint Map_get {A : Type} (k : string) (m : list (string * A)) : option A :=
  match m with
  | [] => None
  | (k', v) :: r => if String.eqb k' k then Some v else Map_get k r
  end.

Definition Map_has {A : Type} (k : string) (m : list (string * A)) : bool :=
  match Map_get k m with
  | Some _ => true
  | None => false
  end.

(** [set] keeps the place of a key that is there and appends a new one. *)
Fixpoint Map_set {A : Type} (k : string) (v : A) (m : list (string * A))
  : list (string * A) :=
  match m with
  | [] => [(k, v)]
  | (k', v') :: r =>
      if String.eqb k' k then (k, v) :: r else (k', v') :: Map_set k v r
  end.

Definition Map_delete {A : Type} (k : string) (m : list (string * A))
  : list (string * A) :=
  List.filter (fun e => negb (String.eqb (fst e) k)) m.

(** The order of the default [sort()]: strings by their code units. *)
Definition string_le (a b : string) : Prop := String.leb a b = true.

#[local] Instance string_le_dec : RelDecision string_le :=
  fun a b => decide (String.leb a b = true).

(** [files.filter(...).map(f => `/dev/${f}`).sort()] *)
Definition ttyDevices (files : list string) : list string :=
  merge_sort string_le
    (map (String.append "/dev/")
       (List.filter
          (fun f => String.prefix "ttyACM" f || String.prefix "ttyUSB" f)
          files)).

Inductive LogLine : Set :=
| LogFound (count : nat)
| LogConnecting (path : string)
| LogRemoved (path : string)
| ErrorScan (message : string)
| ErrorConnect (path message : string)
| ErrorOpen (path message : string)
| LogConnected (path : string).

(** What a [setTimeout] callback of this file does when it runs, for the
    connection made for [path]: write a ping to its port (after 500 ms),
    or call its [queryDeviceInfo] (after 1000 ms). *)
Inductive Task : Set :=
| SendPing (path : string)
| QueryDeviceInfo (path : string).

(** What the system answers when the port is opened: an error, or
    success, with the time of the clock and the number drawn by
    [Math.random()] for the new CoAP client. *)
Inductive OpenOutcome : Set :=
| OpenError (message : string)
| OpenOk (now : string) (random : QArith_base.Q).

Section Manager.

(** [V] is the type of CBOR values as for the client.  The fields of
    [deviceInfo] that nothing but [parseDeviceInfo] writes (model,
    firmware, serialNumber, interfaces, bridges) are kept together in
    [details], of initial value [unknown]; [parseDeviceInfo] and
    [queryDeviceInfo], which walk YANG data, are not part of the
    embedding. *)
Context {V D : Type}.
Variable cborEncode : V -> list Z.
Variable unknown : D.

(** [deviceInfo], and what [getInfo] returns; [connected] is a boolean
    or [null] ([None]). *)
Record DeviceInfo : Type := mkDeviceInfo {
  path : string;
  info_baudRate : Z;
  info_connected : option bool;
  details : D;
  lastSeen : option string
}.

(** [serial] is [null] or a port, of which [isOpen] is kept. *)
Record DeviceConnection : Type := mkDeviceConnection {
  devicePath : string;
  baudRate : Z;
  serial : option bool;
  coap : option (Client (V:=V));
  connected : bool;
  deviceInfo : DeviceInfo
}.

Definition new_DeviceConnection (devicePath : string) (baudRate : Z)
  : DeviceConnection :=
  {| devicePath := devicePath;
     baudRate := baudRate;
     serial := None;
     coap := None;
     connected := false;
     deviceInfo :=
       {| path := devicePath; info_baudRate := baudRate;
          info_connected := Some false; details := unknown;
          lastSeen := None |} |}.

(** [connect()]: the promise is rejected with the error of [open], or
    resolved; with the lines logged and the timeout set. *)
Definition connect (outcome : OpenOutcome) (d : DeviceConnection)
  : (string + unit) * DeviceConnection * list LogLine * list (Z * Task) :=
  match outcome with
  | OpenError message =>
      (inl message,
       mkDeviceConnection (devicePath d) (baudRate d) (Some false) (coap d)
         (connected d) (deviceInfo d),
       [ErrorOpen (devicePath d) message], [])
  | OpenOk now random =>
      (inr tt,
       mkDeviceConnection (devicePath d) (baudRate d) (Some true)
         (Some (constructor random)) true
         (mkDeviceInfo (path (deviceInfo d)) (info_baudRate (deviceInfo d))
            (Some true) (details (deviceInfo d)) (Some now)),
       [LogConnected (devicePath d)], [(500, SendPing (devicePath d))])
  end.

(** [disconnect()]: an open port is closed. *)
Definition disconnect (d : DeviceConnection) : DeviceConnection :=
  mkDeviceConnection (devicePath d) (baudRate d)
    (match serial d with
     | Some true => Some false
     | s => s
     end)
    (coap d) false
    (mkDeviceInfo (path (deviceInfo d)) (info_baudRate (deviceInfo d))
       (Some false) (details (deviceInfo d)) (lastSeen (deviceInfo d))).

(** [this.connected && this.serial && this.serial.isOpen] *)
Definition isConnected (d : DeviceConnection) : option bool :=
  if connected d
  then match serial d with
       | None => None
       | Some isOpen => Some isOpen
       end
  else Some false.

(** The connection after a call on its client, which is now [client]. *)
Definition set_coap (client : Client (V:=V)) (d : DeviceConnection)
  : DeviceConnection :=
  mkDeviceConnection (devicePath d) (baudRate d) (serial d) (Some client)
    (connected d) (deviceInfo d).

Definition truthy (v : option bool) : bool :=
  match v with
  | Some true => true
  | _ => false
  end.

Definition getInfo (d : DeviceConnection) : DeviceInfo :=
  mkDeviceInfo (path (deviceInfo d)) (info_baudRate (deviceInfo d))
    (isConnected d) (details (deviceInfo d)) (lastSeen (deviceInfo d)).

(** The manager, with the two things of the process it writes to: the
    pending timeouts and the console. *)
Record Manager : Type := mkManager {
  devices : list (string * DeviceConnection);
  scanInterval : option Z;
  timeouts : list (Z * Task);
  console : list LogLine
}.

Definition constructor : Manager :=
  {| devices := []; scanInterval := None; timeouts := []; console := [] |}.

Definition log (lines : list LogLine) (m : Manager) : Manager :=
  mkManager (devices m) (scanInterval m) (timeouts m) (console m ++ lines).

(** [connectDevice(devicePath, baudRate)]: the information returned, or
    the error thrown again. *)
Definition connectDevice (outcome : OpenOutcome) (devicePath : string)
    (baudRate : Z) (m : Manager) : (string + DeviceInfo) * Manager :=
  let m := log [LogConnecting devicePath] m in
  let device := new_DeviceConnection devicePath baudRate in
  match connect outcome device with
  | (inl message, _, lines, _) =>
      (inl message, log (lines ++ [ErrorConnect devicePath message]) m)
  | (inr _, device, lines, pings) =>
      (inr (getInfo device),
       mkManager (Map_set devicePath device (devices m)) (scanInterval m)
         (timeouts m ++ pings ++ [(1000, QueryDeviceInfo devicePath)])
         (console m ++ lines))
  end.

Definition disconnectDevice (devicePath : string) (m : Manager) : Manager :=
  match Map_get devicePath (devices m) with
  | Some device =>
      mkManager (Map_delete devicePath (devices m)) (scanInterval m)
        (timeouts m) (console m)
  | None => m
  end.

Definition getDevice (devicePath : string) (m : Manager)
  : option DeviceConnection :=
  Map_get devicePath (devices m).

Definition getAllDevices (m : Manager) : list DeviceInfo :=
  map (fun e => getInfo (snd e)) (devices m).

(** The first loop of [scanDevices]: connect what is not in the map; an
    exception of [connectDevice] ends the loop. *)
Fixpoint connect_loop (open : string -> OpenOutcome) (paths : list string)
    (m : Manager) : (string + unit) * Manager :=
  match paths with
  | [] => (inr tt, m)
  | devicePath :: rest =>
      if Map_has devicePath (devices m) then connect_loop open rest m
      else
        match connectDevice (open devicePath) devicePath 115200 m with
        | (inl message, m) => (inl message, m)
        | (inr _, m) => connect_loop open rest m
        end
  end.

(** The second loop, over the entries of the map. *)
Fixpoint remove_loop (ttyDevices : list string) (paths : list string)
    (m : Manager) : Manager :=
  match paths with
  | [] => m
  | path :: rest =>
      if existsb (String.eqb path) ttyDevices then remove_loop ttyDevices rest m
      else
        remove_loop ttyDevices rest
          (disconnectDevice path (log [LogRemoved path] m))
  end.

(** [scanDevices()], run from [readdirSync] to its return with nothing
    else of the manager running at its [await]s.  [readdir] is the
    listing of '/dev' or the error it throws, [open] what opening each
    port gives. *)
Definition scanDevices (readdir : string + list string)
    (open : string -> OpenOutcome) (m : Manager)
  : list DeviceInfo * Manager :=
  match readdir with
  | inl message => ([], log [ErrorScan message] m)
  | inr files =>
      let tty := ttyDevices files in
      let m := log [LogFound (length tty)] m in
      match connect_loop open tty m with
      | (inl message, m) => ([], log [ErrorScan message] m)
      | (inr _, m) =>
          let m := remove_loop tty (map fst (devices m)) m in
          (getAllDevices m, m)
      end
  end.

Inductive RequestError : Type :=
| DeviceNotFound (devicePath : string)
| DeviceNotConnected (devicePath : string)
| NoClient                       (* TypeError: [device.coap] is null *)
| Failed (e : RequestFailure).

(** [executeRequest(devicePath, method, uri, data)]: the promise of
    [request] or the exception; a [uri] left out is [None]. *)
Definition executeRequest (devicePath method : string) (uri : option string)
    (data : Payload) (m : Manager) : (RequestError + nat) * Manager :=
  match Map_get devicePath (devices m) with
  | None => (inl (DeviceNotFound devicePath), m)
  | Some device =>
      if negb (truthy (isConnected device))
      then (inl (DeviceNotConnected devicePath), m)
      else
        match coap device with
        | None => (inl NoClient, m)
        | Some client =>
            let '(result, client) :=
              request cborEncode method (default "/c"%string uri) data 15000
                client in
            (match result with
             | inl e => inl (Failed e)
             | inr promise => inr promise
             end,
             mkManager
               (Map_set devicePath (set_coap client device) (devices m))
               (scanInterval m) (timeouts m) (console m))
        end
  end.

Definition stopAutoScan (m : Manager) : Manager :=
  mkManager (devices m) None (timeouts m) (console m).

(** [shutdown()]: every connection is closed and the map is cleared. *)
Definition shutdown (m : Manager) : Manager :=
  let m := stopAutoScan m in
  mkManager [] (scanInterval m) (timeouts m) (console m).

End Manager.

End DeviceManager.

(* ===================================================================== *)
(** ** server.js: the request history                                     *)
(* ===================================================================== *)

Module Server.

Section History.

(** [R] is the type of the data of a result. *)
Context {R : Type}.

(** The [result] argument: an object with [data] and [duration]. *)
Record Result : Type := mkResult {
  r_data : R;
  r_duration : Z
}.

Record HistoryEntry : Type := mkHistoryEntry {
  timestamp : string;
  device : string;
  h_method : option string;
  h_uri : option string;
  success : bool;
  result : option Result;
  error : option string;
  duration : Z
}.

Definition MAX_HISTORY : Z := 200.

(** [addToHistory(device, method, uri, result, error = null)]: [now] is
    the time of the clock, [error] the message of the error or [None]
    for [null]. *)
Definition addToHistory (now : string) (device : string)
    (method uri : option string) (result : option Result)
    (error : option string) (requestHistory : list HistoryEntry)
  : list HistoryEntry :=
  let entry :=
    {| timestamp := now;
       device := device;
       h_method := method;
       h_uri := uri;
       success := match error with None => true | Some _ => false end;
       result := match error with None => result | Some _ => None end;
       error := error;
       duration := match result with
                   | Some r => r_duration r
                   | None => 0
                   end |} in
  let requestHistory := entry :: requestHistory in
  if Z.of_nat (length requestHistory) >? MAX_HISTORY
  then take (Z.to_nat MAX_HISTORY) requestHistory
  else requestHistory.

(** The arguments of one call of [addToHistory]. *)
Record HistoryCall : Type := mkHistoryCall {
  c_now : string;
  c_device : string;
  c_method : option string;
  c_uri : option string;
  c_result : option Result;
  c_error : option string
}.

Definition call (c : HistoryCall) (requestHistory : list HistoryEntry)
  : list HistoryEntry :=
  addToHistory (c_now c) (c_device c) (c_method c) (c_uri c) (c_result c)
    (c_error c) requestHistory.

End History.

End Server.

(* ===================================================================== *)
(** ** Properties                                                         *)
(* ===================================================================== *)

Import MUP1Protocol CoAPClient.

(** *** Arithmetic of the 32-bit operators *)

Lemma ToInt32_id (x : Z) :
  -2147483648 <= x < 2147483648 -> JS.ToInt32 x = x.
Proof. unfold JS.ToInt32. intros H. Z.div_mod_to_equations. lia. Qed.

Lemma ToInt32_range (x : Z) : -2147483648 <= JS.ToInt32 x < 2147483648.
Proof. unfold JS.ToInt32. Z.div_mod_to_equations. lia. Qed.

Lemma shr_16 (x : Z) : JS.shr x 16 = JS.ToInt32 x / 65536.
Proof. unfold JS.shr. now rewrite Z.shiftr_div_pow2 by lia. Qed.

Lemma band_FFFF (x : Z) : JS.band x 0xFFFF = JS.ToInt32 x mod 65536.
Proof.
  unfold JS.band. rewrite (ToInt32_id 65535) by lia.
  change 65535 with (Z.ones 16). now rewrite Z.land_ones by lia.
Qed.

Lemma lor_shifted_byte (hi lo : Z) :
  0 <= hi -> 0 <= lo < 256 -> Z.lor (hi * 256) lo = hi * 256 + lo.
Proof.
  intros Hhi Hlo.
  assert (Hland : Z.land (hi * 256) lo = 0).
  { apply Z.bits_inj'. intros n Hn. rewrite Z.land_spec, Z.bits_0.
    destruct (Z.lt_ge_cases n 8) as [Hlt | Hge].
    - change 256 with (2 ^ 8). rewrite Z.mul_pow2_bits_low by lia. reflexivity.
    - assert (Z.testbit lo n = false) as ->.
      { destruct (Z.eq_dec lo 0) as [-> | Hne]; [apply Z.bits_0 |].
        apply Z.bits_above_log2; [lia |].
        assert (Z.log2 lo < 8) by (apply Z.log2_lt_pow2; lia). lia. }
      apply andb_false_r. }
  rewrite Z.add_nocarry_lxor by exact Hland.
  now rewrite Z.lxor_lor by exact Hland.
Qed.

Lemma shl_8_byte (b : Z) : Spec.is_byte b -> JS.shl b 8 = b * 256.
Proof.
  unfold Spec.is_byte, JS.shl. intros H.
  rewrite (ToInt32_id b) by lia. rewrite Z.shiftl_mul_pow2 by lia.
  change (2 ^ 8) with 256. apply ToInt32_id. lia.
Qed.

Lemma bor_word (hi lo : Z) :
  Spec.is_byte hi -> Spec.is_byte lo ->
  JS.bor (JS.shl hi 8) lo = hi * 256 + lo.
Proof.
  unfold Spec.is_byte. intros Hhi Hlo. rewrite shl_8_byte by exact Hhi.
  unfold JS.bor. rewrite !ToInt32_id by lia. apply lor_shifted_byte; lia.
Qed.

(** *** The checksum *)

(** The folding loop of [calculateChecksum] has left the loop after at
    most two additions, whatever number it starts from: the three rounds
    given to [fold_loop] are enough. *)
Lemma fold_loop_exits (sum : Z) : JS.shr (fold_loop 3 sum) 16 = 0.
Proof.
  cbn [fold_loop]. rewrite !shr_16, !band_FFFF.
  pose proof (ToInt32_range sum) as H0.
  set (t := JS.ToInt32 sum) in *.
  destruct (Z.eqb_spec (t / 65536) 0) as [E0 | E0]; [exact E0 |].
  set (s1 := t mod 65536 + t / 65536).
  assert (H1 : -32768 <= s1 < 98303)
    by (unfold s1; Z.div_mod_to_equations; lia).
  rewrite !(ToInt32_id s1) by lia.
  destruct (Z.eqb_spec (s1 / 65536) 0) as [E1 | E1];
    [now rewrite ToInt32_id by lia |].
  set (s2 := s1 mod 65536 + s1 / 65536).
  assert (H2 : 0 <= s2 < 65536)
    by (unfold s2; Z.div_mod_to_equations; lia).
  rewrite !(ToInt32_id s2) by lia.
  assert (E2 : s2 / 65536 = 0) by (Z.div_mod_to_equations; lia).
  rewrite E2. cbn [Z.eqb]. now rewrite ToInt32_id by lia.
Qed.

Lemma fold_loop_stable (fuel : nat) (sum : Z) :
  JS.shr sum 16 = 0 -> fold_loop fuel sum = sum.
Proof. intros H. destruct fuel; cbn [fold_loop]; [|rewrite H]; reflexivity. Qed.

Lemma fold_loop_more (fuel : nat) (sum : Z) :
  fold_loop (3 + fuel) sum = fold_loop 3 sum.
Proof.
  pose proof (fold_loop_exits sum) as Hexit. revert Hexit.
  cbn [fold_loop Nat.add].
  repeat (destruct (_ =? 0); [reflexivity |]).
  intros Hexit. now apply fold_loop_stable.
Qed.

Lemma calculateChecksum_range (data : list Z) :
  0 <= calculateChecksum data < 65536.
Proof.
  unfold calculateChecksum. rewrite band_FFFF. Z.div_mod_to_equations. lia.
Qed.

Lemma pair_induction (P : list Z -> Prop) :
  P [] -> (forall a, P [a]) -> (forall a b l, P l -> P (a :: b :: l)) ->
  forall l, P l.
Proof.
  intros H0 H1 H2 l.
  assert (H : P l /\ forall a, P (a :: l)).
  { induction l as [| b l [IH1 IH2]]; split; auto. }
  exact (proj1 H).
Qed.

Lemma sum_loop_word_sum (data : list Z) :
  Forall Spec.is_byte data ->
  forall acc, sum_loop data acc = acc + Spec.word_sum data.
Proof.
  induction data as [| a | a b l IH] using pair_induction; intros Hb acc.
  - cbn. lia.
  - inversion_clear Hb as [| ? ? Ha _]. cbn [sum_loop].
    rewrite shl_8_byte by exact Ha. unfold Spec.word_sum. cbn. lia.
  - inversion_clear Hb as [| ? ? Ha Hb']. inversion_clear Hb' as [| ? ? Hb Hl].
    cbn [sum_loop]. rewrite IH by exact Hl. rewrite bor_word by assumption.
    unfold Spec.word_sum. cbn. lia.
Qed.

Lemma word_sum_bound (data : list Z) :
  Forall Spec.is_byte data ->
  0 <= Spec.word_sum data /\
  2 * Spec.word_sum data <= 65535 * (Z.of_nat (length data) + 1).
Proof.
  unfold Spec.word_sum, Spec.is_byte.
  induction data as [| a | a b l IH] using pair_induction; intros Hb.
  - cbn. lia.
  - inversion_clear Hb as [| ? ? Ha _]. cbn. lia.
  - inversion_clear Hb as [| ? ? Ha Hb']. inversion_clear Hb' as [| ? ? Hb Hl].
    specialize (IH Hl). cbn [Spec.words foldr length]. lia.
Qed.

Lemma word_sum_short (data : list Z) :
  Forall Spec.is_byte data -> Z.of_nat (length data) <= 65536 ->
  0 <= Spec.word_sum data < 2147483648.
Proof. intros Hb Hlen. pose proof (word_sum_bound data Hb). lia. Qed.

Lemma fold_carries_small (fuel : nat) (s : Z) :
  s < 65536 -> Spec.fold_carries fuel s = s.
Proof.
  intros H. destruct fuel; cbn [Spec.fold_carries]; [reflexivity |].
  destruct (Z.ltb_spec s 65536); [reflexivity | lia].
Qed.

(** The reference folding is complete: no carry is left. *)
Lemma fold_carries_done (fuel : nat) (s : Z) :
  (2 <= fuel)%nat -> 0 <= s < 2 ^ (15 * Z.of_nat fuel + 2) ->
  0 <= Spec.fold_carries fuel s < 65536.
Proof.
  intros Hf. revert s.
  induction fuel as [| f IH]; [lia |]. intros s Hs.
  cbn [Spec.fold_carries].
  destruct (Z.ltb_spec s 65536) as [Hlt | Hge]; [lia |].
  set (s1 := s mod 65536 + s / 65536).
  destruct (Nat.eq_dec f 1%nat) as [-> | Hf1].
  - change (2 ^ (15 * Z.of_nat 2%nat + 2)) with 4294967296 in Hs.
    assert (H1 : 0 <= s1 < 131071)
      by (unfold s1; Z.div_mod_to_equations; lia).
    cbn [Spec.fold_carries].
    destruct (Z.ltb_spec s1 65536) as [Hlt1 | Hge1]; [lia |].
    Z.div_mod_to_equations. lia.
  - apply IH; [lia |].
    assert (Hpow : 2 ^ (15 * Z.of_nat (S f) + 2)
                   = 65536 * 2 ^ (15 * Z.of_nat f + 1)).
    { replace (15 * Z.of_nat (S f) + 2) with (16 + (15 * Z.of_nat f + 1)) by lia.
      rewrite Z.pow_add_r by lia. reflexivity. }
    assert (Hpow' : 2 ^ (15 * Z.of_nat f + 2) = 2 * 2 ^ (15 * Z.of_nat f + 1)).
    { replace (15 * Z.of_nat f + 2) with (1 + (15 * Z.of_nat f + 1)) by lia.
      rewrite Z.pow_add_r by lia. reflexivity. }
    assert (Hbig : 65536 <= 2 ^ (15 * Z.of_nat f + 1)).
    { change 65536 with (2 ^ 16). apply Z.pow_le_mono_r; lia. }
    rewrite Hpow in Hs. rewrite Hpow'.
    assert (s / 65536 < 2 ^ (15 * Z.of_nat f + 1))
      by (apply Z.div_lt_upper_bound; lia).
    unfold s1. pose proof (Z.mod_pos_bound s 65536 ltac:(lia)).
    pose proof (Z.div_pos s 65536 ltac:(lia) ltac:(lia)). lia.
Qed.

Lemma ones_complement_sum_range (data : list Z) :
  0 <= Spec.word_sum data ->
  0 <= Spec.ones_complement_sum data < 65536.
Proof.
  intros H0. unfold Spec.ones_complement_sum.
  apply fold_carries_done; [lia |]. split; [exact H0 |].
  destruct (Z.eq_dec (Spec.word_sum data) 0) as [-> | Hne].
  - apply Z.pow_pos_nonneg; lia.
  - pose proof (Z.log2_nonneg (Spec.word_sum data)).
    eapply Z.lt_le_trans.
    + apply Z.log2_spec. lia.
    + apply Z.pow_le_mono_r; lia.
Qed.

(** Below [2 ^ 31] the loop of the code folds as the reference does. *)
Lemma fold_loop_fold_carries (fuel : nat) (s : Z) :
  0 <= s < 2147483648 ->
  fold_loop 3 s = Spec.fold_carries (fuel + 2) s.
Proof.
  intros Hs. rewrite Nat.add_comm. cbn [Nat.add fold_loop Spec.fold_carries].
  rewrite !shr_16, !band_FFFF, !(ToInt32_id s) by lia.
  set (s1 := s mod 65536 + s / 65536).
  assert (H1 : 0 <= s1 < 98303)
    by (unfold s1; Z.div_mod_to_equations; lia).
  rewrite !(ToInt32_id s1) by lia.
  set (s2 := s1 mod 65536 + s1 / 65536).
  assert (H2 : 0 <= s1 -> 65536 <= s1 -> 0 <= s2 < 65536)
    by (unfold s2; Z.div_mod_to_equations; lia).
  destruct (Z.ltb_spec s 65536) as [Hlt | Hge];
    destruct (Z.eqb_spec (s / 65536) 0) as [E0 | E0];
    try reflexivity; try (exfalso; Z.div_mod_to_equations; lia).
  destruct (Z.ltb_spec s1 65536) as [Hlt1 | Hge1];
    destruct (Z.eqb_spec (s1 / 65536) 0) as [E1 | E1];
    try reflexivity; try (exfalso; Z.div_mod_to_equations; lia).
  rewrite fold_carries_small by lia.
  rewrite !(ToInt32_id s2) by lia.
  destruct (Z.eqb_spec (s2 / 65536) 0) as [E2 | E2]; [reflexivity |].
  exfalso. specialize (H2 ltac:(lia) Hge1). Z.div_mod_to_equations. lia.
Qed.

Lemma calculateChecksum_spec (data : list Z) :
  Forall Spec.is_byte data -> Spec.word_sum data < 2147483648 ->
  calculateChecksum data = Spec.checksum data.
Proof.
  intros Hb Hsum. pose proof (word_sum_bound data Hb) as [H0 _].
  unfold calculateChecksum, Spec.checksum.
  rewrite sum_loop_word_sum by exact Hb. rewrite Z.add_0_l.
  pose proof (ones_complement_sum_range data H0) as Hr.
  unfold Spec.ones_complement_sum in *.
  rewrite (fold_loop_fold_carries (Z.to_nat (Z.log2 (Spec.word_sum data))))
    by lia.
  set (r := Spec.fold_carries _ _) in *.
  unfold JS.band, JS.bnot. rewrite (ToInt32_id r) by lia.
  rewrite (ToInt32_id 65535) by lia.
  rewrite ToInt32_id; [reflexivity |]. unfold Z.lnot. lia.
Qed.

Lemma upper_digit (d : Z) :
  0 <= d < 16 -> JS.upper (JS.digit d) = Spec.hex_upper d.
Proof.
  intros H.
  assert (d = 0 \/ d = 1 \/ d = 2 \/ d = 3 \/ d = 4 \/ d = 5 \/ d = 6 \/ d = 7 \/
          d = 8 \/ d = 9 \/ d = 10 \/ d = 11 \/ d = 12 \/ d = 13 \/ d = 14 \/
          d = 15) as Hcases by lia.
  repeat (destruct Hcases as [-> | Hcases]; [reflexivity |]).
  subst d. reflexivity.
Qed.

Lemma checksumStr_hex4 (v : Z) :
  0 <= v < 65536 -> checksumStr v = Spec.hex4 v.
Proof.
  intros Hv. unfold checksumStr, JS.Number_toString, Spec.hex4.
  assert (Hd : forall x, 0 <= x mod 16 < 16)
    by (intros x; apply Z.mod_pos_bound; lia).
  rewrite <- !upper_digit by apply Hd.
  replace (v / 4096) with (v / 16 / 16 / 16)
    by (rewrite !Z.div_div by lia; reflexivity).
  replace (v / 256) with (v / 16 / 16)
    by (rewrite !Z.div_div by lia; reflexivity).
  destruct (Z.lt_ge_cases v 16) as [Hlt | Hge].
  - cbn [JS.digits]. rewrite (Z.div_small v 16) by lia.
    cbn. reflexivity.
  - assert (Hlog : 4 <= Z.log2 v)
      by (change 4 with (Z.log2 16); apply Z.log2_le_mono; lia).
    destruct (Z.to_nat (Z.log2 v)) as [| [| [| [| k]]]] eqn:E; try lia.
    cbn [JS.digits].
    destruct (Z.eqb_spec (v / 16) 0) as [E1 | E1];
      [exfalso; Z.div_mod_to_equations; lia |].
    destruct (Z.eqb_spec (v / 16 / 16) 0) as [E2 | E2].
    { rewrite E2. cbn. reflexivity. }
    destruct (Z.eqb_spec (v / 16 / 16 / 16) 0) as [E3 | E3].
    { rewrite E3. cbn. reflexivity. }
    destruct (Z.eqb_spec (v / 16 / 16 / 16 / 16) 0) as [E4 | E4];
      [| exfalso; Z.div_mod_to_equations; lia].
    cbn. reflexivity.
Qed.

Lemma Buffer_from_app (a b : list Z) :
  JS.Buffer_from (a ++ b) = JS.Buffer_from a ++ JS.Buffer_from b.
Proof. unfold JS.Buffer_from. apply map_app. Qed.

Lemma charCode_range (c : ascii) : 0 <= JS.charCode c < 256.
Proof.
  unfold JS.charCode. pose proof (N_ascii_bounded c). lia.
Qed.

Lemma Buffer_from_bytes (l : list Z) :
  Forall Spec.is_byte l -> JS.Buffer_from l = l.
Proof.
  unfold JS.Buffer_from, Spec.is_byte. induction 1 as [| x l Hx _ IH]; cbn.
  - reflexivity.
  - rewrite IH. f_equal. apply Z.mod_small. exact Hx.
Qed.

Lemma charCodes_bytes (s : string) : Forall Spec.is_byte (JS.charCodes s).
Proof.
  induction s as [| c s IH]; cbn [JS.charCodes]; constructor;
    [apply charCode_range | exact IH].
Qed.

Lemma encodeFrame_checksum (type : Z) (data : list Z) :
  encodeFrame type data =
    JS.Buffer_from (frame_body type data)
    ++ JS.charCodes
         (Spec.hex4 (calculateChecksum (JS.Buffer_from (frame_body type data)))).
Proof.
  unfold encodeFrame. rewrite Buffer_from_app.
  rewrite checksumStr_hex4 by apply calculateChecksum_range.
  f_equal. apply Buffer_from_bytes, charCodes_bytes.
Qed.

Lemma word_sum_replicate_FF (n : nat) :
  Spec.word_sum (replicate (2 * n) 255) = 65535 * Z.of_nat n.
Proof.
  unfold Spec.word_sum. induction n as [| n IH]; [reflexivity |].
  replace (2 * S n)%nat with (S (S (2 * n))) by lia.
  cbn [replicate Spec.words foldr]. rewrite IH. lia.
Qed.

(** C5 (amended).  For every byte string whose 16-bit word sum is below
    2^31 (every byte string of at most 65536 bytes is one,
    [word_sum_short]), [calculateChecksum] is the sum of the big-endian
    16-bit words (an odd last byte being a high byte), with the carries
    above bit 15 folded back until none remain, then complemented and
    masked to 16 bits; and whatever the frame, the encoder appends the
    checksum of the bytes before it as exactly four uppercase hexadecimal
    characters, zero-padded. *)
Theorem calculateChecksum_ones_complement (data : list Z) :
  Forall Spec.is_byte data ->
  Spec.word_sum data < 2147483648 ->
  calculateChecksum data = Spec.checksum data
  /\ 0 <= Spec.ones_complement_sum data < 65536
  /\ forall type payload,
       encodeFrame type payload =
         JS.Buffer_from (frame_body type payload)
         ++ JS.charCodes
              (Spec.hex4
                 (calculateChecksum (JS.Buffer_from (frame_body type payload)))).
Proof.
  intros Hb Hsum. split; [| split].
  - now apply calculateChecksum_spec.
  - apply ones_complement_sum_range. now apply word_sum_bound.
  - apply encodeFrame_checksum.
Qed.

Lemma calculateChecksum_ones_complement_witness :
  Forall Spec.is_byte [0x3E; 0x70; 0x3C; 0x3C]
  /\ Spec.word_sum [0x3E; 0x70; 0x3C; 0x3C] < 2147483648
  /\ calculateChecksum [0x3E; 0x70; 0x3C; 0x3C] = 0x8553.
Proof.
  assert (Hb : Forall Spec.is_byte [0x3E; 0x70; 0x3C; 0x3C])
    by (repeat constructor; unfold Spec.is_byte; lia).
  assert (Hs : Spec.word_sum [0x3E; 0x70; 0x3C; 0x3C] < 2147483648)
    by (vm_compute; reflexivity).
  split; [exact Hb | split; [exact Hs |]].
  rewrite (proj1 (calculateChecksum_ones_complement _ Hb Hs)).
  vm_compute. reflexivity.
Defined.

(** C5, as stated for every byte string, fails on a long one: 131076
    bytes 0xFF sum to 0x10000FFFE, which does not fit the 32-bit operands
    of [>>]; the code answers 1 where the folded sum 0xFFFF gives 0. *)
Lemma calculateChecksum_long_buffer :
  let data := replicate (Z.to_nat 131076) 255 in
  Forall Spec.is_byte data
  /\ Spec.word_sum data = 0x10000FFFE
  /\ calculateChecksum data = 1
  /\ Spec.checksum data = 0
  /\ calculateChecksum data <> Spec.checksum data.
Proof.
  cbv zeta.
  assert (Hb : Forall Spec.is_byte (replicate (Z.to_nat 131076) 255))
    by (apply Forall_replicate; unfold Spec.is_byte; lia).
  assert (Hsum : Spec.word_sum (replicate (Z.to_nat 131076) 255) = 0x10000FFFE).
  { replace (Z.to_nat 131076) with (2 * Z.to_nat 65538)%nat by lia.
    rewrite word_sum_replicate_FF. lia. }
  assert (Hcode : calculateChecksum (replicate (Z.to_nat 131076) 255) = 1).
  { unfold calculateChecksum. rewrite sum_loop_word_sum by exact Hb.
    rewrite Hsum. vm_compute. reflexivity. }
  assert (Hspec : Spec.checksum (replicate (Z.to_nat 131076) 255) = 0).
  { unfold Spec.checksum, Spec.ones_complement_sum. rewrite Hsum.
    vm_compute. reflexivity. }
  split; [exact Hb |]. split; [exact Hsum |]. split; [exact Hcode |].
  split; [exact Hspec |]. rewrite Hcode, Hspec. discriminate.
Qed.

(** *** The round trip where it holds *)

Lemma escape_loop_bytes (payload : list Z) :
  Forall Spec.is_byte payload -> Forall Spec.is_byte (escape_loop payload).
Proof.
  induction 1 as [| b l Hb _ IH]; cbn [escape_loop]; [constructor |].
  destruct (needsEscape b) eqn:E.
  - constructor; [unfold Spec.is_byte, ESCAPE; lia |].
    constructor; [| exact IH]. unfold ESCAPE_MAP, Spec.is_byte.
    repeat match goal with |- context [if ?c then _ else _] => destruct c end;
      cbn; lia.
  - constructor; assumption.
Qed.

(** The decoding loop undoes the escaping of a payload that holds no
    0x3C, and stops at the EOF that follows it. *)
Lemma decode_loop_escape_loop (payload rest acc : list Z) :
  EOF ∉ payload ->
  decode_loop (escape_loop payload ++ EOF :: rest) false acc = acc ++ payload.
Proof.
  revert acc. induction payload as [| b l IH]; intros acc Hno.
  - cbn. now rewrite app_nil_r.
  - apply not_elem_of_cons in Hno as [Hb Hl].
    cbn [escape_loop]. unfold needsEscape, ESCAPE_MAP.
    assert (Hb60 : b <> 60) by (intros ->; now apply Hb).
    assert (Hb' : (b =? 0x3C) = false) by (apply Z.eqb_neq; exact Hb60).
    rewrite Hb'.
    destruct (Z.eqb_spec b 0x00) as [-> | H0];
      [| destruct (Z.eqb_spec b 0xFF) as [-> | H1];
         [| destruct (Z.eqb_spec b 0x3E) as [-> | H2];
            [| destruct (Z.eqb_spec b 0x5C) as [-> | H3]]]];
      cbn [orb default app decode_loop].
    1-4: cbn; rewrite IH by exact Hl; now rewrite <- app_assoc.
    unfold EOF, ESCAPE.
    destruct (Z.eqb_spec b 60); [contradiction |].
    destruct (Z.eqb_spec b 92); [contradiction |].
    fold EOF. rewrite IH by exact Hl. now rewrite <- app_assoc.
Qed.

Lemma escape_loop_no_EOF (payload : list Z) :
  EOF ∉ payload -> EOF ∉ escape_loop payload.
Proof.
  induction payload as [| b l IH]; intros Hno; cbn [escape_loop];
    [exact Hno |].
  apply not_elem_of_cons in Hno as [Hb Hl]. specialize (IH Hl).
  destruct (needsEscape b) eqn:E.
  - apply not_elem_of_cons. split; [unfold EOF, ESCAPE; lia |].
    apply not_elem_of_cons. split; [| exact IH].
    unfold ESCAPE_MAP, EOF in *.
    repeat match goal with |- context [if ?x =? ?y then _ else _] =>
             destruct (Z.eqb_spec x y) end; cbn; lia.
  - apply not_elem_of_cons. now split.
Qed.

Lemma indexOf_go_first (v : Z) (l r : list Z) (i : Z) :
  v ∉ l -> JS.indexOf_go v (l ++ v :: r) i = i + Z.of_nat (length l).
Proof.
  revert i. induction l as [| x l IH]; intros i Hno; cbn [app JS.indexOf_go length].
  - rewrite Z.eqb_refl. lia.
  - apply not_elem_of_cons in Hno as [Hx Hl].
    destruct (Z.eqb_spec x v); [congruence |]. rewrite IH by exact Hl. lia.
Qed.

Lemma hex_upper_char (d : Z) :
  0 <= d < 16 ->
  JS.charCode (Spec.hex_upper d) <> EOF
  /\ JS.upper (JS.fromCharCode (Z.land (JS.charCode (Spec.hex_upper d)) 127))
     = Spec.hex_upper d.
Proof.
  intros H.
  assert (d = 0 \/ d = 1 \/ d = 2 \/ d = 3 \/ d = 4 \/ d = 5 \/ d = 6 \/ d = 7 \/
          d = 8 \/ d = 9 \/ d = 10 \/ d = 11 \/ d = 12 \/ d = 13 \/ d = 14 \/
          d = 15) as Hcases by lia.
  repeat (destruct Hcases as [-> | Hcases];
          [split; [vm_compute; discriminate | reflexivity] |]).
  subst d. split; [vm_compute; discriminate | reflexivity].
Qed.

Lemma slice_prefix (a b : list Z) :
  JS.slice (a ++ b) 0 (Z.of_nat (length a)) = a.
Proof.
  unfold JS.slice. rewrite Nat2Z.id. change (Z.to_nat 0) with 0%nat.
  rewrite drop_0. apply take_app_length.
Qed.

Lemma slice_suffix (a b : list Z) (k : Z) :
  Z.of_nat (length b) <= k ->
  JS.slice (a ++ b) (Z.of_nat (length a)) (Z.of_nat (length a) + k) = b.
Proof.
  intros Hk. unfold JS.slice. rewrite Nat2Z.id.
  rewrite take_ge by (rewrite length_app; lia). apply drop_app_length.
Qed.

Lemma provided_checksum (pre : list Z) (v : Z) :
  JS.toUpperCase
    (JS.toString_ascii (pre ++ JS.charCodes (Spec.hex4 v))
       (Z.of_nat (length pre)) (Z.of_nat (length pre) + 4))
  = Spec.hex4 v.
Proof.
  unfold JS.toString_ascii. rewrite slice_suffix by (cbn; lia).
  unfold Spec.hex4. cbn [string_of_list_ascii JS.charCodes map JS.toUpperCase].
  assert (Hd : forall x, 0 <= x mod 16 < 16)
    by (intros x; apply Z.mod_pos_bound; lia).
  now rewrite !(fun x => proj2 (hex_upper_char (x mod 16) (Hd x))).
Qed.

(** Decoding what the encoder wrote gives the type and the payload back,
    with a valid checksum, for every payload that is not empty and holds
    no 0x3C. *)
Lemma frame_roundtrip_without_EOF (type : Z) (payload : list Z) :
  Spec.is_byte type ->
  Forall Spec.is_byte payload ->
  payload <> [] ->
  EOF ∉ payload ->
  decodeFrame (encodeFrame type payload)
  = inr {| type_ := JS.fromCharCode type;
           data_ := payload;
           checksum_ :=
             Spec.hex4 (calculateChecksum (frame_body type payload));
           valid_ := true |}.
Proof.
  intros Htype Hbytes Hne Hno.
  set (esc := escape_loop payload).
  assert (Hesc : (1 <= length esc)%nat).
  { unfold esc. destruct payload as [| b l]; [congruence |].
    cbn [escape_loop]. destruct (needsEscape b); cbn [length]; lia. }
  assert (Hshape : exists eofs,
             (eofs = [] \/ eofs = [EOF])
             /\ frame_body type payload = (SOF :: type :: esc) ++ EOF :: eofs).
  { unfold frame_body. fold esc.
    destruct (_ =? 0); [exists [EOF] | exists []];
      (split; [auto |]); cbn [app]; rewrite <- ?app_assoc; reflexivity. }
  destruct Hshape as (eofs & Heofs & Hbody).
  assert (Hpre : Forall Spec.is_byte (frame_body type payload)).
  { rewrite Hbody. apply Forall_app. split.
    - constructor; [unfold Spec.is_byte, SOF; lia |].
      constructor; [exact Htype | apply escape_loop_bytes, Hbytes].
    - destruct Heofs as [-> | ->]; repeat constructor;
        unfold Spec.is_byte, EOF; lia. }
  rewrite encodeFrame_checksum. rewrite (Buffer_from_bytes _ Hpre).
  set (v := calculateChecksum (frame_body type payload)).
  set (cs := JS.charCodes (Spec.hex4 v)).
  assert (Hcs : length cs = 4%nat) by reflexivity.
  assert (Hc1 : JS.at_is cs 0 EOF = false).
  { unfold cs, Spec.hex4. cbn [string_of_list_ascii JS.charCodes].
    unfold JS.at_is. cbn.
    apply Z.eqb_neq, hex_upper_char, Z.mod_pos_bound. lia. }
  set (A := SOF :: type :: esc) in *.
  assert (HA : Z.of_nat (length A) = 2 + Z.of_nat (length esc))
    by (unfold A; cbn [length]; lia).
  set (buffer := frame_body type payload ++ cs).
  assert (Hbuf : buffer = A ++ EOF :: (eofs ++ cs))
    by (unfold buffer; rewrite Hbody, <- app_assoc; reflexivity).
  assert (Hlen : Z.of_nat (length buffer)
                 = Z.of_nat (length A) + 1 + Z.of_nat (length eofs) + 4).
  { rewrite Hbuf, length_app. cbn [length]. rewrite length_app, Hcs. lia. }
  assert (Hend : JS.indexOf buffer EOF 2 = Z.of_nat (length A)).
  { unfold JS.indexOf. rewrite Hbuf. unfold A. cbn [Z.to_nat Pos.to_nat Pos.iter_op Nat.add drop app].
    change (Z.to_nat 2) with 2%nat. cbn [drop app].
    rewrite drop_0, indexOf_go_first by (apply escape_loop_no_EOF, Hno).
    cbn [length]. lia. }
  assert (Hloop : decode_loop (JS.slice buffer 2 (Z.of_nat (length buffer) - 4))
                    false [] = payload).
  { unfold JS.slice. rewrite Hbuf. change (Z.to_nat 2) with 2%nat.
    replace (Z.to_nat (Z.of_nat (length (A ++ EOF :: eofs ++ cs)) - 4))
      with (length (A ++ EOF :: eofs))
      by (rewrite !length_app; cbn [length]; rewrite length_app, Hcs; lia).
    replace (A ++ EOF :: eofs ++ cs) with ((A ++ EOF :: eofs) ++ cs)
      by (rewrite <- app_assoc; reflexivity).
    rewrite take_app_length. unfold A. cbn [app drop]. rewrite drop_0.
    apply (decode_loop_escape_loop payload eofs []). exact Hno. }
  assert (Hdouble : JS.at_is buffer (Z.of_nat (length A) + 1) EOF
                    = match eofs with [] => false | _ => true end).
  { unfold JS.at_is, JS.at_.
    destruct (Z.ltb_spec (Z.of_nat (length A) + 1) 0); [lia |].
    replace (Z.to_nat (Z.of_nat (length A) + 1)) with (length A + 1)%nat by lia.
    rewrite Hbuf. rewrite lookup_app_r by lia.
    replace (length A + 1 - length A)%nat with 1%nat by lia.
    destruct Heofs as [-> | ->]; cbn [app lookup list_lookup].
    - unfold JS.at_is, JS.at_ in Hc1. cbn in Hc1. exact Hc1.
    - reflexivity. }
  assert (Hpre_len : Z.of_nat (length (frame_body type payload))
                     = Z.of_nat (length A) + (match eofs with [] => 1 | _ => 2 end)).
  { rewrite Hbody, length_app. destruct Heofs as [-> | ->]; cbn [length]; lia. }
  unfold decodeFrame. fold buffer.
  destruct (Z.ltb_spec (Z.of_nat (length buffer)) 8); [lia |].
  assert (Hsof : JS.at_is buffer 0 SOF = true) by (rewrite Hbuf; reflexivity).
  rewrite Hsof. cbn [negb].
  assert (Htype' : JS.at_ buffer 1 = Some type) by (rewrite Hbuf; reflexivity).
  rewrite Htype'. cbn [default]. rewrite Hloop, Hend, Hdouble.
  rewrite (Buffer_from_bytes _ Hbytes).
  assert (Hstart : (if match eofs with [] => false | _ => true end
                    then Z.of_nat (length A) + 2 else Z.of_nat (length A) + 1)
                   = Z.of_nat (length (frame_body type payload)))
    by (rewrite Hpre_len; destruct Heofs as [-> | ->]; reflexivity).
  assert (Hstop : Z.of_nat (length A)
                  + (if match eofs with [] => false | _ => true end then 2 else 1)
                  = Z.of_nat (length (frame_body type payload)))
    by (rewrite Hpre_len; destruct Heofs as [-> | ->]; reflexivity).
  rewrite Hstart, Hstop. unfold buffer, cs.
  rewrite provided_checksum, slice_prefix.
  rewrite checksumStr_hex4 by apply calculateChecksum_range.
  fold v. rewrite String.eqb_refl. reflexivity.
Qed.

(** *** The frame codec at the inputs where the round trip breaks *)

(** C1.  The round trip [decodeFrame (encodeFrame type payload)] does not
    give the payload back in two cases.  A payload holding 0x3C is cut at
    that byte although the encoder escaped it (here the whole payload is
    lost, and the checksum is still reported valid); the empty payload
    encodes to 7 bytes, which the decoder rejects as too short.  On every
    other payload the round trip holds ([frame_roundtrip_without_EOF]). *)
Theorem frame_roundtrip_breaks :
  encodeFrame 0x43 [0x3C] = [0x3E; 0x43; 0x5C; 0x3C; 0x3C; 50; 57; 56; 48]
  /\ decodeFrame (encodeFrame 0x43 [0x3C])
     = inr {| type_ := "C"; data_ := []; checksum_ := "2980"; valid_ := true |}
  /\ encodeFrame 0x43 [] = [0x3E; 0x43; 0x3C; 56; 53; 66; 67]
  /\ decodeFrame (encodeFrame 0x43 []) = inl FrameTooShort.
Proof. repeat split; vm_compute; reflexivity. Qed.

(** C2.  In [decodeFrame] every 0x3C ends the payload walk, the escaped
    one too: the test for EOF comes before the test for a pending escape,
    so the pair 0x5C 0x3C, which the encoder writes for a payload byte
    0x3C and which the unescape table maps back to 0x3C, is never
    unescaped.  The frame of the payload 41 3C 42 decodes to the payload
    41, and its checksum is then read at the wrong place. *)
Theorem decodeFrame_escaped_eof_ends_payload :
  escape_loop [0x3C] = [0x5C; 0x3C]
  /\ UNESCAPE_MAP 0x3C = Some 0x3C
  /\ encodeFrame 0x43 [0x41; 0x3C; 0x42]
     = [0x3E; 0x43; 0x41; 0x5C; 0x3C; 0x42; 0x3C; 48; 56; 49; 69]
  /\ decode_loop [0x41; 0x5C; 0x3C; 0x42; 0x3C] false [] = [0x41]
  /\ decodeFrame [0x3E; 0x43; 0x41; 0x5C; 0x3C; 0x42; 0x3C; 48; 56; 49; 69]
     = inr {| type_ := "C"; data_ := [0x41]; checksum_ := "B<08";
              valid_ := false |}.
Proof. repeat split; vm_compute; reflexivity. Qed.

(** C3.  [encodeFrame 'P' []] writes a single EOF: the three bytes
    3E 50 3C (an odd count, so no padding is added) and the four
    characters "85AF" of their checksum, 7 bytes in all, which
    [decodeFrame] refuses as shorter than the minimal frame.  The 8-byte
    frame 3E 50 3C 3C "8573" is the one the decoder accepts as the empty
    ping. *)
Theorem encodeFrame_empty_ping :
  createPing = encodeFrame 0x50 []
  /\ encodeFrame 0x50 [] = [0x3E; 0x50; 0x3C] ++ JS.charCodes "85AF"
  /\ calculateChecksum [0x3E; 0x50; 0x3C] = 0x85AF
  /\ decodeFrame (encodeFrame 0x50 []) = inl FrameTooShort
  /\ calculateChecksum [0x3E; 0x50; 0x3C; 0x3C] = 0x8573
  /\ decodeFrame ([0x3E; 0x50; 0x3C; 0x3C] ++ JS.charCodes "8573")
     = inr {| type_ := "P"; data_ := []; checksum_ := "8573"; valid_ := true |}.
Proof. repeat split; vm_compute; reflexivity. Qed.

(* ===================================================================== *)
(** ** The CoAP client                                                    *)
(* ===================================================================== *)

Lemma at_lookup (buf : list Z) (i : nat) :
  JS.at_ buf (Z.of_nat i) = buf !! i.
Proof.
  unfold JS.at_. destruct (Z.ltb_spec (Z.of_nat i) 0); [lia |].
  now rewrite Nat2Z.id.
Qed.

Lemma at_byte (buf : list Z) (i b : Z) :
  Forall Spec.is_byte buf -> JS.at_ buf i = Some b -> Spec.is_byte b.
Proof.
  unfold JS.at_. intros Hb. destruct (i <? 0); [discriminate |]. intros H.
  rewrite Forall_forall in Hb. apply Hb. eapply list_elem_of_lookup_2, H.
Qed.

Lemma codeName_table :
  forallb
    (fun c =>
       String.eqb (codeName_of c) (default (Spec.cdd c) (RESPONSE_CODES !! c))
       && String.prefix (Spec.cdd c) (codeName_of c))
    (seqZ 0 256) = true.
Proof. vm_compute. reflexivity. Qed.

Lemma codeName_of_byte (c : Z) :
  Spec.is_byte c ->
  codeName_of c = default (Spec.cdd c) (RESPONSE_CODES !! c)
  /\ String.prefix (Spec.cdd c) (codeName_of c) = true.
Proof.
  intros Hc. pose proof codeName_table as H. rewrite forallb_forall in H.
  specialize (H c ltac:(apply list_elem_of_In, elem_of_seqZ; exact Hc)).
  apply andb_true_iff in H as [H1 H2]. apply String.eqb_eq in H1. now split.
Qed.

(** *** The sequence of message-IDs *)

Lemma next_mid_range (m : Z) :
  0 <= m <= 65535 -> 1 <= Spec.next_mid m <= 65535.
Proof.
  unfold Spec.next_mid. intros H.
  destruct (Z.gtb_spec (m + 1) 65535); lia.
Qed.

Lemma mid_seq_length (n : nat) (m : Z) : length (Spec.mid_seq n m) = n.
Proof.
  revert m. induction n as [| n IH]; intros m; cbn; [| rewrite IH]; reflexivity.
Qed.

Lemma mid_seq_positive (n : nat) (m : Z) :
  1 <= m <= 65535 -> Forall (fun x => 1 <= x <= 65535) (Spec.mid_seq n m).
Proof.
  revert m. induction n as [| n IH]; intros m Hm; cbn [Spec.mid_seq].
  - constructor.
  - constructor; [exact Hm |]. apply IH, next_mid_range. lia.
Qed.

(** After the first wrap the counter cycles through 1 .. 65535. *)
Lemma mid_seq_lookup (n k : nat) (m : Z) :
  1 <= m <= 65535 -> (k < n)%nat ->
  Spec.mid_seq n m !! k = Some ((m - 1 + Z.of_nat k) mod 65535 + 1).
Proof.
  revert k m. induction n as [| n IH]; intros k m Hm Hk; [lia |].
  cbn [Spec.mid_seq]. destruct k as [| k].
  - cbn. f_equal. Z.div_mod_to_equations. lia.
  - cbn [lookup list_lookup]. rewrite IH by (try apply next_mid_range; lia).
    f_equal. unfold Spec.next_mid.
    destruct (Z.gtb_spec (m + 1) 65535); Z.div_mod_to_equations; lia.
Qed.

Lemma mid_seq_NoDup_positive (n : nat) (m : Z) :
  1 <= m <= 65535 -> Z.of_nat n <= 65535 -> NoDup (Spec.mid_seq n m).
Proof.
  intros Hm Hn. apply NoDup_alt. intros i j x Hi Hj.
  pose proof (lookup_lt_Some _ _ _ Hi) as Li.
  pose proof (lookup_lt_Some _ _ _ Hj) as Lj.
  rewrite mid_seq_length in Li, Lj.
  rewrite mid_seq_lookup in Hi, Hj by assumption.
  injection Hi as Hi. injection Hj as Hj. subst x.
  revert Hj. Z.div_mod_to_equations. lia.
Qed.

Lemma mid_seq_NoDup (n : nat) (m : Z) :
  0 <= m <= 65535 -> Z.of_nat n <= 65535 -> NoDup (Spec.mid_seq n m).
Proof.
  intros Hm Hn. destruct (Z.eq_dec m 0) as [-> | Hne].
  - destruct n as [| n]; cbn [Spec.mid_seq]; constructor.
    + intros Hin.
      pose proof (mid_seq_positive n (Spec.next_mid 0)
                    ltac:(apply next_mid_range; lia)) as Hp.
      rewrite Forall_forall in Hp. specialize (Hp 0 Hin). lia.
    + apply mid_seq_NoDup_positive; [apply next_mid_range; lia | lia].
  - apply mid_seq_NoDup_positive; lia.
Qed.


Lemma iter_next_mid (n : nat) (m : Z) :
  1 <= m <= 65535 ->
  Nat.iter n Spec.next_mid m = (m - 1 + Z.of_nat n) mod 65535 + 1.
Proof.
  intros Hm. induction n as [| n IH].
  - cbn. Z.div_mod_to_equations. lia.
  - cbn [Nat.iter nat_rect]. change (nat_rect _ _ _ n) with (Nat.iter n Spec.next_mid m).
    rewrite IH. unfold Spec.next_mid.
    destruct (Z.gtb_spec ((m - 1 + Z.of_nat n) mod 65535 + 1 + 1) 65535);
      Z.div_mod_to_equations; lia.
Qed.

Lemma constructor_messageId {V : Type} (random : QArith_base.Q) :
  QArith_base.Qle (QArith_base.inject_Z 0) random ->
  QArith_base.Qlt random (QArith_base.inject_Z 1) ->
  0 <= messageId (constructor (V:=V) random) <= 0xFFFE.
Proof.
  destruct random as [n d]. unfold constructor, messageId.
  unfold QArith_base.Qle, QArith_base.Qlt, Qround.Qfloor, QArith_base.Qmult,
    QArith_base.inject_Z. cbn [QArith_base.Qnum QArith_base.Qden].
  intros H0 H1. rewrite Pos.mul_1_r.
  assert (Hd : 0 < Z.pos d) by lia.
  split.
  - apply Z.div_pos; lia.
  - assert (n * 65535 / Z.pos d < 65535); [| lia].
    apply Z.div_lt_upper_bound; lia.
Qed.

(** *** Searching a buffer *)

Lemma indexOf_go_range (v : Z) (l : list Z) (i : Z) :
  0 <= i ->
  JS.indexOf_go v l i = -1
  \/ (i <= JS.indexOf_go v l i < i + Z.of_nat (length l)
      /\ l !! Z.to_nat (JS.indexOf_go v l i - i) = Some v).
Proof.
  revert i. induction l as [| x l IH]; intros i Hi; cbn [JS.indexOf_go].
  - now left.
  - destruct (Z.eqb_spec x v) as [-> | Hne].
    + right. rewrite Z.sub_diag. cbn [length]. split; [lia | reflexivity].
    + destruct (IH (i + 1) ltac:(lia)) as [E | [Hr Hl]]; [now left | right].
      cbn [length]. split; [lia |].
      replace (Z.to_nat (JS.indexOf_go v l (i + 1) - i))
        with (S (Z.to_nat (JS.indexOf_go v l (i + 1) - (i + 1)))) by lia.
      exact Hl.
Qed.

Lemma indexOf_go_app_found (v : Z) (l d : list Z) (i : Z) :
  0 <= i -> JS.indexOf_go v l i <> -1 ->
  JS.indexOf_go v (l ++ d) i = JS.indexOf_go v l i.
Proof.
  revert i. induction l as [| x l IH]; intros i Hi; cbn [JS.indexOf_go app].
  - congruence.
  - destruct (x =? v); [reflexivity |]. apply IH. lia.
Qed.

Lemma indexOf_go_app_absent (v : Z) (l d : list Z) (i : Z) :
  0 <= i -> JS.indexOf_go v l i = -1 ->
  JS.indexOf_go v (l ++ d) i = JS.indexOf_go v d (i + Z.of_nat (length l)).
Proof.
  revert i. induction l as [| x l IH]; intros i Hi;
    cbn [JS.indexOf_go app length].
  - intros _. f_equal. lia.
  - destruct (x =? v); [lia |]. intros H. rewrite IH by (lia || exact H).
    f_equal. lia.
Qed.

Lemma indexOf_go_shift (v : Z) (l : list Z) (i k : Z) :
  0 <= i -> 0 <= i + k ->
  JS.indexOf_go v l (i + k)
  = if JS.indexOf_go v l i =? -1 then -1 else JS.indexOf_go v l i + k.
Proof.
  revert i. induction l as [| x l IH]; intros i Hi Hk; cbn [JS.indexOf_go].
  - reflexivity.
  - destruct (x =? v).
    + destruct (Z.eqb_spec i (-1)); [lia | reflexivity].
    + replace (i + k + 1) with (i + 1 + k) by lia. apply IH; lia.
Qed.

Lemma indexOf_range (buf : list Z) (v from : Z) :
  0 <= from ->
  JS.indexOf buf v from = -1
  \/ (from <= JS.indexOf buf v from < Z.of_nat (length buf)
      /\ buf !! Z.to_nat (JS.indexOf buf v from) = Some v).
Proof.
  intros Hf. unfold JS.indexOf.
  destruct (indexOf_go_range v (drop (Z.to_nat from) buf) from Hf)
    as [E | [Hr Hl]]; [now left | right].
  rewrite lookup_drop in Hl. rewrite length_drop in Hr.
  replace (Z.to_nat from + Z.to_nat (JS.indexOf_go v (drop (Z.to_nat from) buf) from - from))%nat
    with (Z.to_nat (JS.indexOf_go v (drop (Z.to_nat from) buf) from)) in Hl by lia.
  split; [lia | exact Hl].
Qed.

Lemma indexOf_app_found (buf d : list Z) (v from : Z) :
  0 <= from <= Z.of_nat (length buf) ->
  JS.indexOf buf v from <> -1 ->
  JS.indexOf (buf ++ d) v from = JS.indexOf buf v from.
Proof.
  intros Hf Hne. unfold JS.indexOf in *.
  rewrite drop_app_le by lia. apply indexOf_go_app_found; [lia | exact Hne].
Qed.

Lemma at_is_app (buf d : list Z) (i v : Z) :
  i < Z.of_nat (length buf) -> JS.at_is (buf ++ d) i v = JS.at_is buf i v.
Proof.
  intros Hi. unfold JS.at_is, JS.at_.
  destruct (Z.ltb_spec i 0); [reflexivity |].
  now rewrite lookup_app_l by lia.
Qed.

(** *** One round of the reassembler *)

Lemma resync_cases (buf : list Z) :
  match Spec.resync buf with
  | None => JS.indexOf buf SOF 0 = -1
  | Some t =>
      exists rest, t = SOF :: rest
      /\ 0 <= JS.indexOf buf SOF 0
      /\ t = drop (Z.to_nat (JS.indexOf buf SOF 0)) buf
  end.
Proof.
  unfold Spec.resync. destruct (indexOf_range buf SOF 0 ltac:(lia)) as [E | [Hr Hl]].
  - rewrite E. reflexivity.
  - destruct (Z.eqb_spec (JS.indexOf buf SOF 0) (-1)) as [E | _]; [lia |].
    apply list_elem_of_split_length in Hl as (l1 & l2 & Hbuf & Hlen).
    exists l2. split; [| split; [lia | reflexivity]].
    rewrite Hbuf at 2. rewrite Hlen. now rewrite drop_app_length.
Qed.

Lemma resync_head (rest : list Z) :
  Spec.resync (SOF :: rest) = Some (SOF :: rest).
Proof. reflexivity. Qed.

Lemma resync_app_some (buf d t : list Z) :
  Spec.resync buf = Some t -> Spec.resync (buf ++ d) = Some (t ++ d).
Proof.
  intros H. pose proof (resync_cases buf) as Hc. rewrite H in Hc.
  destruct Hc as (rest & _ & H0 & Ht).
  destruct (indexOf_range buf SOF 0 ltac:(lia)) as [E | [Hr _]]; [lia |].
  unfold Spec.resync.
  rewrite indexOf_app_found by lia.
  destruct (Z.eqb_spec (JS.indexOf buf SOF 0) (-1)) as [E | _]; [lia |].
  rewrite drop_app_le by lia. now rewrite <- Ht.
Qed.

Lemma resync_app_none (buf d : list Z) :
  Spec.resync buf = None -> Spec.resync (buf ++ d) = Spec.resync d.
Proof.
  intros H. pose proof (resync_cases buf) as Hc. rewrite H in Hc.
  unfold Spec.resync, JS.indexOf in *. change (Z.to_nat 0) with 0%nat in *.
  rewrite !drop_0 in *.
  rewrite indexOf_go_app_absent by (lia || exact Hc).
  rewrite (indexOf_go_shift SOF d 0 (Z.of_nat (length buf))) by lia.
  destruct (Z.eqb_spec (JS.indexOf_go SOF d 0) (-1)) as [E | Hne];
    [reflexivity |].
  destruct (indexOf_go_range SOF d 0 ltac:(lia)) as [E | [Hr _]]; [lia |].
  destruct (Z.eqb_spec (JS.indexOf_go SOF d 0 + Z.of_nat (length buf)) (-1));
    [lia |].
  f_equal.
  replace (Z.to_nat (JS.indexOf_go SOF d 0 + Z.of_nat (length buf)))
    with (length buf + Z.to_nat (JS.indexOf_go SOF d 0))%nat by lia.
  apply drop_app_add.
Qed.

Lemma frame_split_cases (buf frame rest : list Z) :
  Spec.frame_split buf = Some (frame, rest) ->
  exists frameEnd,
    7 <= frameEnd <= Z.of_nat (length buf)
    /\ frame = take (Z.to_nat frameEnd) buf
    /\ rest = drop (Z.to_nat frameEnd) buf.
Proof.
  unfold Spec.frame_split.
  destruct (Z.ltb_spec (Z.of_nat (length buf)) 8); [discriminate |].
  destruct (indexOf_range buf EOF 2 ltac:(lia)) as [E | [Hr _]].
  { rewrite E. discriminate. }
  destruct (Z.eqb_spec (JS.indexOf buf EOF 2) (-1)); [lia |].
  set (frameEnd := (if JS.at_is buf _ EOF then _ else _) + 4).
  assert (7 <= frameEnd) by (unfold frameEnd; destruct (JS.at_is buf _ EOF); lia).
  destruct (Z.ltb_spec (Z.of_nat (length buf)) frameEnd); [discriminate |].
  intros [= <- <-]. exists frameEnd. split; [lia |].
  split; reflexivity.
Qed.

Lemma frame_split_app (buf d frame rest : list Z) :
  Spec.frame_split buf = Some (frame, rest) ->
  Spec.frame_split (buf ++ d) = Some (frame, rest ++ d).
Proof.
  unfold Spec.frame_split. rewrite length_app.
  destruct (Z.ltb_spec (Z.of_nat (length buf)) 8); [discriminate |].
  destruct (Z.ltb_spec (Z.of_nat (length buf + length d)) 8); [lia |].
  destruct (indexOf_range buf EOF 2 ltac:(lia)) as [E | [Hr _]].
  { rewrite E. discriminate. }
  rewrite indexOf_app_found by lia.
  destruct (Z.eqb_spec (JS.indexOf buf EOF 2) (-1)); [lia |].
  set (e := JS.indexOf buf EOF 2) in *.
  destruct (Z.lt_ge_cases (e + 1) (Z.of_nat (length buf))) as [Hin | Hout].
  - rewrite at_is_app by lia.
    set (frameEnd := (if JS.at_is buf _ EOF then _ else _) + 4).
    assert (7 <= frameEnd)
      by (unfold frameEnd; destruct (JS.at_is buf _ EOF); lia).
    destruct (Z.ltb_spec (Z.of_nat (length buf)) frameEnd); [discriminate |].
    destruct (Z.ltb_spec (Z.of_nat (length buf + length d)) frameEnd); [lia |].
    intros [= <- <-]. unfold JS.slice. cbn [Z.to_nat drop].
    rewrite take_app_le by lia. rewrite drop_app_le by lia. reflexivity.
  - destruct (JS.at_is buf (e + 1) EOF);
      match goal with
      | |- context [Z.of_nat (length buf) <? ?x] =>
          destruct (Z.ltb_spec (Z.of_nat (length buf)) x)
      end; (discriminate || lia).
Qed.

(** *** CoAP options *)

Lemma bor_shl_4 (d l : Z) :
  0 <= d < 16 -> 0 <= l < 16 -> JS.bor (JS.shl d 4) l = d * 16 + l.
Proof.
  intros Hd Hl. unfold JS.bor, JS.shl.
  rewrite (ToInt32_id d) by lia. rewrite Z.shiftl_mul_pow2 by lia.
  change (2 ^ 4) with 16. rewrite !(ToInt32_id (d * 16)) by lia.
  rewrite (ToInt32_id l) by lia.
  assert (Hland : Z.land (d * 16) l = 0).
  { apply Z.bits_inj'. intros n Hn. rewrite Z.land_spec, Z.bits_0.
    destruct (Z.lt_ge_cases n 4) as [Hlt | Hge].
    - change 16 with (2 ^ 4). rewrite Z.mul_pow2_bits_low by lia. reflexivity.
    - assert (Z.testbit l n = false) as ->.
      { destruct (Z.eq_dec l 0) as [-> | Hne]; [apply Z.bits_0 |].
        apply Z.bits_above_log2; [lia |].
        assert (Z.log2 l < 4) by (apply Z.log2_lt_pow2; lia). lia. }
      apply andb_false_r. }
  rewrite Z.add_nocarry_lxor by exact Hland.
  now rewrite Z.lxor_lor by exact Hland.
Qed.

Lemma band_FF (x : Z) : JS.band x 0xFF = JS.ToInt32 x mod 256.
Proof.
  unfold JS.band. rewrite (ToInt32_id 255) by lia.
  change 255 with (Z.ones 8). now rewrite Z.land_ones by lia.
Qed.

Lemma shr_8 (x : Z) : JS.shr x 8 = JS.ToInt32 x / 256.
Proof. unfold JS.shr. now rewrite Z.shiftr_div_pow2 by lia. Qed.

Lemma encodeOptionHeader_small (delta len : Z) :
  0 <= delta < 13 -> 0 <= len < 65805 ->
  encodeOptionHeader delta len =
    if len <? 13 then [delta * 16 + len]
    else if len <? 269 then [delta * 16 + 13; len - 13]
    else [delta * 16 + 14; (len - 269) / 256; (len - 269) mod 256].
Proof.
  intros Hd Hl. unfold encodeOptionHeader.
  destruct (Z.ltb_spec delta 13); [| lia].
  destruct (Z.leb_spec 13 delta); [lia |]. cbn [andb].
  destruct (Z.leb_spec 269 delta); [lia |].
  destruct (Z.ltb_spec len 13).
  - destruct (Z.leb_spec 13 len); [lia |]. cbn [andb].
    destruct (Z.leb_spec 269 len); [lia |].
    rewrite bor_shl_4 by lia. reflexivity.
  - destruct (Z.leb_spec 13 len); [| lia]. cbn [andb].
    destruct (Z.ltb_spec len 269).
    + rewrite bor_shl_4 by lia. reflexivity.
    + destruct (Z.leb_spec 269 len); [| lia].
      rewrite bor_shl_4 by lia. rewrite !band_FF, shr_8.
      rewrite (ToInt32_id (len - 269)) by lia.
      rewrite ToInt32_id by (Z.div_mod_to_equations; lia).
      cbn [app]. f_equal. f_equal.
      apply Z.mod_small. Z.div_mod_to_equations. lia.
Qed.

Lemma decode_options_step (fuel : nat) (prev number : Z)
    (value rest : list Z) :
  0 <= number - prev < 13 ->
  Z.of_nat (length value) < 65805 ->
  Spec.decode_options (S fuel) prev
    (encodeOptionHeader (number - prev) (Z.of_nat (length value))
     ++ value ++ rest)
  = match Spec.decode_options fuel number rest with
    | Some (opts, tail) => Some ((number, value) :: opts, tail)
    | None => None
    end.
Proof.
  intros Hd Hl. rewrite encodeOptionHeader_small by lia.
  set (delta := number - prev) in *. set (len := Z.of_nat (length value)) in *.
  assert (Hnum : prev + delta = number) by (unfold delta; lia).
  assert (Htake : take (Z.to_nat len) (value ++ rest) = value)
    by (unfold len; rewrite Nat2Z.id; apply take_app_length).
  assert (Hdrop : drop (Z.to_nat len) (value ++ rest) = rest)
    by (unfold len; rewrite Nat2Z.id; apply drop_app_length).
  assert (Hlen : (Z.of_nat (length (value ++ rest)) <? len) = false).
  { apply Z.ltb_ge. rewrite length_app. unfold len. lia. }
  destruct (Z.ltb_spec len 13); [| destruct (Z.ltb_spec len 269)];
    cbn [app Spec.decode_options].
  - destruct (Z.eqb_spec (delta * 16 + len) 255); [lia |].
    replace ((delta * 16 + len) / 16) with delta
      by (Z.div_mod_to_equations; lia).
    replace ((delta * 16 + len) mod 16) with len
      by (Z.div_mod_to_equations; lia).
    unfold Spec.ext_value.
    destruct (Z.ltb_spec delta 13); [| lia].
    destruct (Z.ltb_spec len 13); [| lia].
    rewrite Hlen, Htake, Hdrop, Hnum. reflexivity.
  - destruct (Z.eqb_spec (delta * 16 + 13) 255); [lia |].
    replace ((delta * 16 + 13) / 16) with delta
      by (Z.div_mod_to_equations; lia).
    replace ((delta * 16 + 13) mod 16) with 13
      by (Z.div_mod_to_equations; lia).
    unfold Spec.ext_value.
    destruct (Z.ltb_spec delta 13); [| lia]. cbn.
    replace (len - 13 + 13) with len by lia.
    rewrite Hlen, Htake, Hdrop, Hnum. reflexivity.
  - destruct (Z.eqb_spec (delta * 16 + 14) 255); [lia |].
    replace ((delta * 16 + 14) / 16) with delta
      by (Z.div_mod_to_equations; lia).
    replace ((delta * 16 + 14) mod 16) with 14
      by (Z.div_mod_to_equations; lia).
    unfold Spec.ext_value.
    destruct (Z.ltb_spec delta 13); [| lia]. cbn.
    replace ((len - 269) / 256 * 256 + (len - 269) mod 256 + 269) with len
      by (Z.div_mod_to_equations; lia).
    rewrite Hlen, Htake, Hdrop, Hnum. reflexivity.
Qed.

Lemma encodeOptionHeader_length (delta len : Z) :
  (1 <= length (encodeOptionHeader delta len))%nat.
Proof.
  unfold encodeOptionHeader.
  repeat match goal with |- context [if ?b then _ else _] => destruct b end;
    cbn; lia.
Qed.

Lemma decode_serialize (opts : list (Z * list Z)) (prev : Z) (fuel : nat)
    (tail : list Z) :
  Spec.opts_ok prev opts ->
  tail = [] \/ (exists t, tail = 0xFF :: t) ->
  (length (Spec.serialize prev opts ++ tail) < fuel)%nat ->
  Spec.decode_options fuel prev (Spec.serialize prev opts ++ tail)
  = Some (opts, tail).
Proof.
  revert prev fuel. induction opts as [| [number value] opts IH];
    intros prev fuel Hok Htail Hfuel.
  - cbn [Spec.serialize app] in *. destruct fuel as [| fuel]; [lia |].
    destruct Htail as [-> | [t ->]]; reflexivity.
  - cbn [Spec.serialize Spec.opts_ok] in *.
    destruct Hok as (Hd & Hl & _ & Hok).
    destruct fuel as [| fuel]; [lia |].
    rewrite <- !app_assoc. rewrite decode_options_step by assumption.
    rewrite IH; [reflexivity | exact Hok | exact Htail |].
    pose proof (encodeOptionHeader_length (number - prev)
                  (Z.of_nat (length value))).
    rewrite <- !app_assoc, !length_app in Hfuel. rewrite length_app. lia.
Qed.

Lemma last_number_cons (prev number : Z) (value : list Z)
    (a : list (Z * list Z)) :
  Spec.last_number prev ((number, value) :: a) = Spec.last_number number a.
Proof.
  unfold Spec.last_number. destruct a as [| x a]; [reflexivity |].
  rewrite last_cons_cons. destruct (last (x :: a)) as [y |] eqn:E;
    [reflexivity |]. apply last_None in E. discriminate.
Qed.

Lemma serialize_app (prev : Z) (a b : list (Z * list Z)) :
  Spec.serialize prev (a ++ b)
  = Spec.serialize prev a ++ Spec.serialize (Spec.last_number prev a) b.
Proof.
  revert prev. induction a as [| [number value] a IH]; intros prev.
  - reflexivity.
  - cbn [app Spec.serialize]. rewrite IH, <- !app_assoc.
    now rewrite last_number_cons.
Qed.

Lemma opts_ok_app (prev : Z) (a b : list (Z * list Z)) :
  Spec.opts_ok prev a -> Spec.opts_ok (Spec.last_number prev a) b ->
  Spec.opts_ok prev (a ++ b).
Proof.
  revert prev. induction a as [| [number value] a IH]; intros prev Ha Hb.
  - exact Hb.
  - cbn [app Spec.opts_ok] in *. destruct Ha as (H1 & H2 & H3 & Ha).
    split; [exact H1 |]. split; [exact H2 |]. split; [exact H3 |].
    apply IH; [exact Ha |]. now rewrite last_number_cons in Hb.
Qed.

Lemma charCodes_length (s : string) :
  length (JS.charCodes s) = String.length s.
Proof. induction s as [| c s IH]; cbn; [| rewrite IH]; reflexivity. Qed.

(** The loop of [encodeOptions] writes the options of one number. *)
Lemma option_loop_serialize (number : Z) (values : list string) (prev : Z) :
  option_loop number values prev
  = (Spec.serialize prev (map (fun s => (number, JS.charCodes s)) values),
     Spec.last_number prev (map (fun s => (number, JS.charCodes s)) values)).
Proof.
  revert prev. induction values as [| v values IH]; intros prev.
  - reflexivity.
  - cbn [option_loop map Spec.serialize]. rewrite IH, charCodes_length.
    now rewrite last_number_cons.
Qed.

Lemma opts_ok_same (number : Z) (values : list string) (prev : Z) :
  0 <= number - prev < 13 ->
  Forall (fun s => Z.of_nat (String.length s) < 65805) values ->
  Spec.opts_ok prev (map (fun s => (number, JS.charCodes s)) values).
Proof.
  intros Hd Hv. revert prev Hd. induction Hv as [| v values Hlen _ IH];
    intros prev Hd; cbn [map Spec.opts_ok]; [exact I |].
  rewrite charCodes_length. split; [exact Hd |]. split; [exact Hlen |].
  split; [apply charCodes_bytes |]. apply IH. lia.
Qed.

Lemma last_number_same (number prev : Z) (values : list string) :
  Spec.last_number prev (map (fun s => (number, JS.charCodes s)) values)
  = if decide (values = []) then prev else number.
Proof.
  revert prev. induction values as [| v values IH]; intros prev;
    [reflexivity |].
  cbn [map]. rewrite last_number_cons, IH.
  destruct (decide (values = [])); reflexivity.
Qed.

Lemma encodeOptions_serialize (uri : string) :
  encodeOptions uri = Spec.serialize 0 (Spec.option_list uri).
Proof.
  unfold encodeOptions, Spec.option_list.
  rewrite !option_loop_serialize.
  rewrite serialize_app. f_equal.
  rewrite (serialize_app _ [_]). cbn [Spec.serialize app length].
  rewrite <- !app_assoc. cbn [app]. reflexivity.
Qed.

Lemma option_list_ok (uri : string) :
  Spec.uri_ok uri -> Spec.opts_ok 0 (Spec.option_list uri).
Proof.
  unfold Spec.uri_ok, Spec.option_list. intros H.
  apply Forall_app in H as [Hs Hq].
  apply opts_ok_app; [apply opts_ok_same; [lia | exact Hs] |].
  rewrite last_number_same.
  apply (opts_ok_app _ [_]).
  - cbn [Spec.opts_ok length].
    assert (Forall Spec.is_byte [1; 4])
      by (repeat constructor; unfold Spec.is_byte; lia).
    destruct (decide (uri_segments uri = []));
      (split; [lia |]); (split; [lia |]); (split; [assumption | exact I]).
  - apply opts_ok_same; [unfold Spec.last_number; cbn; lia | exact Hq].
Qed.

Lemma option_list_content_format (uri : string) :
  List.filter (fun o => fst o =? 12) (Spec.option_list uri) = [(12, [0x01; 0x04])].
Proof.
  unfold Spec.option_list. rewrite !List.filter_app.
  assert (H : forall n l, n <> 12 ->
             List.filter (fun o : Z * list Z => fst o =? 12)
               (map (fun s => (n, JS.charCodes s)) l) = []).
  { intros n l Hn. induction l as [| s l IH]; [reflexivity |].
    cbn [map List.filter fst]. destruct (Z.eqb_spec n 12); [lia | exact IH]. }
  rewrite !H by lia. reflexivity.
Qed.

Lemma serialize_bytes (opts : list (Z * list Z)) (prev : Z) :
  Spec.opts_ok prev opts -> Forall Spec.is_byte (Spec.serialize prev opts).
Proof.
  revert prev. induction opts as [| [number value] opts IH]; intros prev Hok;
    cbn [Spec.serialize Spec.opts_ok] in *; [constructor |].
  destruct Hok as (Hd & Hl & Hv & Hok).
  apply Forall_app. split; [| apply Forall_app; split; [exact Hv | now apply IH]].
  rewrite encodeOptionHeader_small by lia. unfold Spec.is_byte.
  repeat match goal with |- context [if ?a <? ?b then _ else _] =>
           destruct (Z.ltb_spec a b) end;
    repeat constructor; Z.div_mod_to_equations; lia.
Qed.

Section ClientProperties.

Context {V : Type}.
Variable cborEncode : V -> list Z.
Variable cborDecode : list Z -> option V.

Lemma parseResponse_inr (data : list Z) (r : Response (V:=V)) :
  parseResponse cborDecode data = inr r ->
  4 <= Z.of_nat (length data)
  /\ code r = default 0 (JS.at_ data 1)
  /\ codeClass r = code r / 32
  /\ codeName r = codeName_of (code r).
Proof.
  unfold parseResponse.
  destruct (Z.ltb_spec (Z.of_nat (length data)) 4) as [Hlt | Hge];
    [discriminate |].
  intros [= <-]. cbn. auto.
Qed.

(** C9 (amended).  For every parsed response, [codeClass] is [code >> 5];
    [codeName] is the entry of the response-code table when the code has
    one, a "C.DD Description" string such as "2.05 Content" for code 69 or
    "4.04 Not Found" for code 132, and the bare "C.DD" string otherwise; in
    both cases it begins with the "C.DD" of the code. *)
Theorem parseResponse_code_name (data : list Z) (r : Response (V:=V)) :
  Forall Spec.is_byte data ->
  parseResponse cborDecode data = inr r ->
  JS.at_ data 1 = Some (code r)
  /\ codeClass r = JS.shr (code r) 5
  /\ codeName r = default (Spec.cdd (code r)) (RESPONSE_CODES !! code r)
  /\ String.prefix (Spec.cdd (code r)) (codeName r) = true
  /\ default (Spec.cdd 69) (RESPONSE_CODES !! 69) = "2.05 Content"%string
  /\ default (Spec.cdd 132) (RESPONSE_CODES !! 132) = "4.04 Not Found"%string
  /\ default (Spec.cdd 70) (RESPONSE_CODES !! 70) = "2.06"%string.
Proof.
  intros Hb Hp. apply parseResponse_inr in Hp as (Hlen & Hcode & Hclass & Hname).
  assert (Hat : JS.at_ data 1 = Some (code r)).
  { rewrite Hcode. change 1 with (Z.of_nat 1). rewrite at_lookup.
    destruct (data !! 1%nat) as [b |] eqn:E; [reflexivity |].
    apply lookup_ge_None in E. lia. }
  pose proof (at_byte _ _ _ Hb Hat) as Hc.
  destruct (codeName_of_byte _ Hc) as [Hn1 Hn2].
  split; [exact Hat |]. split.
  { rewrite Hclass. unfold JS.shr. unfold Spec.is_byte in Hc.
    rewrite ToInt32_id by lia. now rewrite Z.shiftr_div_pow2 by lia. }
  rewrite Hname. split; [exact Hn1 |]. split; [exact Hn2 |].
  split; [| split]; vm_compute; reflexivity.
Qed.


(** *** Responses *)

Lemma parseResponse_console_spec (data : list Z) (r : Response (V:=V)) :
  parseResponse cborDecode data = inr r ->
  parseResponse_console cborDecode data = Spec.decode_warning r.
Proof.
  unfold parseResponse, parseResponse_console, Spec.decode_warning.
  destruct (Z.ltb_spec (Z.of_nat (length data)) 4) as [Hlt | Hge];
    [discriminate |].
  intros [= <-]. cbn [payload].
  destruct (_ <? _); [| reflexivity].
  now destruct (cborDecode _).
Qed.

Lemma handleCoapResponse_inr (data : list Z) (r : Response (V:=V))
    (c : Client (V:=V)) :
  parseResponse cborDecode data = inr r ->
  handleCoapResponse cborDecode data c
  = let c0 := logs (Spec.decode_warning r) c in
    match pendingRequests c !! r_messageId r with
    | Some pending =>
        let c2 :=
          log (LogResponse (codeName r) (r_messageId r))
            (mkClient (messageId c) (delete (r_messageId r) (pendingRequests c))
               (receiveBuffer c) (delete (timeout pending) (timers c))
               (nextHandle c) (written c) (settled c) (console c0)) in
        if codeClass r =? 2
        then settle (waiter pending) (Resolved (payload r)) c2
        else settle (waiter pending)
               (Rejected (CoapError (codeName r) (code r) (payload r))) c2
    | None => log (WarnUnknownMessageId (r_messageId r)) c0
    end.
Proof.
  intros Hp. unfold handleCoapResponse.
  rewrite Hp, (parseResponse_console_spec data r Hp). reflexivity.
Qed.

(** C8.  [handleCoapResponse] on a parsed response: when its message-ID
    is not in [pendingRequests] a warning is logged and nothing else
    changes; when it is, that entry's timer is cancelled, the entry is
    removed (the others are untouched) and its waiter, no other, is settled
    once: resolved with the payload when [codeClass] is 2, rejected
    otherwise with an error that carries the code name, the code and the
    payload.  In both cases the console first gets the warning of
    [parseResponse] when the payload was not valid CBOR (the payload is
    then the raw bytes).  So the response to the message-ID of a request
    just sent settles the promise that request returned. *)
Theorem handleCoapResponse_settles (data : list Z) (r : Response (V:=V))
    (c : Client (V:=V)) :
  parseResponse cborDecode data = inr r ->
  let c' := handleCoapResponse cborDecode data c in
  let outcome :=
    if codeClass r =? 2 then Resolved (payload r)
    else Rejected (CoapError (codeName r) (code r) (payload r)) in
  let warning :=
    match payload r with
    | Bytes _ => [WarnCborDecodeFailed]
    | _ => []
    end in
  parseResponse_console cborDecode data = warning
  /\ match pendingRequests c !! r_messageId r with
     | None =>
         c' = log (WarnUnknownMessageId (r_messageId r)) (logs warning c)
         /\ console c' =
              console c ++ warning ++ [WarnUnknownMessageId (r_messageId r)]
         /\ pendingRequests c' = pendingRequests c
         /\ timers c' = timers c
         /\ settled c' = settled c
     | Some p =>
         pendingRequests c' = delete (r_messageId r) (pendingRequests c)
         /\ pendingRequests c' !! r_messageId r = None
         /\ (forall m, m <> r_messageId r ->
               pendingRequests c' !! m = pendingRequests c !! m)
         /\ timers c' = delete (timeout p) (timers c)
         /\ settled c' = settled c ++ [(waiter p, outcome)]
         /\ console c' =
              console c ++ warning
              ++ [LogResponse (codeName r) (r_messageId r)]
     end
  /\ forall method uri pl t c0 h,
       request cborEncode method uri pl t c0 = (inr h, c) ->
       r_messageId r = messageId c0 ->
       settled c' = settled c0 ++ [(h, outcome)]
       /\ pendingRequests c' = delete (messageId c0) (pendingRequests c0)
       /\ timers c' !! h = None.
Proof.
  intros Hp. cbv zeta.
  pose proof (parseResponse_console_spec data r Hp) as Hw.
  unfold Spec.decode_warning in Hw.
  split; [exact Hw |].
  rewrite (handleCoapResponse_inr data r c Hp). cbv zeta.
  unfold Spec.decode_warning. split.
  - destruct (pendingRequests c !! r_messageId r) as [p |] eqn:E.
    + destruct (codeClass r =? 2);
        cbn [settle log logs pendingRequests timers settled console];
        (split; [reflexivity |]); (split; [apply lookup_delete_eq |]);
        (split; [intros m Hm; now apply lookup_delete_ne |]);
        (split; [reflexivity |]); (split; [reflexivity |]);
        now rewrite <- app_assoc.
    + cbn [log logs pendingRequests timers settled console].
      split; [reflexivity |]. split; [now rewrite <- app_assoc |]. auto.
  - intros method uri pl t c0 h Hreq Hmid. unfold request in Hreq.
    destruct (METHODS (JS.toUpperCase method)) as [methodCode |];
      [| discriminate].
    injection Hreq as <- <-. cbn [pendingRequests]. rewrite Hmid.
    rewrite lookup_insert_eq.
    destruct (codeClass r =? 2);
      cbn [settle log logs pendingRequests timers settled console waiter
            timeout];
      (split; [reflexivity |]);
      (split; [now rewrite delete_insert_eq | apply lookup_delete_eq]).
Qed.

(** *** The message-ID counter *)

Lemma request_mids_app (a b : list LogEntry) :
  request_mids (a ++ b) = request_mids a ++ request_mids b.
Proof.
  induction a as [| e a IH]; [reflexivity |].
  destruct e; cbn [request_mids app]; rewrite ?IH; reflexivity.
Qed.

Lemma same_counter_refl (c : Client (V:=V)) : Spec.same_counter c c.
Proof. split; reflexivity. Qed.

Lemma same_counter_trans (c1 c2 c3 : Client (V:=V)) :
  Spec.same_counter c1 c2 -> Spec.same_counter c2 c3 -> Spec.same_counter c1 c3.
Proof. intros [H1 H2] [H3 H4]. split; congruence. Qed.

Lemma same_counter_log (e : LogEntry) (c : Client (V:=V)) :
  (forall m u i, e <> LogRequest m u i) -> Spec.same_counter c (log e c).
Proof.
  intros He. split; [reflexivity |]. cbn. rewrite request_mids_app.
  destruct e; cbn; rewrite ?app_nil_r; try reflexivity.
  exfalso. eapply He. reflexivity.
Qed.

Lemma request_mids_decode_warning (r : Response (V:=V)) :
  request_mids (Spec.decode_warning r) = [].
Proof. unfold Spec.decode_warning. now destruct (payload r). Qed.

Lemma same_counter_handleCoapResponse (data : list Z) (c : Client (V:=V)) :
  Spec.same_counter c (handleCoapResponse cborDecode data c).
Proof.
  destruct (parseResponse cborDecode data) as [e | r] eqn:Hp.
  - unfold handleCoapResponse. rewrite Hp.
    apply same_counter_log. discriminate.
  - rewrite (handleCoapResponse_inr data r c Hp). cbv zeta.
    destruct (pendingRequests c !! r_messageId r) as [p |].
    + destruct (codeClass r =? 2); (split; [reflexivity |]);
        cbn [settle log logs console];
        rewrite !request_mids_app, request_mids_decode_warning;
        cbn; now rewrite !app_nil_r.
    + split; [reflexivity |]. cbn [log logs console].
      rewrite !request_mids_app, request_mids_decode_warning.
      cbn. now rewrite !app_nil_r.
Qed.

Lemma same_counter_dispatch (frameData : list Z) (c : Client (V:=V)) :
  Spec.same_counter c (dispatch cborDecode frameData c).
Proof.
  unfold dispatch. destruct (decodeFrame frameData) as [e | d].
  - apply same_counter_log. discriminate.
  - set (c1 := if valid_ d then c else _).
    assert (H1 : Spec.same_counter c c1).
    { unfold c1. destruct (valid_ d); [apply same_counter_refl |].
      apply same_counter_log. discriminate. }
    eapply same_counter_trans; [exact H1 |].
    repeat match goal with |- context [if ?b then _ else _] => destruct b end.
    + apply same_counter_handleCoapResponse.
    + apply same_counter_log. discriminate.
    + apply same_counter_log. discriminate.
    + apply same_counter_refl.
Qed.

Lemma same_counter_round (c : Client (V:=V)) :
  match handleData_round cborDecode c with
  | Break c' | Continue c' => Spec.same_counter c c'
  end.
Proof.
  unfold handleData_round.
  repeat match goal with
         | |- context [if ?b then _ else _] => destruct b
         end;
    try apply same_counter_refl;
    try (eapply same_counter_trans; [| apply same_counter_dispatch]);
    split; reflexivity.
Qed.

Lemma same_counter_loop (fuel : nat) (c : Client (V:=V)) :
  Spec.same_counter c (handleData_loop cborDecode fuel c).
Proof.
  revert c. induction fuel as [| f IH]; intros c; cbn [handleData_loop].
  - apply same_counter_refl.
  - pose proof (same_counter_round c) as H.
    destruct (handleData_round cborDecode c) as [c' | c']; [exact H |].
    eapply same_counter_trans; [exact H | apply IH].
Qed.

Lemma same_counter_handleData (data : list Z) (c : Client (V:=V)) :
  Spec.same_counter c (handleData cborDecode data c).
Proof.
  unfold handleData.
  eapply same_counter_trans; [| apply same_counter_loop].
  split; reflexivity.
Qed.

Lemma same_counter_fireTimeout (h : nat) (c : Client (V:=V)) :
  Spec.same_counter c (fireTimeout h c).
Proof.
  unfold fireTimeout. destruct (timers c !! h) as [t |];
    [| apply same_counter_refl].
  destruct (pendingRequests c !! t_mid t); split; reflexivity.
Qed.

(** One [request]: the counter moves to [next_mid], and the message-ID
    used, the old counter, is logged when the request is sent. *)
Lemma request_counter (method uri : string) (pl : Payload) (t : Z)
    (c : Client (V:=V)) :
  let c' := snd (request cborEncode method uri pl t c) in
  messageId c' = Spec.next_mid (messageId c)
  /\ (request_mids (console c') = request_mids (console c) ++ [messageId c]
      \/ request_mids (console c') = request_mids (console c)).
Proof.
  cbv zeta. unfold request.
  destruct (METHODS (JS.toUpperCase method)); cbn; (split; [reflexivity |]).
  - left. rewrite request_mids_app. reflexivity.
  - right. reflexivity.
Qed.

Lemma run_mids (ops : list Op) (c : Client (V:=V)) :
  exists mids,
    request_mids (console (run cborEncode cborDecode ops c))
    = request_mids (console c) ++ mids
    /\ mids `sublist_of` Spec.mid_seq (Spec.count_requests ops) (messageId c).
Proof.
  revert c. induction ops as [| op ops IH]; intros c.
  - exists []. cbn. rewrite app_nil_r. split; [reflexivity | constructor].
  - unfold run in *. cbn [foldl].
    destruct op as [m u p t | d | h]; cbn [exec].
    + pose proof (request_counter m u p t c) as [Hm Hc]. cbv zeta in Hm, Hc.
      destruct (IH (snd (request cborEncode m u p t c))) as (mids & E & Hs).
      rewrite Hm in Hs.
      unfold Spec.count_requests. cbn [List.filter Spec.is_request length].
      cbn [Spec.mid_seq]. destruct Hc as [Hc | Hc]; rewrite Hc in E.
      * exists (messageId c :: mids). split.
        -- rewrite E, <- app_assoc. reflexivity.
        -- now apply sublist_skip.
      * exists mids. split; [exact E |]. now apply sublist_cons.
    + pose proof (same_counter_handleData d c) as [Hm Hc].
      destruct (IH (handleData cborDecode d c)) as (mids & E & Hs).
      exists mids. rewrite Hm in Hs. rewrite Hc in E. now split.
    + pose proof (same_counter_fireTimeout h c) as [Hm Hc].
      destruct (IH (fireTimeout h c)) as (mids & E & Hs).
      exists mids. rewrite Hm in Hs. rewrite Hc in E. now split.
Qed.

(** C7 (amended).  On one connection the counter starts at a random
    integer in 0 .. 0xFFFE, every [request] uses the current counter as
    its message-ID and moves the counter on by one, from 0xFFFF back to 1;
    across at most 65535 sequential requests (whatever data and timeouts
    come in between) the message-IDs sent are pairwise distinct.  There is
    no in-use check: the entry of the message-ID is written into
    [pendingRequests] whatever the map holds. *)
Theorem message_ids_distinct (ops : list Op) (c : Client (V:=V)) :
  0 <= messageId c <= 0xFFFF ->
  Z.of_nat (Spec.count_requests ops) <= 65535 ->
  (exists mids,
      request_mids (console (run cborEncode cborDecode ops c))
      = request_mids (console c) ++ mids
      /\ NoDup mids)
  /\ (forall random,
        QArith_base.Qle (QArith_base.inject_Z 0) random ->
        QArith_base.Qlt random (QArith_base.inject_Z 1) ->
        0 <= messageId (constructor (V:=V) random) <= 0xFFFE)
  /\ (forall method uri pl t (c1 : Client (V:=V)),
        let c2 := snd (request cborEncode method uri pl t c1) in
        messageId c2
        = (if messageId c1 + 1 >? 0xFFFF then 1 else messageId c1 + 1)
        /\ forall methodCode,
             METHODS (JS.toUpperCase method) = Some methodCode ->
             console c2 = console c1 ++ [LogRequest method uri (messageId c1)]
             /\ pendingRequests c2
                = <[messageId c1 := mkPending (nextHandle c1) (nextHandle c1)
                                      method uri]> (pendingRequests c1)
             /\ written c2
                = written c1
                  ++ [createCoapFrame
                        (buildMessage cborEncode methodCode uri pl
                           (messageId c1))]).
Proof.
  intros Hm Hn. split; [| split].
  - destruct (run_mids ops c) as (mids & E & Hs). exists mids.
    split; [exact E |]. eapply sublist_NoDup; [| exact Hs].
    apply mid_seq_NoDup; lia.
  - intros random. apply constructor_messageId.
  - intros method uri pl t c1. cbv zeta. unfold request.
    destruct (METHODS (JS.toUpperCase method)) as [code |]; cbn;
      (split; [reflexivity |]); intros methodCode [= <-]. auto.
Qed.


(** A run of requests only: the message-IDs are the whole sequence, and
    each of them is still pending at the end. *)
Lemma request_keeps_pending (method uri : string) (pl : Payload) (t : Z)
    (c : Client (V:=V)) (m : Z) :
  is_Some (pendingRequests c !! m) ->
  is_Some (pendingRequests (snd (request cborEncode method uri pl t c)) !! m).
Proof.
  unfold request. destruct (METHODS (JS.toUpperCase method)); cbn; [| auto].
  intros H. destruct (Z.eq_dec (messageId c) m) as [-> | Hne].
  - rewrite lookup_insert_eq. eauto.
  - now rewrite lookup_insert_ne.
Qed.

Lemma run_requests_only (n : nat) (method uri : string) (pl : Payload)
    (t methodCode : Z) (c : Client (V:=V)) :
  METHODS (JS.toUpperCase method) = Some methodCode ->
  let c' :=
    run cborEncode cborDecode (replicate n (OpRequest method uri pl t)) c in
  request_mids (console c')
  = request_mids (console c) ++ Spec.mid_seq n (messageId c)
  /\ messageId c' = Nat.iter n Spec.next_mid (messageId c)
  /\ (forall m, is_Some (pendingRequests c !! m) ->
        is_Some (pendingRequests c' !! m))
  /\ (forall m, m ∈ Spec.mid_seq n (messageId c) ->
        is_Some (pendingRequests c' !! m)).
Proof.
  intros Hmeth. cbv zeta. revert c.
  induction n as [| n IH]; intros c.
  - cbn. rewrite app_nil_r. repeat split; auto. intros m Hin. inversion Hin.
  - unfold run in *. cbn [replicate foldl exec].
    set (c1 := snd (request cborEncode method uri pl t c)).
    destruct (IH c1) as (E & Hid & Hkeep & Hin).
    assert (Hc1 : messageId c1 = Spec.next_mid (messageId c)
                  /\ request_mids (console c1)
                     = request_mids (console c) ++ [messageId c]
                  /\ is_Some (pendingRequests c1 !! messageId c)).
    { unfold c1, request. rewrite Hmeth. cbn.
      rewrite request_mids_app, lookup_insert_eq. eauto. }
    destruct Hc1 as (Hm1 & Hc1 & Hp1).
    split; [| split; [| split]].
    + rewrite E, Hc1, Hm1, <- app_assoc. reflexivity.
    + rewrite Hid, Hm1. symmetry. apply Nat.iter_succ_r.
    + intros m Hm. apply Hkeep. now apply request_keeps_pending.
    + intros m Hm. cbn [Spec.mid_seq] in Hm.
      apply elem_of_cons in Hm as [-> | Hm].
      * now apply Hkeep.
      * apply Hin. now rewrite Hm1.
Qed.

(** *** The reassembler under chunking *)

Lemma set_receiveBuffer_id (c : Client (V:=V)) :
  set_receiveBuffer (receiveBuffer c) c = c.
Proof. destruct c. reflexivity. Qed.

Lemma handleCoapResponse_set_receiveBuffer (data buf : list Z)
    (c : Client (V:=V)) :
  handleCoapResponse cborDecode data (set_receiveBuffer buf c)
  = set_receiveBuffer buf (handleCoapResponse cborDecode data c).
Proof.
  unfold handleCoapResponse.
  destruct (parseResponse cborDecode data) as [e | r]; [reflexivity |].
  cbv zeta. cbn [pendingRequests set_receiveBuffer logs].
  destruct (pendingRequests c !! r_messageId r); [| reflexivity].
  destruct (codeClass r =? 2); reflexivity.
Qed.

(** Dispatching a frame neither reads nor writes the scratch buffer. *)
Lemma dispatch_set_receiveBuffer (frameData buf : list Z) (c : Client (V:=V)) :
  dispatch cborDecode frameData (set_receiveBuffer buf c)
  = set_receiveBuffer buf (dispatch cborDecode frameData c).
Proof.
  unfold dispatch. destruct (decodeFrame frameData) as [e | d]; [reflexivity |].
  destruct (valid_ d);
    repeat match goal with |- context [if ?b then _ else _] => destruct b end;
    try reflexivity;
    first [ apply handleCoapResponse_set_receiveBuffer
          | apply (handleCoapResponse_set_receiveBuffer (data_ d) buf
                     (log (WarnChecksumMismatch (checksum_ d)) c)) ].
Qed.

Lemma handleData_round_spec (c : Client (V:=V)) :
  handleData_round cborDecode c =
    match Spec.resync (receiveBuffer c) with
    | None => Break (set_receiveBuffer [] c)
    | Some t =>
        match Spec.frame_split t with
        | None => Break (set_receiveBuffer t c)
        | Some (frame, rest) =>
            Continue (dispatch cborDecode frame (set_receiveBuffer rest c))
        end
    end.
Proof.
  unfold handleData_round.
  destruct (Z.ltb_spec 0 (Z.of_nat (length (receiveBuffer c)))) as [Hpos | Hzero];
    cbn [negb].
  - clear Hpos.
    unfold Spec.resync.
    destruct (indexOf_range (receiveBuffer c) SOF 0 ltac:(lia)) as [E | [Hr _]].
    { rewrite E. reflexivity. }
    set (sofIndex := JS.indexOf (receiveBuffer c) SOF 0) in *.
    destruct (Z.eqb_spec sofIndex (-1)); [lia |].
    set (t := drop (Z.to_nat sofIndex) (receiveBuffer c)).
    assert (Hc : (if sofIndex >? 0 then set_receiveBuffer t c else c)
                 = set_receiveBuffer t c).
    { destruct (Z.gtb_spec sofIndex 0); [reflexivity |].
      unfold t. replace (Z.to_nat sofIndex) with 0%nat by lia.
      rewrite drop_0. now rewrite set_receiveBuffer_id. }
    rewrite Hc. cbn [receiveBuffer set_receiveBuffer]. unfold Spec.frame_split.
    repeat match goal with |- context [if ?b then _ else _] => destruct b end;
      reflexivity.
  - assert (E : receiveBuffer c = []) by (apply nil_length_inv; lia).
    rewrite E. change (Spec.resync []) with (@None (list Z)).
    rewrite <- E. now rewrite set_receiveBuffer_id.
Qed.

Lemma round_continue_app (c c' : Client (V:=V)) (d : list Z) :
  handleData_round cborDecode c = Continue c' ->
  handleData_round cborDecode (Spec.append_data d c)
  = Continue (Spec.append_data d c')
  /\ (length (receiveBuffer c') < length (receiveBuffer c))%nat.
Proof.
  rewrite !handleData_round_spec. unfold Spec.append_data.
  cbn [receiveBuffer set_receiveBuffer].
  destruct (Spec.resync (receiveBuffer c)) as [t |] eqn:Et; [| discriminate].
  destruct (Spec.frame_split t) as [[frame rest] |] eqn:Ef; [| discriminate].
  intros [= <-].
  rewrite (resync_app_some _ d _ Et), (frame_split_app _ d _ _ Ef).
  rewrite !dispatch_set_receiveBuffer. cbn [receiveBuffer set_receiveBuffer].
  split; [reflexivity |].
  apply frame_split_cases in Ef as (frameEnd & Hfe & _ & ->).
  pose proof (resync_cases (receiveBuffer c)) as Hc. rewrite Et in Hc.
  destruct Hc as (_ & _ & _ & Ht).
  assert (length t <= length (receiveBuffer c))%nat
    by (rewrite Ht, length_drop; lia).
  rewrite length_drop. lia.
Qed.

Lemma round_break_app (c c' : Client (V:=V)) (d : list Z) :
  handleData_round cborDecode c = Break c' ->
  handleData_round cborDecode (Spec.append_data d c)
  = handleData_round cborDecode (Spec.append_data d c').
Proof.
  rewrite !handleData_round_spec. unfold Spec.append_data.
  cbn [receiveBuffer set_receiveBuffer].
  destruct (Spec.resync (receiveBuffer c)) as [t |] eqn:Et.
  - pose proof (resync_cases (receiveBuffer c)) as Hc. rewrite Et in Hc.
    destruct Hc as (tl & Htl & _).
    destruct (Spec.frame_split t) as [[frame rest] |]; [discriminate |].
    intros [= <-]. cbn [receiveBuffer set_receiveBuffer].
    rewrite (resync_app_some _ d _ Et).
    assert (Ht : Spec.resync (t ++ d) = Some (t ++ d))
      by (rewrite Htl; apply resync_head).
    rewrite Ht. reflexivity.
  - intros [= <-]. cbn [receiveBuffer set_receiveBuffer app].
    rewrite (resync_app_none _ d Et). reflexivity.
Qed.

(** The loop has ended once its fuel exceeds the length of the buffer:
    more fuel changes nothing. *)
Lemma handleData_loop_fuel (f1 f2 : nat) (c : Client (V:=V)) :
  (length (receiveBuffer c) < f1)%nat -> (length (receiveBuffer c) < f2)%nat ->
  handleData_loop cborDecode f1 c = handleData_loop cborDecode f2 c.
Proof.
  revert f2 c. induction f1 as [| f1 IH]; intros f2 c H1 H2; [lia |].
  destruct f2 as [| f2]; [lia |]. cbn [handleData_loop].
  destruct (handleData_round cborDecode c) as [c' | c'] eqn:E; [reflexivity |].
  apply (round_continue_app _ _ []) in E as [_ Hlt]. apply IH; lia.
Qed.

Lemma handleData_loop_absorbs (n : nat) (c : Client (V:=V)) (d : list Z)
    (f1 f2 : nat) :
  (length (receiveBuffer c) < n)%nat ->
  (length (receiveBuffer c ++ d) < f1)%nat ->
  (length (receiveBuffer (handleData_loop cborDecode n c) ++ d) < f2)%nat ->
  handleData_loop cborDecode f2
    (Spec.append_data d (handleData_loop cborDecode n c))
  = handleData_loop cborDecode f1 (Spec.append_data d c).
Proof.
  revert c f1 f2. induction n as [| n IH]; intros c f1 f2 Hn H1 H2; [lia |].
  cbn [handleData_loop] in *.
  destruct (handleData_round cborDecode c) as [c' | c'] eqn:E.
  - destruct f1 as [| f1]; [lia |]. destruct f2 as [| f2]; [lia |].
    cbn [handleData_loop]. rewrite (round_break_app _ _ d E).
    destruct (handleData_round cborDecode (Spec.append_data d c'))
      as [x | x] eqn:Ex; [reflexivity |].
    pose proof (round_break_app _ _ d E) as Ex'. rewrite Ex in Ex'.
    apply (round_continue_app _ _ []) in Ex as [_ Hx].
    apply (round_continue_app _ _ []) in Ex' as [_ Hx'].
    unfold Spec.append_data in Hx, Hx'. cbn [receiveBuffer set_receiveBuffer] in Hx, Hx'.
    apply handleData_loop_fuel; lia.
  - pose proof (round_continue_app _ _ d E) as [Ed Hlt].
    destruct f1 as [| f1]; [lia |].
    cbn [handleData_loop]. rewrite Ed.
    rewrite length_app in *. apply IH; rewrite ?length_app; lia.
Qed.

Lemma append_data_app (a b : list Z) (c : Client (V:=V)) :
  Spec.append_data b (Spec.append_data a c) = Spec.append_data (a ++ b) c.
Proof.
  unfold Spec.append_data. cbn [receiveBuffer set_receiveBuffer].
  now rewrite app_assoc.
Qed.

Lemma handleData_unfold (d : list Z) (c : Client (V:=V)) :
  handleData cborDecode d c
  = handleData_loop cborDecode (S (length (receiveBuffer c ++ d)))
      (Spec.append_data d c).
Proof. reflexivity. Qed.

Lemma handleData_app (a b : list Z) (c : Client (V:=V)) :
  handleData cborDecode b (handleData cborDecode a c)
  = handleData cborDecode (a ++ b) c.
Proof.
  rewrite (handleData_unfold a c), (handleData_unfold (a ++ b) c).
  rewrite handleData_unfold. rewrite <- append_data_app.
  set (ca := Spec.append_data a c).
  assert (Hca : receiveBuffer ca = receiveBuffer c ++ a) by reflexivity.
  rewrite <- Hca.
  rewrite (handleData_loop_absorbs _ ca b (S (length (receiveBuffer ca ++ b))))
    by lia.
  apply handleData_loop_fuel; rewrite ?Hca, ?length_app;
    unfold ca, Spec.append_data; cbn [receiveBuffer set_receiveBuffer];
    rewrite ?length_app; lia.
Qed.

Lemma feed_concat (chunk : list Z) (chunks : list (list Z))
    (c : Client (V:=V)) :
  Spec.feed cborDecode chunks (handleData cborDecode chunk c)
  = handleData cborDecode (chunk ++ concat chunks) c.
Proof.
  revert chunk. induction chunks as [| x chunks IH]; intros chunk.
  - cbn. now rewrite app_nil_r.
  - unfold Spec.feed in *. cbn [foldl concat].
    rewrite handleData_app, IH. now rewrite app_assoc.
Qed.

(** A buffer that holds exactly one frame (SOF, type, a payload region
    free of 0x3C, one or two EOF, four checksum characters) is split into
    that frame and nothing else. *)
Lemma frame_split_single (type : Z) (body eofs cs : list Z) :
  EOF ∉ body ->
  eofs = [] \/ eofs = [EOF] ->
  length cs = 4%nat ->
  JS.at_is cs 0 EOF = false ->
  (1 <= length body + length eofs)%nat ->
  Spec.frame_split (SOF :: type :: body ++ EOF :: eofs ++ cs)
  = Some (SOF :: type :: body ++ EOF :: eofs ++ cs, []).
Proof.
  intros Hno Heofs Hcs Hc1 Hmin.
  set (frame := SOF :: type :: body ++ EOF :: eofs ++ cs).
  assert (Hlen : Z.of_nat (length frame)
                 = Z.of_nat (length body) + Z.of_nat (length eofs) + 7).
  { unfold frame. cbn [length]. rewrite length_app. cbn [length].
    rewrite length_app, Hcs. lia. }
  assert (Hend : JS.indexOf frame EOF 2 = 2 + Z.of_nat (length body)).
  { unfold JS.indexOf, frame. change (Z.to_nat 2) with 2%nat.
    cbn [drop]. rewrite drop_0. now apply indexOf_go_first. }
  assert (Hdouble : JS.at_is frame (2 + Z.of_nat (length body) + 1) EOF
                    = match eofs with [] => false | _ => true end).
  { unfold JS.at_is, JS.at_.
    destruct (Z.ltb_spec (2 + Z.of_nat (length body) + 1) 0); [lia |].
    replace (Z.to_nat (2 + Z.of_nat (length body) + 1))
      with (length (SOF :: type :: body) + 1)%nat by (cbn [length]; lia).
    change frame with ((SOF :: type :: body) ++ EOF :: eofs ++ cs).
    rewrite lookup_app_r by lia.
    replace (length (SOF :: type :: body) + 1 - length (SOF :: type :: body))%nat
      with 1%nat by lia.
    destruct Heofs as [-> | ->]; cbn [app lookup list_lookup].
    - unfold JS.at_is, JS.at_ in Hc1. cbn in Hc1. exact Hc1.
    - reflexivity. }
  unfold Spec.frame_split.
  destruct (Z.ltb_spec (Z.of_nat (length frame)) 8); [lia |].
  rewrite Hend.
  destruct (Z.eqb_spec (2 + Z.of_nat (length body)) (-1)); [lia |].
  rewrite Hdouble.
  assert (Hfe : (if match eofs with [] => false | _ => true end
                 then 2 + Z.of_nat (length body) + 2
                 else 2 + Z.of_nat (length body) + 1) + 4
                = Z.of_nat (length frame))
    by (rewrite Hlen; destruct Heofs as [-> | ->]; cbn [length]; lia).
  rewrite Hfe. destruct (Z.ltb_spec (Z.of_nat (length frame)) (Z.of_nat (length frame))); [lia |].
  unfold JS.slice. rewrite Nat2Z.id. change (Z.to_nat 0) with 0%nat.
  rewrite drop_0, firstn_all, drop_all. reflexivity.
Qed.

(** Such a frame, fed whole to a client with an empty buffer, is
    dispatched once and leaves the buffer empty. *)
Lemma handleData_single_frame (type : Z) (body eofs cs : list Z)
    (c : Client (V:=V)) :
  receiveBuffer c = [] ->
  EOF ∉ body ->
  eofs = [] \/ eofs = [EOF] ->
  length cs = 4%nat ->
  JS.at_is cs 0 EOF = false ->
  (1 <= length body + length eofs)%nat ->
  handleData cborDecode (SOF :: type :: body ++ EOF :: eofs ++ cs) c
  = dispatch cborDecode (SOF :: type :: body ++ EOF :: eofs ++ cs) c.
Proof.
  intros Hrb Hno Heofs Hcs Hc1 Hmin.
  set (frame := SOF :: type :: body ++ EOF :: eofs ++ cs).
  rewrite handleData_unfold. cbn [handleData_loop].
  rewrite handleData_round_spec. unfold Spec.append_data.
  cbn [receiveBuffer set_receiveBuffer]. rewrite Hrb. cbn [app].
  assert (Hres : Spec.resync frame = Some frame) by apply resync_head.
  assert (Hsplit : Spec.frame_split frame = Some (frame, []))
    by (apply frame_split_single; assumption).
  rewrite Hres, Hsplit.
  assert (Hc : set_receiveBuffer [] (set_receiveBuffer frame c) = c)
    by (rewrite <- Hrb at 1; destruct c; reflexivity).
  rewrite Hc.
  assert (Hd : receiveBuffer (dispatch cborDecode frame c) = []).
  { rewrite <- (set_receiveBuffer_id c), dispatch_set_receiveBuffer.
    exact Hrb. }
  destruct (length frame) as [| n]; [reflexivity |].
  cbn [handleData_loop]. rewrite handleData_round_spec, Hd.
  change (Spec.resync []) with (@None (list Z)).
  rewrite <- Hd. apply set_receiveBuffer_id.
Qed.

(** C4.  The reassembler is chunking-invariant: feeding a byte string in
    any sequence of chunks, and in particular one byte at a time, leaves
    the client in the same state (same dispatched frames, same settled
    waiters, same log, same buffer) as feeding it whole.  When the byte
    string is one frame (SOF, type, a payload region free of 0x3C, one or
    two EOF, four checksum characters) and the buffer starts empty, that
    state is the one of a single dispatch of the frame.  For the 64-byte
    CoAP-bearing frame [Spec.sample_frame] cut into chunks of 1, 7, 20 and
    36 bytes, exactly one response is dispatched: the waiter of message-ID
    0x1234 is resolved, once, with the 50 payload bytes, and the console
    holds the line of the request, the warning of [parseResponse] when
    the decoder refuses the payload, and the line of the response. *)
Theorem handleData_chunking_invariant :
  (forall (c : Client (V:=V)) (chunk : list Z) (chunks : list (list Z)),
      Spec.feed cborDecode (chunk :: chunks) c
      = handleData cborDecode (concat (chunk :: chunks)) c)
  /\ (forall (c : Client (V:=V)) (b : Z) (frame : list Z),
        Spec.feed cborDecode (map (fun x => [x]) (b :: frame)) c
        = handleData cborDecode (b :: frame) c)
  /\ (forall (c : Client (V:=V)) (type : Z) (body eofs cs chunk : list Z)
        (chunks : list (list Z)),
        receiveBuffer c = [] ->
        EOF ∉ body ->
        eofs = [] \/ eofs = [EOF] ->
        length cs = 4%nat ->
        JS.at_is cs 0 EOF = false ->
        (1 <= length body + length eofs)%nat ->
        concat (chunk :: chunks) = SOF :: type :: body ++ EOF :: eofs ++ cs ->
        Spec.feed cborDecode (chunk :: chunks) c
        = dispatch cborDecode (SOF :: type :: body ++ EOF :: eofs ++ cs) c)
  /\ (let frame := Spec.sample_frame in
      let chunks :=
        [take 1 frame; take 7 (drop 1 frame); take 20 (drop 8 frame);
         drop 28 frame] in
      let c :=
        snd (request cborEncode "GET" "/c?d=a" Null 15000
               (constructor (QArith_base.Qmake 0x1234 0xFFFF))) in
      let whole := handleData cborDecode frame c in
      map length chunks = [1; 7; 20; 36]%nat
      /\ concat chunks = frame
      /\ decodeFrame frame
         = inr {| type_ := "C";
                  data_ := [0x60; 0x45; 0x12; 0x34; 0xFF] ++ Spec.sample_payload;
                  checksum_ := "4334"; valid_ := true |}
      /\ Spec.feed cborDecode chunks c = whole
      /\ settled whole
         = [(0%nat,
             Resolved
               (match cborDecode Spec.sample_payload with
                | Some v => Value v
                | None => Bytes Spec.sample_payload
                end))]
      /\ console whole
         = [LogRequest "GET" "/c?d=a" 0x1234]
           ++ (match cborDecode Spec.sample_payload with
               | Some _ => []
               | None => [WarnCborDecodeFailed]
               end)
           ++ [LogResponse "2.05 Content" 0x1234]
      /\ pendingRequests whole = ∅
      /\ receiveBuffer whole = []).
Proof.
  assert (Hfeed : forall (c : Client (V:=V)) chunk chunks,
             Spec.feed cborDecode (chunk :: chunks) c
             = handleData cborDecode (concat (chunk :: chunks)) c).
  { intros c chunk chunks. cbn [concat].
    rewrite <- feed_concat. reflexivity. }
  split; [exact Hfeed |]. split; [| split].
  - intros c b frame. cbn [map]. rewrite Hfeed. f_equal.
    cbn [concat app]. f_equal.
    induction frame as [| x frame IH]; [reflexivity |].
    cbn [map concat app]. now rewrite IH.
  - intros c type body eofs cs chunk chunks Hrb Hno Heofs Hcs Hc1 Hmin Hcat.
    rewrite Hfeed, Hcat. now apply handleData_single_frame.
  - cbv zeta. split; [reflexivity |]. split; [reflexivity |].
    split; [vm_compute; reflexivity |]. split; [apply Hfeed |].
    split; [vm_compute; reflexivity |]. split; [vm_compute; reflexivity |].
    split; vm_compute; reflexivity.
Qed.

(** *** Requests on the wire *)

(** C6.  [buildMessage] for GET /c?d=a with message-ID 0x1234 and no
    payload gives the 13 bytes 40 01 12 34 | B1 63 | 12 01 04 | 33 64 3D 61:
    version 1, type 0, token length 0, code 1, message-ID 0x1234, Uri-Path
    (delta 11, length 1) "c", Content-Format (delta 1, length 2) 0x0104,
    Uri-Query (delta 3, length 3) "d=a", no payload marker.  And every
    message built, whatever the method and the payload, reads back with
    the options of its URI, among them exactly one Content-Format option,
    of value 0x0104 = 260. *)
Theorem buildMessage_content_format (methodCode : Z) (uri : string)
    (pl : Payload (V:=V)) (mid : Z) :
  Spec.uri_ok uri ->
  0 <= methodCode < 256 ->
  0 <= mid < 65536 ->
  buildMessage cborEncode 1 "/c?d=a" Null 0x1234
  = [0x40; 0x01; 0x12; 0x34; 0xB1; 0x63; 0x12; 0x01; 0x04;
     0x33; 0x64; 0x3D; 0x61]
  /\ [0xB1; 0x12; 0x33] = [11 * 16 + 1; 1 * 16 + 2; 3 * 16 + 3]
  /\ Spec.decode_message (buildMessage cborEncode 1 "/c?d=a" Null 0x1234)
     = Some {| Spec.m_version := 1; Spec.m_type := 0; Spec.m_tkl := 0;
               Spec.m_code := 1; Spec.m_mid := 0x1234;
               Spec.m_options :=
                 [(11, [0x63]); (12, [0x01; 0x04]); (15, [0x64; 0x3D; 0x61])];
               Spec.m_payload := None |}
  /\ Spec.decode_message (buildMessage cborEncode methodCode uri pl mid)
     = Some {| Spec.m_version := 1; Spec.m_type := 0; Spec.m_tkl := 0;
               Spec.m_code := methodCode; Spec.m_mid := mid;
               Spec.m_options := Spec.option_list uri;
               Spec.m_payload :=
                 match pl with
                 | Null => None
                 | Bytes encoded => Some (JS.Buffer_from encoded)
                 | Value v => Some (JS.Buffer_from (cborEncode v))
                 end |}
  /\ List.filter (fun o => fst o =? OPTIONS_CONTENT_FORMAT) (Spec.option_list uri)
     = [(OPTIONS_CONTENT_FORMAT, [0x01; 0x04])]
  /\ 0x01 * 256 + 0x04 = CONTENT_FORMAT_YANG_CBOR.
Proof.
  clear cborDecode. intros Huri Hcode Hmid.
  split; [vm_compute; reflexivity |]. split; [reflexivity |].
  split; [vm_compute; reflexivity |].
  split; [| split; [apply option_list_content_format | reflexivity]].
  unfold buildMessage. rewrite !Buffer_from_app.
  rewrite encodeOptions_serialize.
  pose proof (option_list_ok uri Huri) as Hok.
  rewrite (Buffer_from_bytes (Spec.serialize _ _))
    by (apply serialize_bytes; exact Hok).
  set (body := JS.Buffer_from match pl with Null => [] | _ => _ end).
  assert (Hbody : body = match pl with
                         | Null => []
                         | Bytes encoded => 0xFF :: JS.Buffer_from encoded
                         | Value v => 0xFF :: JS.Buffer_from (cborEncode v)
                         end)
    by (unfold body; destruct pl; reflexivity).
  assert (Hhi : JS.band (JS.shr mid 8) 0xFF mod 256 = mid / 256).
  { rewrite band_FF, shr_8. rewrite (ToInt32_id mid) by lia.
    rewrite ToInt32_id by (Z.div_mod_to_equations; lia).
    rewrite Z.mod_mod by lia. apply Z.mod_small.
    Z.div_mod_to_equations. lia. }
  assert (Hlo : JS.band mid 0xFF mod 256 = mid mod 256).
  { rewrite band_FF. rewrite (ToInt32_id mid) by lia.
    apply Z.mod_mod. lia. }
  cbn [JS.Buffer_from map app]. rewrite Hhi, Hlo.
  change (JS.bor (JS.bor (JS.shl 1 6) (JS.shl 0 4)) 0 mod 256) with 64.
  rewrite (Z.mod_small methodCode) by lia.
  unfold Spec.decode_message. change (64 mod 16) with 0.
  change (Z.to_nat 0) with 0%nat. rewrite drop_0.
  rewrite decode_serialize; [| exact Hok | | lia].
  - f_equal. f_equal; [Z.div_mod_to_equations; lia |].
    rewrite Hbody. destruct pl; reflexivity.
  - rewrite Hbody. destruct pl; [left | right | right]; eauto.
Qed.
End ClientProperties.

(* ===================================================================== *)
(** ** The properties at concrete inputs                                  *)
(* ===================================================================== *)

(** C9, as stated, fails on the codes of the table: code 69 is named
    "2.05 Content", not "2.05" (and code 132 "4.04 Not Found"). *)
Lemma codeName_69_is_not_CDD :
  let dec := fun b : list Z => Some b in
  parseResponse dec [0x60; 69; 0x12; 0x34]
  = inr {| version := 1; type := 2; code := 69; r_messageId := 0x1234;
           payload := Null; codeClass := 2; codeName := "2.05 Content" |}
  /\ Spec.cdd 69 = "2.05"%string
  /\ codeName_of 69 <> "2.05"%string
  /\ codeName_of 132 = "4.04 Not Found"%string.
Proof.
  cbv zeta. split; [vm_compute; reflexivity |].
  split; [vm_compute; reflexivity |].
  split; [vm_compute; discriminate | vm_compute; reflexivity].
Qed.

Lemma parseResponse_code_name_witness :
  let dec := fun b : list Z => Some b in
  let data := [0x60; 69; 0x12; 0x34; 0xFF; 0x01] in
  Forall Spec.is_byte data
  /\ (exists r, parseResponse dec data = inr r
        /\ codeClass r = JS.shr (code r) 5
        /\ String.prefix (Spec.cdd (code r)) (codeName r) = true).
Proof.
  cbv zeta.
  assert (Hb : Forall Spec.is_byte [0x60; 69; 0x12; 0x34; 0xFF; 0x01])
    by (repeat constructor; unfold Spec.is_byte; lia).
  split; [exact Hb |].
  eexists. split; [vm_compute; reflexivity |].
  refine (let H := parseResponse_code_name (fun b : list Z => Some b)
                     [0x60; 69; 0x12; 0x34; 0xFF; 0x01] _ Hb eq_refl in _).
  exact (conj (proj1 (proj2 H)) (proj1 (proj2 (proj2 (proj2 H))))).
Defined.

Lemma handleCoapResponse_settles_witness :
  let enc := fun v : list Z => v in
  let dec := fun b : list Z => Some b in
  let refuse := fun _ : list Z => @None (list Z) in
  let c0 := constructor (V:=list Z) (QArith_base.Qmake 0x1234 0xFFFF) in
  let c := snd (request enc "GET" "/c?d=a" Null 15000 c0) in
  let data := [0x60; 69; 0x12; 0x34; 0xFF; 0x01] in
  parseResponse dec data
  = inr {| version := 1; type := 2; code := 69; r_messageId := 0x1234;
           payload := Value [0x01]; codeClass := 2;
           codeName := "2.05 Content" |}
  /\ settled (handleCoapResponse dec data c) = [(0%nat, Resolved (Value [0x01]))]
  /\ console (handleCoapResponse dec data c)
     = [LogRequest "GET" "/c?d=a" 0x1234; LogResponse "2.05 Content" 0x1234]
  /\ settled (handleCoapResponse refuse data c)
     = [(0%nat, Resolved (Bytes [0x01]))]
  /\ console (handleCoapResponse refuse data c)
     = [LogRequest "GET" "/c?d=a" 0x1234; WarnCborDecodeFailed;
        LogResponse "2.05 Content" 0x1234].
Proof.
  cbv zeta.
  assert (Hp : parseResponse (fun b : list Z => Some b)
                 [0x60; 69; 0x12; 0x34; 0xFF; 0x01]
               = inr {| version := 1; type := 2; code := 69;
                        r_messageId := 0x1234; payload := Value [0x01];
                        codeClass := 2; codeName := "2.05 Content" |})
    by (vm_compute; reflexivity).
  split; [exact Hp |].
  split.
  - exact (proj1 (proj2 (proj2 (handleCoapResponse_settles
                                  (fun v : list Z => v) _ _ _
                                  (snd (request (fun v : list Z => v) "GET"
                                          "/c?d=a" Null 15000
                                          (constructor
                                             (QArith_base.Qmake 0x1234 0xFFFF))))
                                  Hp))
                    "GET"%string "/c?d=a"%string Null 15000
                    (constructor (QArith_base.Qmake 0x1234 0xFFFF)) 0%nat
                    eq_refl eq_refl)).
  - split; [vm_compute; reflexivity |].
    split; vm_compute; reflexivity.
Defined.

Lemma message_ids_distinct_witness :
  let enc := fun v : list Z => v in
  let dec := fun b : list Z => Some b in
  let c0 := constructor (V:=list Z) (QArith_base.Qmake 0xFFFE 0xFFFF) in
  let ops := [OpRequest "GET" "/c" Null 15000; OpRequest "PUT" "/c" (Bytes [1]) 15000;
              OpData [0x3E]; OpRequest "get" "/c?d=a" Null 15000] in
  0 <= messageId c0 <= 0xFFFF
  /\ Z.of_nat (Spec.count_requests ops) <= 65535
  /\ request_mids (console (run enc dec ops c0)) = [0xFFFE; 0xFFFF; 1]
  /\ exists mids,
       request_mids (console (run enc dec ops c0))
       = request_mids (console c0) ++ mids /\ NoDup mids.
Proof.
  cbv zeta.
  split; [vm_compute; split; discriminate |].
  split; [vm_compute; discriminate |].
  split; [vm_compute; reflexivity |].
  apply (message_ids_distinct (fun v : list Z => v) (fun b : list Z => Some b)).
  - vm_compute; split; discriminate.
  - vm_compute; discriminate.
Defined.

(** C7, as stated, fails at the wrap of the counter: 65535 requests after
    a request with message-ID 1, and with that request still pending, the
    counter is back at 1 and the next request is sent with message-ID 1
    again; nothing skips forward to a free one. *)
Lemma message_id_reused_while_pending :
  let enc := fun v : list Z => v in
  let dec := fun b : list Z => Some b in
  let get := OpRequest "GET" "/c" Null 15000 in
  let c0 := constructor (V:=list Z) (QArith_base.Qmake 1 0xFFFF) in
  let c := run enc dec (replicate (Z.to_nat 65535) get) c0 in
  messageId c0 = 1
  /\ messageId c = 1
  /\ is_Some (pendingRequests c !! 1)
  /\ request_mids (console (run enc dec [get] c)) = request_mids (console c) ++ [1]
  /\ ~ NoDup (request_mids
                (console (run enc dec (replicate (Z.to_nat 65536) get) c0))).
Proof.
  cbv zeta.
  set (enc := fun v : list Z => v). set (dec := fun b : list Z => Some b).
  set (get := OpRequest (V:=list Z) "GET" "/c" Null 15000).
  set (c0 := constructor (V:=list Z) (QArith_base.Qmake 1 0xFFFF)).
  assert (H0 : messageId c0 = 1) by reflexivity.
  pose proof (run_requests_only enc dec (Z.to_nat 65535) "GET" "/c" Null 15000
                1 c0 eq_refl) as H. cbv zeta in H.
  destruct H as (_ & Hid & _ & Hin).
  pose proof (run_requests_only enc dec (Z.to_nat 65536) "GET" "/c" Null 15000
                1 c0 eq_refl) as H. cbv zeta in H.
  destruct H as (E' & _).
  fold get in Hid, Hin, E'.
  set (c := run enc dec (replicate (Z.to_nat 65535) get) c0) in *.
  rewrite H0 in Hid, Hin, E'.
  assert (Hc : messageId c = 1).
  { rewrite Hid, iter_next_mid by lia. rewrite Z2Nat.id by lia. reflexivity. }
  split; [exact H0 |]. split; [exact Hc |]. split; [| split].
  - apply Hin. eapply list_elem_of_lookup_2.
    apply (mid_seq_lookup _ 0); lia.
  - pose proof (run_requests_only enc dec 1 "GET" "/c" Null 15000 1 c eq_refl)
      as H. cbv zeta in H. destruct H as (E1 & _).
    fold get in E1. rewrite Hc in E1. exact E1.
  - rewrite E'. cbn [console c0 constructor request_mids app].
    intros Hnd.
    assert (Hfirst : Spec.mid_seq (Z.to_nat 65536) 1 !! 0%nat = Some 1).
    { rewrite mid_seq_lookup by lia. reflexivity. }
    assert (Hlast : Spec.mid_seq (Z.to_nat 65536) 1 !! Z.to_nat 65535 = Some 1).
    { rewrite mid_seq_lookup by lia. rewrite Z2Nat.id by lia. reflexivity. }
    pose proof (proj1 (NoDup_alt _) Hnd _ _ _ Hfirst Hlast). lia.
Qed.

Lemma buildMessage_content_format_witness :
  let enc := fun v : list Z => v in
  Spec.uri_ok "/c/ietf-interfaces?d=a&c=n"
  /\ Spec.decode_message
       (buildMessage enc 5 "/c/ietf-interfaces?d=a&c=n" (Bytes [0xA0]) 0xBEEF)
     = Some {| Spec.m_version := 1; Spec.m_type := 0; Spec.m_tkl := 0;
               Spec.m_code := 5; Spec.m_mid := 0xBEEF;
               Spec.m_options :=
                 Spec.option_list "/c/ietf-interfaces?d=a&c=n";
               Spec.m_payload := Some [0xA0] |}.
Proof.
  cbv zeta.
  assert (Hu : Spec.uri_ok "/c/ietf-interfaces?d=a&c=n").
  { unfold Spec.uri_ok.
    change (uri_segments "/c/ietf-interfaces?d=a&c=n"
            ++ uri_queries "/c/ietf-interfaces?d=a&c=n")
      with ["c"; "ietf-interfaces"; "d=a"; "c=n"]%string.
    repeat constructor; cbn; lia. }
  split; [exact Hu |].
  exact (proj1 (proj2 (proj2 (proj2
           (buildMessage_content_format (fun v : list Z => v) 5
              "/c/ietf-interfaces?d=a&c=n" (Bytes [0xA0]) 0xBEEF Hu
              ltac:(lia) ltac:(lia)))))).
Defined.


Lemma handleData_chunking_invariant_witness :
  let enc := fun v : list Z => v in
  let dec := fun b : list Z => Some b in
  let frame := Spec.sample_frame in
  let c :=
    snd (request enc "GET" "/c?d=a" Null 15000
           (constructor (QArith_base.Qmake 0x1234 0xFFFF))) in
  receiveBuffer c = []
  /\ Spec.feed dec
       [take 1 frame; take 7 (drop 1 frame); take 20 (drop 8 frame);
        drop 28 frame] c
     = dispatch dec frame c.
Proof.
  cbv zeta. split; [reflexivity |].
  apply (proj1 (proj2 (proj2
           (handleData_chunking_invariant (fun v : list Z => v)
              (fun b : list Z => Some b))))
           _ 0x43 ([0x60; 0x45; 0x12; 0x34; 0x5C; 0x46] ++ Spec.sample_payload)
           [EOF] (JS.charCodes "4334")).
  - reflexivity.
  - rewrite list_elem_of_In. cbn. intros H.
    repeat (destruct H as [H | H]; [discriminate H |]). exact H.
  - right. reflexivity.
  - reflexivity.
  - reflexivity.
  - cbn. lia.
  - reflexivity.
Defined.

(* ===================================================================== *)
(** ** Further properties of the frame codec                              *)
(* ===================================================================== *)

Lemma elem_of_escape_loop (payload : list Z) (x : Z) :
  x ∈ escape_loop payload ->
  x = ESCAPE \/ x = 0x30 \/ x = 0x46 \/ x = 0x3E \/ x = 0x3C
  \/ (x ∈ payload /\ needsEscape x = false).
Proof.
  induction payload as [| b l IH]; cbn [escape_loop]; intros H.
  - now apply elem_of_nil in H.
  - destruct (needsEscape b) eqn:E.
    + apply elem_of_cons in H as [-> | H]; [now left |].
      apply elem_of_cons in H as [-> | H].
      * unfold needsEscape in E. unfold ESCAPE_MAP, ESCAPE.
        repeat match goal with |- context [if ?a =? ?v then _ else _] =>
                 destruct (Z.eqb_spec a v) end;
          cbv [default from_option id]; now auto 10.
      * destruct (IH H) as [? | [? | [? | [? | [? | [? ?]]]]]]; auto 10.
        right. right. right. right. right. split; [now right | assumption].
    + apply elem_of_cons in H as [-> | H].
      * right. right. right. right. right. split; [now left | assumption].
      * destruct (IH H) as [? | [? | [? | [? | [? | [? ?]]]]]]; auto 10.
        right. right. right. right. right. split; [now right | assumption].
Qed.

Lemma unescaped_escape_loop (payload : list Z) :
  Spec.unescaped false (escape_loop payload)
  = List.filter (fun b => negb (needsEscape b)) payload.
Proof.
  induction payload as [| b l IH]; [reflexivity |].
  cbn [escape_loop List.filter]. destruct (needsEscape b) eqn:E; cbn [negb].
  - cbn [Spec.unescaped]. rewrite Z.eqb_refl. exact IH.
  - cbn [Spec.unescaped].
    destruct (Z.eqb_spec b ESCAPE) as [-> | _]; [discriminate E |].
    now rewrite IH.
Qed.

Lemma escape_loop_length (payload : list Z) :
  (length payload <= length (escape_loop payload) <= 2 * length payload)%nat.
Proof.
  induction payload as [| b l IH]; cbn [escape_loop length]; [lia |].
  destruct (needsEscape b); cbn [length]; lia.
Qed.

(** X3.  Escaping leaves no special byte standing for itself: the bytes of
    an escaped payload outside the escape pairs are the payload bytes that
    need no escape, in order.  The bytes 0x00 and 0xFF do not occur in it
    at all, and it is at most twice as long as the payload. *)
Theorem escape_loop_escapes (payload : list Z) :
  Spec.unescaped false (escape_loop payload)
  = List.filter (fun b => negb (needsEscape b)) payload
  /\ (0x00 ∉ escape_loop payload)
  /\ (0xFF ∉ escape_loop payload)
  /\ (length payload <= length (escape_loop payload) <= 2 * length payload)%nat.
Proof.
  split; [apply unescaped_escape_loop |].
  split; [| split; [| apply escape_loop_length]].
  - intros H. apply elem_of_escape_loop in H.
    destruct H as [H | [H | [H | [H | [H | [_ H]]]]]]; try discriminate H.
  - intros H. apply elem_of_escape_loop in H.
    destruct H as [H | [H | [H | [H | [H | [_ H]]]]]]; try discriminate H.
Qed.

Lemma decode_loop_before_EOF (payload rest acc : list Z) :
  decode_loop (escape_loop payload ++ EOF :: rest) false acc
  = acc ++ Spec.before_EOF payload.
Proof.
  revert acc. induction payload as [| b l IH]; intros acc.
  - cbn. now rewrite app_nil_r.
  - cbn [escape_loop Spec.before_EOF]. unfold needsEscape, ESCAPE_MAP.
    destruct (Z.eqb_spec b 0x00) as [-> | H0];
      [| destruct (Z.eqb_spec b 0xFF) as [-> | H1];
         [| destruct (Z.eqb_spec b 0x3E) as [-> | H2];
            [| destruct (Z.eqb_spec b 0x3C) as [-> | H3];
               [| destruct (Z.eqb_spec b 0x5C) as [-> | H4]]]]];
      cbn [orb default app decode_loop].
    1-3, 5: cbn; rewrite IH; now rewrite <- app_assoc.
    + cbn. now rewrite app_nil_r.
    + unfold EOF, ESCAPE.
      destruct (Z.eqb_spec b 60); [contradiction |].
      destruct (Z.eqb_spec b 92); [contradiction |].
      fold EOF. rewrite IH. now rewrite <- app_assoc.
Qed.

Lemma frame_body_shape (type : Z) (data : list Z) :
  exists eofs,
    (eofs = [] \/ eofs = [EOF])
    /\ frame_body type data = (SOF :: type :: escape_loop data) ++ EOF :: eofs
    /\ Nat.odd (length (frame_body type data)) = true.
Proof.
  unfold frame_body.
  set (frame := [SOF; type] ++ escape_loop data ++ [EOF]).
  assert (Hlen : length frame = (length (escape_loop data) + 3)%nat)
    by (unfold frame; cbn [app length]; rewrite length_app; cbn [length]; lia).
  pose proof (Z.div_mod (Z.of_nat (length frame)) 2 ltac:(lia)) as Hdm.
  pose proof (Z.mod_pos_bound (Z.of_nat (length frame)) 2 ltac:(lia)) as Hmb.
  destruct (Z.eqb_spec (Z.of_nat (length frame) mod 2) 0) as [E | E].
  - exists [EOF]. split; [now right |]. split.
    + unfold frame. cbn [app]. now rewrite <- app_assoc.
    + rewrite length_app. cbn [length]. rewrite Nat.odd_spec.
      exists (Z.to_nat (Z.of_nat (length frame) / 2)). lia.
  - exists []. split; [now left |]. split.
    + unfold frame. cbn [app]. reflexivity.
    + rewrite Nat.odd_spec.
      exists (Z.to_nat (Z.of_nat (length frame) / 2)). lia.
Qed.

Lemma hex4_chars (v : Z) :
  length (JS.charCodes (Spec.hex4 v)) = 4%nat
  /\ Forall (fun b => 48 <= b <= 57 \/ 65 <= b <= 70)
       (JS.charCodes (Spec.hex4 v)).
Proof.
  split; [reflexivity |].
  unfold Spec.hex4. cbn [string_of_list_ascii JS.charCodes].
  assert (Hd : forall d, 0 <= d < 16 ->
            48 <= JS.charCode (Spec.hex_upper d) <= 57
            \/ 65 <= JS.charCode (Spec.hex_upper d) <= 70).
  { intros d H.
    assert (d = 0 \/ d = 1 \/ d = 2 \/ d = 3 \/ d = 4 \/ d = 5 \/ d = 6 \/
            d = 7 \/ d = 8 \/ d = 9 \/ d = 10 \/ d = 11 \/ d = 12 \/ d = 13 \/
            d = 14 \/ d = 15) as Hcases by lia.
    repeat (destruct Hcases as [-> | Hcases]; [vm_compute; intuition discriminate |]).
    subst d. vm_compute; intuition discriminate. }
  repeat (constructor; [apply Hd, Z.mod_pos_bound; lia |]).
  constructor.
Qed.

(** X4.  The array that [encodeFrame] checksums always has an odd number
    of bytes: the second EOF is pushed when the length after the first
    EOF is even, which makes it odd.  The frame is that array and four
    more bytes, so it is odd too, and never shorter than 7 bytes. *)
Theorem encodeFrame_length (type : Z) (data : list Z) :
  Nat.odd (length (frame_body type data)) = true
  /\ length (encodeFrame type data) = (length (frame_body type data) + 4)%nat
  /\ Nat.odd (length (encodeFrame type data)) = true
  /\ (length (escape_loop data) + 7 <= length (encodeFrame type data)
      <= length (escape_loop data) + 8)%nat.
Proof.
  destruct (frame_body_shape type data) as (eofs & Heofs & Hbody & Hodd).
  assert (Hlen : length (encodeFrame type data)
                 = (length (frame_body type data) + 4)%nat).
  { rewrite encodeFrame_checksum, length_app. unfold JS.Buffer_from.
    rewrite length_map. now rewrite (proj1 (hex4_chars _)). }
  split; [exact Hodd |]. split; [exact Hlen |]. split.
  - rewrite Hlen. replace (length (frame_body type data) + 4)%nat
      with (length (frame_body type data) + 2 + 2)%nat by lia.
    rewrite !Nat.odd_add_even by (exists 1%nat; reflexivity). exact Hodd.
  - rewrite Hlen, Hbody, length_app. cbn [length].
    destruct Heofs as [-> | ->]; cbn [length]; lia.
Qed.

(** X5.  The checksum field that [encodeFrame] appends is always exactly
    four characters among 0-9 and A-F, whatever numbers the type and the
    payload hold: the value computed is a 16-bit number, written in
    upper-case hexadecimal and padded with zeros. *)
Theorem encodeFrame_checksum_field (type : Z) (data : list Z) :
  exists cs,
    encodeFrame type data = JS.Buffer_from (frame_body type data) ++ cs
    /\ cs = JS.charCodes
              (checksumStr
                 (calculateChecksum (JS.Buffer_from (frame_body type data))))
    /\ length cs = 4%nat
    /\ Forall (fun b => 48 <= b <= 57 \/ 65 <= b <= 70) cs.
Proof.
  eexists. split; [apply encodeFrame_checksum |].
  rewrite checksumStr_hex4 by apply calculateChecksum_range.
  split; [reflexivity |]. apply hex4_chars.
Qed.

(** X6.  The folding loop of [calculateChecksum] ends within three rounds
    whatever the sum is, so that more rounds change nothing, and the
    checksum is a 16-bit number for every array of numbers. *)
Theorem calculateChecksum_folds (data : list Z) (rounds : nat) :
  JS.shr (fold_loop 3 (sum_loop data 0)) 16 = 0
  /\ JS.band (JS.bnot (fold_loop (3 + rounds) (sum_loop data 0))) 0xFFFF
     = calculateChecksum data
  /\ 0 <= calculateChecksum data < 65536.
Proof.
  split; [apply fold_loop_exits |]. split.
  - now rewrite fold_loop_more.
  - apply calculateChecksum_range.
Qed.

Lemma toString_ascii_whole (cs : list Z) :
  length cs = 4%nat ->
  JS.toString_ascii cs 0 4
  = string_of_list_ascii (map (fun b => JS.fromCharCode (Z.land b 127)) cs).
Proof.
  intros H. unfold JS.toString_ascii, JS.slice.
  change (Z.to_nat 0) with 0%nat. rewrite drop_0.
  now rewrite take_ge by (rewrite H; reflexivity).
Qed.

Lemma toString_ascii_suffix (pre cs : list Z) :
  length cs = 4%nat ->
  JS.toString_ascii (pre ++ cs) (Z.of_nat (length pre))
    (Z.of_nat (length pre) + 4)
  = JS.toString_ascii cs 0 4.
Proof.
  intros H. rewrite (toString_ascii_whole cs H). unfold JS.toString_ascii.
  now rewrite slice_suffix by (rewrite H; reflexivity).
Qed.

(** Decoding a frame as it travels, whatever its four checksum bytes. *)
Lemma decodeFrame_wire (type : Z) (payload : list Z) (double : bool)
    (cs : list Z) :
  Spec.is_byte type ->
  Forall Spec.is_byte payload ->
  EOF ∉ payload ->
  length cs = 4%nat ->
  (double = false -> JS.at_is cs 0 EOF = false) ->
  payload <> [] \/ double = true ->
  decodeFrame (Spec.wire_frame type payload double cs)
  = inr {| type_ := JS.fromCharCode type;
           data_ := payload;
           checksum_ := JS.toUpperCase (JS.toString_ascii cs 0 4);
           valid_ :=
             String.eqb (JS.toUpperCase (JS.toString_ascii cs 0 4))
               (Spec.hex4
                  (calculateChecksum (Spec.wire_body type payload double))) |}.
Proof.
  intros Htype Hbytes Hno Hcs Hc1 Hne.
  set (esc := escape_loop payload).
  set (eofs := if double then [EOF] else []).
  set (A := SOF :: type :: esc).
  set (body := Spec.wire_body type payload double).
  set (buffer := Spec.wire_frame type payload double cs).
  assert (Hbody : body = A ++ EOF :: eofs) by reflexivity.
  assert (Hbuf : buffer = A ++ EOF :: (eofs ++ cs)) by reflexivity.
  assert (Hbc : buffer = body ++ cs)
    by (rewrite Hbuf, Hbody, <- app_assoc; reflexivity).
  assert (Hesc : payload <> [] -> (1 <= length esc)%nat).
  { unfold esc. destruct payload as [| b l]; [congruence |]. intros _.
    cbn [escape_loop]. destruct (needsEscape b); cbn [length]; lia. }
  assert (Heofs : length eofs = if double then 1%nat else 0%nat)
    by (unfold eofs; now destruct double).
  assert (HA : Z.of_nat (length A) = 2 + Z.of_nat (length esc))
    by (unfold A; cbn [length]; lia).
  assert (Hlen : Z.of_nat (length buffer)
                 = Z.of_nat (length A) + 1 + Z.of_nat (length eofs) + 4).
  { rewrite Hbuf, length_app. cbn [length]. rewrite length_app, Hcs. lia. }
  assert (Hlen8 : 8 <= Z.of_nat (length buffer)).
  { rewrite Hlen, HA, Heofs. destruct Hne as [Hne | ->].
    - specialize (Hesc Hne). destruct double; lia.
    - lia. }
  assert (Hend : JS.indexOf buffer EOF 2 = Z.of_nat (length A)).
  { unfold JS.indexOf. rewrite Hbuf. unfold A.
    change (Z.to_nat 2) with 2%nat. cbn [drop app].
    rewrite drop_0, indexOf_go_first by (apply escape_loop_no_EOF, Hno).
    cbn [length]. lia. }
  assert (Hloop : decode_loop (JS.slice buffer 2 (Z.of_nat (length buffer) - 4))
                    false [] = payload).
  { unfold JS.slice. rewrite Hbuf. change (Z.to_nat 2) with 2%nat.
    replace (Z.to_nat (Z.of_nat (length (A ++ EOF :: eofs ++ cs)) - 4))
      with (length (A ++ EOF :: eofs))
      by (rewrite !length_app; cbn [length]; rewrite length_app, Hcs; lia).
    replace (A ++ EOF :: eofs ++ cs) with ((A ++ EOF :: eofs) ++ cs)
      by (rewrite <- app_assoc; reflexivity).
    rewrite take_app_length. unfold A. cbn [app drop]. rewrite drop_0.
    apply (decode_loop_escape_loop payload eofs []). exact Hno. }
  assert (Hdouble : JS.at_is buffer (Z.of_nat (length A) + 1) EOF = double).
  { unfold JS.at_is, JS.at_.
    destruct (Z.ltb_spec (Z.of_nat (length A) + 1) 0); [lia |].
    replace (Z.to_nat (Z.of_nat (length A) + 1)) with (length A + 1)%nat by lia.
    rewrite Hbuf. rewrite lookup_app_r by lia.
    replace (length A + 1 - length A)%nat with 1%nat by lia.
    unfold eofs. destruct double; cbn [app lookup list_lookup].
    - reflexivity.
    - specialize (Hc1 eq_refl). unfold JS.at_is, JS.at_ in Hc1. cbn in Hc1.
      exact Hc1. }
  assert (Hpre_len : Z.of_nat (length body)
                     = Z.of_nat (length A) + (if double then 2 else 1)).
  { rewrite Hbody, length_app. cbn [length]. rewrite Heofs.
    destruct double; lia. }
  assert (Hpre : Forall Spec.is_byte body).
  { rewrite Hbody. apply Forall_app. split.
    - constructor; [unfold Spec.is_byte, SOF; lia |].
      constructor; [exact Htype | apply escape_loop_bytes, Hbytes].
    - unfold eofs. destruct double; repeat constructor;
        unfold Spec.is_byte, EOF; lia. }
  unfold decodeFrame.
  destruct (Z.ltb_spec (Z.of_nat (length buffer)) 8); [lia |].
  assert (Hsof : JS.at_is buffer 0 SOF = true) by (rewrite Hbuf; reflexivity).
  rewrite Hsof. cbn [negb].
  assert (Htype' : JS.at_ buffer 1 = Some type) by (rewrite Hbuf; reflexivity).
  rewrite Htype'. cbn [default]. rewrite Hloop, Hend, Hdouble.
  rewrite (Buffer_from_bytes _ Hbytes).
  assert (Hstart : (if double then Z.of_nat (length A) + 2
                    else Z.of_nat (length A) + 1)
                   = Z.of_nat (length body))
    by (rewrite Hpre_len; now destruct double).
  rewrite Hstart, <- Hpre_len. rewrite Hbc.
  rewrite (toString_ascii_suffix body cs Hcs), slice_prefix.
  rewrite checksumStr_hex4 by apply calculateChecksum_range.
  reflexivity.
Qed.

Lemma hex4_provided (v : Z) :
  JS.toUpperCase (JS.toString_ascii (JS.charCodes (Spec.hex4 v)) 0 4)
  = Spec.hex4 v.
Proof.
  pose proof (provided_checksum [] v) as H. cbn [app length] in H. exact H.
Qed.

Lemma hex4_not_EOF (v : Z) :
  JS.at_is (JS.charCodes (Spec.hex4 v)) 0 EOF = false.
Proof.
  unfold Spec.hex4. cbn [string_of_list_ascii JS.charCodes].
  unfold JS.at_is. cbn.
  apply Z.eqb_neq, hex_upper_char, Z.mod_pos_bound. lia.
Qed.

(** X1.  Decoding what [encodeFrame] wrote gives the type and the payload
    back, with a valid checksum, for every payload of bytes that is not
    empty and holds no 0x3C. *)
Theorem encodeFrame_decodeFrame_roundtrip (type : Z) (payload : list Z) :
  Spec.is_byte type ->
  Forall Spec.is_byte payload ->
  payload <> [] ->
  EOF ∉ payload ->
  exists checksum,
    decodeFrame (encodeFrame type payload)
    = inr {| type_ := JS.fromCharCode type; data_ := payload;
             checksum_ := checksum; valid_ := true |}
    /\ JS.charCodes checksum = drop (length (frame_body type payload))
                                 (encodeFrame type payload).
Proof.
  intros Htype Hbytes Hne Hno. eexists. split.
  - apply frame_roundtrip_without_EOF; assumption.
  - destruct (frame_body_shape type payload) as (eofs & Heofs & Hbody & _).
    assert (Hpre : Forall Spec.is_byte (frame_body type payload)).
    { rewrite Hbody. apply Forall_app. split.
      - constructor; [unfold Spec.is_byte, SOF; lia |].
        constructor; [exact Htype | apply escape_loop_bytes, Hbytes].
      - destruct Heofs as [-> | ->]; repeat constructor;
          unfold Spec.is_byte, EOF; lia. }
    rewrite encodeFrame_checksum, (Buffer_from_bytes _ Hpre).
    now rewrite drop_app_length.
Qed.

(** X2.  [decodeFrame] reads a frame with one EOF or with two: for a
    payload of bytes without 0x3C it returns the type and the payload,
    and [valid] tells whether the four checksum characters, taken as
    7-bit characters and upper-cased, are the checksum of the bytes
    before them.  The empty payload is read when the frame has two EOF.
    A wrong checksum is reported in [valid] and nowhere else. *)
Theorem decodeFrame_wire_frame (type : Z) (payload : list Z) (double : bool)
    (cs : list Z) :
  Spec.is_byte type ->
  Forall Spec.is_byte payload ->
  EOF ∉ payload ->
  length cs = 4%nat ->
  (double = false -> JS.at_is cs 0 EOF = false) ->
  payload <> [] \/ double = true ->
  exists d,
    decodeFrame (Spec.wire_frame type payload double cs) = inr d
    /\ type_ d = JS.fromCharCode type
    /\ data_ d = payload
    /\ checksum_ d = JS.toUpperCase (JS.toString_ascii cs 0 4)
    /\ (valid_ d = true <->
        checksum_ d
        = checksumStr (calculateChecksum (Spec.wire_body type payload double))).
Proof.
  intros Htype Hbytes Hno Hcs Hc1 Hne. eexists. split.
  - apply decodeFrame_wire; assumption.
  - cbn [type_ data_ checksum_ valid_].
    rewrite checksumStr_hex4 by apply calculateChecksum_range.
    split; [reflexivity |]. split; [reflexivity |]. split; [reflexivity |].
    apply String.eqb_eq.
Qed.

(** X7.  Decoding what [encodeFrame] wrote gives, for every payload of
    bytes that is not empty, the payload up to its first 0x3C: the
    decoder stops at that byte although the encoder escaped it. *)
Theorem decodeFrame_encodeFrame_data (type : Z) (payload : list Z) :
  Spec.is_byte type ->
  Forall Spec.is_byte payload ->
  payload <> [] ->
  exists d,
    decodeFrame (encodeFrame type payload) = inr d
    /\ type_ d = JS.fromCharCode type
    /\ data_ d = Spec.before_EOF payload.
Proof.
  intros Htype Hbytes Hne.
  destruct (frame_body_shape type payload) as (eofs & Heofs & Hbody & _).
  assert (Hpre : Forall Spec.is_byte (frame_body type payload)).
  { rewrite Hbody. apply Forall_app. split.
    - constructor; [unfold Spec.is_byte, SOF; lia |].
      constructor; [exact Htype | apply escape_loop_bytes, Hbytes].
    - destruct Heofs as [-> | ->]; repeat constructor;
        unfold Spec.is_byte, EOF; lia. }
  rewrite encodeFrame_checksum, (Buffer_from_bytes _ Hpre).
  set (cs := JS.charCodes (Spec.hex4 (calculateChecksum (frame_body type payload)))).
  assert (Hcs : length cs = 4%nat) by reflexivity.
  set (esc := escape_loop payload) in *.
  assert (Hesc : (1 <= length esc)%nat).
  { unfold esc. destruct payload as [| b l]; [congruence |].
    cbn [escape_loop]. destruct (needsEscape b); cbn [length]; lia. }
  set (buffer := frame_body type payload ++ cs).
  assert (Hbuf : buffer = SOF :: type :: (esc ++ EOF :: eofs) ++ cs).
  { unfold buffer. rewrite Hbody. cbn [app]. now rewrite <- !app_assoc. }
  assert (Hlen : length buffer = (2 + length (esc ++ EOF :: eofs) + 4)%nat).
  { rewrite Hbuf. cbn [length]. rewrite length_app, Hcs. lia. }
  assert (Hlen8 : 8 <= Z.of_nat (length buffer)).
  { rewrite Hlen, length_app. cbn [length]. lia. }
  assert (Hloop : decode_loop (JS.slice buffer 2 (Z.of_nat (length buffer) - 4))
                    false [] = Spec.before_EOF payload).
  { unfold JS.slice. change (Z.to_nat 2) with 2%nat.
    replace (Z.to_nat (Z.of_nat (length buffer) - 4))
      with (S (S (length (esc ++ EOF :: eofs)))) by lia.
    rewrite Hbuf. cbn [take drop]. rewrite drop_0, take_app_length.
    apply (decode_loop_before_EOF payload eofs []). }
  unfold decodeFrame.
  destruct (Z.ltb_spec (Z.of_nat (length buffer)) 8); [lia |].
  assert (Hsof : JS.at_is buffer 0 SOF = true) by (rewrite Hbuf; reflexivity).
  rewrite Hsof. cbn [negb].
  assert (Htype' : JS.at_ buffer 1 = Some type) by (rewrite Hbuf; reflexivity).
  rewrite Htype'. cbn [default]. rewrite Hloop.
  eexists. split; [reflexivity |]. cbn [type_ data_].
  split; [reflexivity |]. apply Buffer_from_bytes.
  clear -Hbytes. induction Hbytes as [| b l Hb _ IH]; cbn [Spec.before_EOF].
  - constructor.
  - destruct (b =? EOF); constructor; assumption.
Qed.

Lemma at_is_lookup (buf : list Z) (v : Z) :
  JS.at_is buf 0 v = true <-> buf !! 0%nat = Some v.
Proof.
  unfold JS.at_is, JS.at_. change (0 <? 0) with false.
  change (Z.to_nat 0) with 0%nat. cbv iota.
  destruct buf as [| b l]; cbn [lookup list_lookup].
  - split; discriminate.
  - rewrite Z.eqb_eq. split; congruence.
Qed.

(** X8.  [decodeFrame] throws in two cases only: a buffer shorter than 8
    bytes is too short, and a longer one that does not begin with SOF has
    an invalid start.  Every other buffer is decoded; when it holds no
    0x3C from index 2 on, the result is reported as not valid. *)
Theorem decodeFrame_errors (buffer : list Z) :
  (decodeFrame buffer = inl FrameTooShort <-> (length buffer < 8)%nat)
  /\ (decodeFrame buffer = inl InvalidStartOfFrame <->
      (8 <= length buffer)%nat /\ buffer !! 0%nat <> Some SOF)
  /\ ((8 <= length buffer)%nat -> buffer !! 0%nat = Some SOF ->
      exists d, decodeFrame buffer = inr d
                /\ (JS.indexOf buffer EOF 2 = -1 -> valid_ d = false)).
Proof.
  unfold decodeFrame.
  destruct (Z.ltb_spec (Z.of_nat (length buffer)) 8) as [Hs | Hl].
  - split; [split; [lia | reflexivity] |].
    split; [split; [discriminate | lia] | lia].
  - destruct (JS.at_is buffer 0 SOF) eqn:Hsof; cbn [negb].
    + apply at_is_lookup in Hsof.
      split; [split; [discriminate | lia] |].
      split; [split; [discriminate | intros [_ H]; contradiction] |].
      intros _ _. eexists. split; [reflexivity |]. cbn [valid_].
      intros ->. cbn [Z.add].
      assert (Hd : JS.at_is buffer (-1 + 1) EOF = false).
      { change (-1 + 1) with 0. destruct (JS.at_is buffer 0 EOF) eqn:E; [| reflexivity].
        apply at_is_lookup in E. rewrite Hsof in E. discriminate E. }
      rewrite Hd. change (-1 + 1) with 0.
      destruct buffer as [| b l]; [discriminate Hsof |].
      injection Hsof as ->.
      unfold JS.toString_ascii, JS.slice. change (Z.to_nat 0) with 0%nat.
      change (Z.to_nat (0 + 4)) with 4%nat. cbn [take drop].
      cbn [map string_of_list_ascii JS.toUpperCase].
      replace (checksumStr (calculateChecksum [])) with "FFFF"%string
        by (vm_compute; reflexivity).
      replace (JS.upper (JS.fromCharCode (Z.land SOF 127))) with ">"%char
        by (vm_compute; reflexivity).
      reflexivity.
    + split; [split; [discriminate | lia] |].
      assert (Hne : buffer !! 0%nat <> Some SOF).
      { intros H. apply at_is_lookup in H. congruence. }
      split; [split; [intros _; split; [lia | exact Hne] | reflexivity] |].
      intros _ H. contradiction.
Qed.



(** *** The frame codec at concrete inputs *)

Lemma encodeFrame_decodeFrame_roundtrip_witness :
  Forall Spec.is_byte [0x00; 0xFF; 0x3E; 0x5C; 0x41]
  /\ (EOF ∉ [0x00; 0xFF; 0x3E; 0x5C; 0x41])
  /\ exists checksum,
       decodeFrame (encodeFrame 0x43 [0x00; 0xFF; 0x3E; 0x5C; 0x41])
       = inr {| type_ := "C"; data_ := [0x00; 0xFF; 0x3E; 0x5C; 0x41];
                checksum_ := checksum; valid_ := true |}
       /\ JS.charCodes checksum
          = drop (length (frame_body 0x43 [0x00; 0xFF; 0x3E; 0x5C; 0x41]))
              (encodeFrame 0x43 [0x00; 0xFF; 0x3E; 0x5C; 0x41]).
Proof.
  assert (Hb : Forall Spec.is_byte [0x00; 0xFF; 0x3E; 0x5C; 0x41])
    by (repeat (constructor; [unfold Spec.is_byte; lia |]); constructor).
  assert (Hno : EOF ∉ [0x00; 0xFF; 0x3E; 0x5C; 0x41]).
  { rewrite list_elem_of_In. cbn. intros H.
    repeat (destruct H as [H | H]; [discriminate H |]). exact H. }
  split; [exact Hb |]. split; [exact Hno |].
  apply (encodeFrame_decodeFrame_roundtrip 0x43 [0x00; 0xFF; 0x3E; 0x5C; 0x41]).
  - unfold Spec.is_byte. lia.
  - exact Hb.
  - discriminate.
  - exact Hno.
Defined.

Lemma decodeFrame_wire_frame_witness :
  Spec.wire_frame 0x50 [] true (JS.charCodes "8573")
  = [0x3E; 0x50; 0x3C; 0x3C; 56; 53; 55; 51]
  /\ exists d,
       decodeFrame [0x3E; 0x50; 0x3C; 0x3C; 56; 53; 55; 51] = inr d
       /\ type_ d = "P"%char
       /\ data_ d = []
       /\ checksum_ d = "8573"%string
       /\ (valid_ d = true <->
           checksum_ d
           = checksumStr (calculateChecksum (Spec.wire_body 0x50 [] true))).
Proof.
  split; [reflexivity |].
  apply (decodeFrame_wire_frame 0x50 [] true (JS.charCodes "8573")).
  - unfold Spec.is_byte. lia.
  - constructor.
  - apply not_elem_of_nil.
  - reflexivity.
  - discriminate.
  - right. reflexivity.
Defined.

Lemma decodeFrame_encodeFrame_data_witness :
  Forall Spec.is_byte [0x41; 0x3C; 0x42]
  /\ Spec.before_EOF [0x41; 0x3C; 0x42] = [0x41]
  /\ exists d,
       decodeFrame (encodeFrame 0x43 [0x41; 0x3C; 0x42]) = inr d
       /\ type_ d = "C"%char
       /\ data_ d = Spec.before_EOF [0x41; 0x3C; 0x42].
Proof.
  assert (Hb : Forall Spec.is_byte [0x41; 0x3C; 0x42])
    by (repeat (constructor; [unfold Spec.is_byte; lia |]); constructor).
  split; [exact Hb |]. split; [reflexivity |].
  apply (decodeFrame_encodeFrame_data 0x43 [0x41; 0x3C; 0x42]).
  - unfold Spec.is_byte. lia.
  - exact Hb.
  - discriminate.
Defined.

(* ===================================================================== *)
(** ** Further properties of the CoAP messages                            *)
(* ===================================================================== *)

Lemma encodeOptionHeader_fields (delta len : Z) :
  0 <= delta < 65805 -> 0 <= len < 65805 ->
  encodeOptionHeader delta len
  = [Spec.nibble delta * 16 + Spec.nibble len]
    ++ Spec.ext_bytes delta ++ Spec.ext_bytes len.
Proof.
  intros Hd Hl. unfold encodeOptionHeader, Spec.nibble, Spec.ext_bytes.
  assert (Hext : forall x, 269 <= x < 65805 ->
            [JS.band (JS.shr (x - 269) 8) 0xFF; JS.band (x - 269) 0xFF]
            = [(x - 269) / 256; (x - 269) mod 256]).
  { intros x Hx. rewrite !band_FF, shr_8.
    rewrite (ToInt32_id (x - 269)) by lia.
    rewrite ToInt32_id by (Z.div_mod_to_equations; lia).
    rewrite (Z.mod_small ((x - 269) / 256)) by (Z.div_mod_to_equations; lia).
    reflexivity. }
  destruct (Z.ltb_spec delta 13); [| destruct (Z.ltb_spec delta 269)];
    (destruct (Z.ltb_spec len 13); [| destruct (Z.ltb_spec len 269)]);
    repeat match goal with
           | |- context [13 <=? ?x] => destruct (Z.leb_spec 13 x); try lia
           | |- context [269 <=? ?x] => destruct (Z.leb_spec 269 x); try lia
           end;
    cbn [andb]; rewrite ?Hext by lia; rewrite bor_shl_4 by lia; reflexivity.
Qed.

Lemma ext_value_ext_bytes (x : Z) (rest : list Z) :
  0 <= x < 65805 ->
  Spec.ext_value (Spec.nibble x) (Spec.ext_bytes x ++ rest) = Some (x, rest).
Proof.
  intros Hx. unfold Spec.ext_value, Spec.nibble, Spec.ext_bytes.
  destruct (Z.ltb_spec x 13) as [H13 | H13].
  - rewrite (proj2 (Z.ltb_lt x 13) H13). reflexivity.
  - destruct (Z.ltb_spec x 269) as [H269 | H269]; cbn [app Z.ltb Z.eqb Z.compare Pos.compare Pos.compare_cont].
    + do 2 f_equal. lia.
    + do 2 f_equal. Z.div_mod_to_equations. lia.
Qed.

Lemma nibble_range (x : Z) : 0 <= x -> 0 <= Spec.nibble x < 15.
Proof.
  intros Hx. unfold Spec.nibble.
  destruct (Z.ltb_spec x 13); [| destruct (Z.ltb_spec x 269)]; lia.
Qed.

Lemma ext_bytes_bytes (x : Z) :
  0 <= x < 65805 -> Forall Spec.is_byte (Spec.ext_bytes x).
Proof.
  intros Hx. unfold Spec.ext_bytes, Spec.is_byte.
  destruct (Z.ltb_spec x 13); [| destruct (Z.ltb_spec x 269)];
    repeat (constructor; [Z.div_mod_to_equations; lia |]); constructor.
Qed.

(** X10.  An option header written by [encodeOptionHeader] reads back as
    the delta and the length it was written for, for all values up to
    65804 (the one-byte and the two-byte extensions included); it is made
    of bytes, and it is 1 to 5 bytes long. *)
Theorem encodeOptionHeader_roundtrip (delta len : Z) (rest : list Z) :
  0 <= delta < 65805 ->
  0 <= len < 65805 ->
  Spec.decode_header (encodeOptionHeader delta len ++ rest)
  = Some (delta, len, rest)
  /\ Forall Spec.is_byte (encodeOptionHeader delta len)
  /\ length (encodeOptionHeader delta len)
     = (1 + length (Spec.ext_bytes delta) + length (Spec.ext_bytes len))%nat.
Proof.
  intros Hd Hl. rewrite (encodeOptionHeader_fields delta len Hd Hl).
  pose proof (nibble_range delta ltac:(lia)) as Hnd.
  pose proof (nibble_range len ltac:(lia)) as Hnl.
  split; [| split].
  - cbn [app Spec.decode_header].
    replace ((Spec.nibble delta * 16 + Spec.nibble len) / 16)
      with (Spec.nibble delta) by (Z.div_mod_to_equations; lia).
    replace ((Spec.nibble delta * 16 + Spec.nibble len) mod 16)
      with (Spec.nibble len) by (Z.div_mod_to_equations; lia).
    rewrite <- app_assoc, (ext_value_ext_bytes delta _ Hd).
    now rewrite (ext_value_ext_bytes len _ Hl).
  - apply Forall_app. split; [constructor; [unfold Spec.is_byte; lia | constructor] |].
    apply Forall_app. split; apply ext_bytes_bytes; assumption.
  - cbn [app length]. rewrite length_app. lia.
Qed.

Lemma encodeOptionHeader_roundtrip_witness :
  encodeOptionHeader 11 300 = [0xBE; 0x00; 0x1F]
  /\ Spec.decode_header (encodeOptionHeader 11 300 ++ [0x41])
     = Some (11, 300, [0x41])
  /\ Forall Spec.is_byte (encodeOptionHeader 11 300)
  /\ length (encodeOptionHeader 11 300)
     = (1 + length (Spec.ext_bytes 11) + length (Spec.ext_bytes 300))%nat.
Proof.
  split; [reflexivity |].
  apply (encodeOptionHeader_roundtrip 11 300 [0x41]); lia.
Defined.

Lemma find_payloadStart_app (opts rest : list Z) (i len : Z) :
  Forall (fun b => 0 <= b < 255) opts ->
  find_payloadStart (opts ++ rest) i len
  = find_payloadStart rest (i + Z.of_nat (length opts)) len.
Proof.
  intros H. revert i. induction H as [| b l Hb _ IH]; intros i.
  - cbn [app length]. f_equal. lia.
  - cbn [app find_payloadStart length].
    destruct (Z.eqb_spec b 255); [lia |]. rewrite IH. f_equal. lia.
Qed.

Lemma find_payloadStart_absent (bytes : list Z) (i len : Z) :
  255 ∉ bytes -> find_payloadStart bytes i len = len.
Proof.
  revert i. induction bytes as [| b l IH]; intros i H; [reflexivity |].
  apply not_elem_of_cons in H as [Hb Hl]. cbn [find_payloadStart].
  destruct (Z.eqb_spec b 255); [congruence |]. now apply IH.
Qed.

Lemma find_payloadStart_first (pre rest : list Z) (i len : Z) :
  255 ∉ pre ->
  find_payloadStart (pre ++ 255 :: rest) i len = i + Z.of_nat (length pre) + 1.
Proof.
  revert i. induction pre as [| b l IH]; intros i H.
  - cbn. lia.
  - apply not_elem_of_cons in H as [Hb Hl]. cbn [app find_payloadStart length].
    destruct (Z.eqb_spec b 255); [congruence |]. rewrite IH by exact Hl. lia.
Qed.

Section MessageProperties.

Context {V : Type}.
Variable cborEncode : V -> list Z.
Variable cborDecode : list Z -> option V.

Lemma buildMessage_bytes (methodCode : Z) (uri : string)
    (pl : Payload (V:=V)) (mid : Z) :
  0 <= methodCode < 256 ->
  0 <= mid < 65536 ->
  Forall Spec.is_byte (encodeOptions uri) ->
  buildMessage cborEncode methodCode uri pl mid
  = [64; methodCode; mid / 256; mid mod 256] ++ encodeOptions uri
    ++ match Spec.payload_bytes cborEncode pl with
       | None => []
       | Some b => 255 :: JS.Buffer_from b
       end.
Proof.
  intros Hcode Hmid Hopts. unfold buildMessage. rewrite !Buffer_from_app.
  rewrite (Buffer_from_bytes (encodeOptions uri)) by exact Hopts.
  assert (Hhi : JS.band (JS.shr mid 8) 0xFF mod 256 = mid / 256).
  { rewrite band_FF, shr_8. rewrite (ToInt32_id mid) by lia.
    rewrite ToInt32_id by (Z.div_mod_to_equations; lia).
    rewrite Z.mod_mod by lia. apply Z.mod_small.
    Z.div_mod_to_equations. lia. }
  assert (Hlo : JS.band mid 0xFF mod 256 = mid mod 256).
  { rewrite band_FF. rewrite (ToInt32_id mid) by lia.
    apply Z.mod_mod. lia. }
  cbn [JS.Buffer_from map app]. rewrite Hhi, Hlo.
  change (JS.bor (JS.bor (JS.shl 1 6) (JS.shl 0 4)) 0 mod 256) with 64.
  rewrite (Z.mod_small methodCode) by lia.
  do 4 f_equal. destruct pl; reflexivity.
Qed.

(** X11.  [parseResponse] reads a message built by [buildMessage] back:
    version 1, type 0, the code and the message-ID that were given, and
    the payload that [cborDecode] makes of the bytes after the marker
    ([null] when there was no payload or an empty one).  The options may
    hold no byte 0xFF, which the parser would take for the payload
    marker. *)
Theorem parseResponse_buildMessage (methodCode : Z) (uri : string)
    (pl : Payload (V:=V)) (mid : Z) :
  0 <= methodCode < 256 ->
  0 <= mid < 65536 ->
  Forall (fun b => 0 <= b < 255) (encodeOptions uri) ->
  parseResponse cborDecode (buildMessage cborEncode methodCode uri pl mid)
  = inr {| version := 1; type := 0; code := methodCode; r_messageId := mid;
           payload :=
             match Spec.payload_bytes cborEncode pl with
             | None => Null
             | Some b => Spec.received cborDecode (JS.Buffer_from b)
             end;
           codeClass := methodCode / 32;
           codeName := codeName_of methodCode |}.
Proof.
  intros Hcode Hmid Hopts.
  assert (Hob : Forall Spec.is_byte (encodeOptions uri)).
  { eapply Forall_impl; [exact Hopts |]. unfold Spec.is_byte. cbn. lia. }
  rewrite (buildMessage_bytes methodCode uri pl mid Hcode Hmid Hob).
  assert (Hhi : Spec.is_byte (mid / 256))
    by (unfold Spec.is_byte; Z.div_mod_to_equations; lia).
  assert (Hlo : Spec.is_byte (mid mod 256))
    by (unfold Spec.is_byte; Z.div_mod_to_equations; lia).
  assert (Hword : mid = mid / 256 * 256 + mid mod 256)
    by (Z.div_mod_to_equations; lia).
  set (opts := encodeOptions uri) in *.
  set (body := match Spec.payload_bytes cborEncode pl with
               | None => []
               | Some b => 255 :: JS.Buffer_from b
               end).
  cbn [app].
  set (data := 64 :: methodCode :: mid / 256 :: mid mod 256 :: opts ++ body).
  assert (Hlen : Z.of_nat (length data)
                 = 4 + Z.of_nat (length opts) + Z.of_nat (length body)).
  { unfold data. cbn [length]. rewrite length_app. lia. }
  unfold parseResponse.
  destruct (Z.ltb_spec (Z.of_nat (length data)) 4) as [Hlt | _]; [lia |].
  change (JS.at_ data 0) with (Some 64).
  change (JS.at_ data 1) with (Some methodCode).
  change (JS.at_ data 2) with (Some (mid / 256)).
  change (JS.at_ data 3) with (Some (mid mod 256)).
  cbv [default from_option id].
  change (JS.band (JS.shr 64 6) 3) with 1.
  change (JS.band (JS.shr 64 4) 3) with 0.
  change (JS.band 64 15) with 0.
  rewrite (bor_word _ _ Hhi Hlo), <- Hword.
  change (4 + 0) with 4. change (Z.to_nat 4) with 4%nat.
  change (drop 4 data) with (opts ++ body).
  rewrite (find_payloadStart_app opts body 4 _ Hopts).
  do 2 f_equal.
  unfold body in *. destruct (Spec.payload_bytes cborEncode pl) as [b |].
  - cbn [find_payloadStart]. change (255 =? 255) with true. cbv iota.
    cbn [length] in Hlen.
    destruct (JS.Buffer_from b) as [| x enc] eqn:E.
    + cbn [length] in Hlen.
      destruct (Z.ltb_spec (4 + Z.of_nat (length opts) + 1)
                  (Z.of_nat (length data))); [lia | reflexivity].
    + cbn [length] in Hlen.
      destruct (Z.ltb_spec (4 + Z.of_nat (length opts) + 1)
                  (Z.of_nat (length data))); [| lia].
      replace (drop (Z.to_nat (4 + Z.of_nat (length opts) + 1)) data)
        with (x :: enc); [reflexivity |].
      unfold data. replace (Z.to_nat (4 + Z.of_nat (length opts) + 1))
        with (4 + (length opts + 1))%nat by lia.
      cbn [drop Nat.add].
      change (255 :: x :: enc) with ([255] ++ x :: enc).
      rewrite app_assoc, drop_app_length'; [reflexivity |].
      rewrite length_app. reflexivity.
  - cbn [find_payloadStart].
    destruct (Z.ltb_spec (Z.of_nat (length data)) (Z.of_nat (length data)));
      [lia | reflexivity].
Qed.

(** X12.  [parseResponse] throws on fewer than 4 bytes and on nothing
    else: version, type and token length are taken as they come.  The
    payload is [null] when no byte 0xFF follows the token (also when the
    token length points beyond the message), and when the first such byte
    is the last byte of the message. *)
Theorem parseResponse_edges (data : list Z) :
  (parseResponse cborDecode data = inl MessageTooShort
   <-> (length data < 4)%nat)
  /\ ((4 <= length data)%nat ->
      exists r,
        parseResponse cborDecode data = inr r
        /\ let offset :=
             Z.to_nat (4 + JS.band (default 0 (JS.at_ data 0)) 0x0F) in
           (255 ∉ drop offset data -> payload r = Null)
           /\ (forall pre, drop offset data = pre ++ [255] -> 255 ∉ pre ->
                 payload r = Null)).
Proof.
  unfold parseResponse.
  destruct (Z.ltb_spec (Z.of_nat (length data)) 4) as [Hlt | Hge].
  - split; [split; [lia | reflexivity] | lia].
  - split; [split; [discriminate | lia] |].
    intros _. eexists. split; [reflexivity |]. cbn [payload].
    set (offset := 4 + JS.band (default 0 (JS.at_ data 0)) 15).
    split.
    + intros Hno. rewrite (find_payloadStart_absent _ _ _ Hno).
      destruct (Z.ltb_spec (Z.of_nat (length data)) (Z.of_nat (length data)));
        [lia | reflexivity].
    + intros pre Hd Hno. rewrite Hd, (find_payloadStart_first pre [] _ _ Hno).
      assert (Hoff : 0 <= JS.band (default 0 (JS.at_ data 0)) 15).
      { unfold JS.band. apply Z.land_nonneg. right.
        rewrite ToInt32_id; lia. }
      assert (Hl : length (drop (Z.to_nat offset) data)
                   = (length pre + 1)%nat)
        by (rewrite Hd, length_app; reflexivity).
      rewrite length_drop in Hl.
      destruct (Z.ltb_spec (offset + Z.of_nat (length pre) + 1)
                  (Z.of_nat (length data))); [lia | reflexivity].
Qed.

End MessageProperties.

(* ===================================================================== *)
(** ** Further properties of the client                                   *)
(* ===================================================================== *)

Section ClientInvariants.

Context {V : Type}.
Variable cborEncode : V -> list Z.
Variable cborDecode : list Z -> option V.

(** *** Promises and timers *)

Lemma consistent_constructor (random : QArith_base.Q) :
  Spec.consistent (constructor (V:=V) random).
Proof.
  split; cbn [constructor pendingRequests timers settled nextHandle].
  - intros mid p H. rewrite lookup_empty in H. discriminate H.
  - intros h t H. rewrite lookup_empty in H. discriminate H.
  - intros w H. now apply elem_of_nil in H.
  - constructor.
Qed.

Lemma consistent_log (e : LogEntry) (c : Client (V:=V)) :
  Spec.consistent c -> Spec.consistent (log e c).
Proof. intros [Hp Ht Hs Hn]. split; assumption. Qed.

Lemma consistent_logs (es : list LogEntry) (c : Client (V:=V)) :
  Spec.consistent c -> Spec.consistent (logs es c).
Proof. intros [Hp Ht Hs Hn]. split; assumption. Qed.

Lemma consistent_set_receiveBuffer (buf : list Z) (c : Client (V:=V)) :
  Spec.consistent c -> Spec.consistent (set_receiveBuffer buf c).
Proof. intros [Hp Ht Hs Hn]. split; assumption. Qed.

Lemma consistent_request (method uri : string) (pl : Payload) (t : Z)
    (c : Client (V:=V)) :
  Spec.consistent c ->
  Spec.consistent (snd (request cborEncode method uri pl t c)).
Proof.
  intros [Hp Ht Hs Hn]. unfold request.
  destruct (METHODS (JS.toUpperCase method)) as [methodCode |]; cbn [snd];
    [| split; assumption].
  split; cbn [pendingRequests timers nextHandle settled].
  - intros mid p H. apply lookup_insert_Some in H as [[<- <-] | [Hne H]].
    + cbn [timeout waiter]. split; [reflexivity |].
      eexists. split; [apply lookup_insert_eq | reflexivity].
    + destruct (Hp _ _ H) as [Hto (t0 & Hl & Hmid)]. split; [exact Hto |].
      exists t0. split; [| exact Hmid].
      destruct (Ht _ _ Hl) as [_ Hlt].
      rewrite lookup_insert_ne by lia. exact Hl.
  - intros h t0 H. apply lookup_insert_Some in H as [[<- <-] | [Hne H]].
    + cbn [t_waiter]. split; [reflexivity | lia].
    + destruct (Ht _ _ H) as [Hw Hlt]. split; [exact Hw | lia].
  - intros w H. destruct (Hs _ H) as [Hnone Hlt]. split; [| lia].
    rewrite lookup_insert_ne by lia. exact Hnone.
  - exact Hn.
Qed.

(** Settling the promise of an armed timer, and disarming the timer. *)
Lemma consistent_settle (w : nat) (s : Settlement) (tm : Timer)
    (mid : Z) (c : Client (V:=V)) :
  Spec.consistent c ->
  timers c !! w = Some tm ->
  (forall m p, m <> mid -> pendingRequests c !! m = Some p -> waiter p <> w) ->
  Spec.consistent
    (settle w s
       (mkClient (messageId c) (delete mid (pendingRequests c))
          (receiveBuffer c) (delete w (timers c)) (nextHandle c) (written c)
          (settled c) (console c))).
Proof.
  intros [Hp Ht Hs Hn] Htm Hother.
  split; cbn [settle pendingRequests timers nextHandle settled].
  - intros m p H. apply lookup_delete_Some in H as [Hne H].
    destruct (Hp _ _ H) as [Hto (t0 & Hl & Hmid)]. split; [exact Hto |].
    exists t0. split; [| exact Hmid].
    rewrite lookup_delete_ne; [exact Hl |].
    intros E. apply (Hother m p); [congruence | exact H | now symmetry].
  - intros h t0 H. apply lookup_delete_Some in H as [_ H]. now apply Ht.
  - intros w0 H. rewrite fmap_app in H. apply elem_of_app in H as [H | H].
    + destruct (Hs _ H) as [Hnone Hlt]. split; [| exact Hlt].
      destruct (decide (w = w0)) as [-> | Hne].
      * apply lookup_delete_eq.
      * rewrite lookup_delete_ne by exact Hne. exact Hnone.
    + apply list_elem_of_singleton in H. cbn in H. subst w0.
      split; [apply lookup_delete_eq | now apply (Ht _ _ Htm)].
  - rewrite fmap_app. apply NoDup_app. split; [exact Hn |]. split.
    + intros x Hx Hx'. apply list_elem_of_singleton in Hx'. cbn in Hx'.
      subst x. destruct (Hs _ Hx) as [Hnone _]. congruence.
    + apply NoDup_singleton.
Qed.

Lemma consistent_fireTimeout (h : nat) (c : Client (V:=V)) :
  Spec.consistent c -> Spec.consistent (fireTimeout h c).
Proof.
  intros Hc. unfold fireTimeout.
  destruct (timers c !! h) as [t |] eqn:Htm; [| exact Hc].
  pose proof Hc as [Hp Ht Hs Hn]. destruct (Ht _ _ Htm) as [Hw Hlt].
  destruct (pendingRequests c !! t_mid t) as [p |] eqn:Hpend.
  - cbn [messageId pendingRequests receiveBuffer timers nextHandle written
          settled console]. rewrite Hw.
    apply (consistent_settle h _ t (t_mid t) c Hc Htm).
    intros m p0 Hne Hm E. destruct (Hp _ _ Hm) as [_ (t0 & Hl & Hmid)].
    rewrite E, Htm in Hl. injection Hl as <-. congruence.
  - split; cbn [pendingRequests timers nextHandle settled].
    + intros m p Hm. destruct (Hp _ _ Hm) as [Hto (t0 & Hl & Hmid)].
      split; [exact Hto |]. exists t0. split; [| exact Hmid].
      rewrite lookup_delete_ne; [exact Hl |].
      intros E. rewrite <- E, Htm in Hl. injection Hl as <-.
      rewrite Hmid in Hpend. congruence.
    + intros h0 t0 H. apply lookup_delete_Some in H as [_ H]. now apply Ht.
    + intros w H. destruct (Hs _ H) as [Hnone Hlt']. split; [| exact Hlt'].
      destruct (decide (h = w)) as [-> | Hne].
      * apply lookup_delete_eq.
      * rewrite lookup_delete_ne by exact Hne. exact Hnone.
    + exact Hn.
Qed.

Lemma consistent_handleCoapResponse (data : list Z) (c : Client (V:=V)) :
  Spec.consistent c -> Spec.consistent (handleCoapResponse cborDecode data c).
Proof.
  intros Hc. unfold handleCoapResponse.
  destruct (parseResponse cborDecode data) as [e | r];
    [now apply consistent_log |].
  cbv zeta. cbn [pendingRequests logs].
  destruct (pendingRequests c !! r_messageId r) as [p |] eqn:Hpend;
    [| now apply consistent_log, consistent_logs].
  pose proof Hc as [Hp Ht Hs Hn].
  destruct (Hp _ _ Hpend) as [Hto (t & Htm & Hmid)]. rewrite Hto.
  assert (Hother : forall m p0, m <> r_messageId r ->
            pendingRequests c !! m = Some p0 -> waiter p0 <> waiter p).
  { intros m p0 Hne Hm E. destruct (Hp _ _ Hm) as [_ (t0 & Hl & Hmid0)].
    rewrite E, Htm in Hl. injection Hl as <-. congruence. }
  pose proof (consistent_settle (waiter p) (Resolved (payload r)) t
                (r_messageId r) c Hc Htm Hother) as H1.
  pose proof (consistent_settle (waiter p)
                (Rejected (CoapError (codeName r) (code r) (payload r))) t
                (r_messageId r) c Hc Htm Hother) as H2.
  destruct (codeClass r =? 2);
    [destruct H1 as [Ap At As An] | destruct H2 as [Ap At As An]];
    split; assumption.
Qed.

Lemma consistent_dispatch (frameData : list Z) (c : Client (V:=V)) :
  Spec.consistent c -> Spec.consistent (dispatch cborDecode frameData c).
Proof.
  intros Hc. unfold dispatch.
  destruct (decodeFrame frameData) as [e | d]; [now apply consistent_log |].
  assert (Hc' : Spec.consistent
                  (if valid_ d then c
                   else log (WarnChecksumMismatch (checksum_ d)) c))
    by (destruct (valid_ d); [exact Hc | now apply consistent_log]).
  destruct (Ascii.eqb (type_ d) "C");
    [now apply consistent_handleCoapResponse |].
  destruct (Ascii.eqb (type_ d) "A"); [now apply consistent_log |].
  destruct (Ascii.eqb (type_ d) "T"); [now apply consistent_log |].
  exact Hc'.
Qed.

Lemma consistent_loop (fuel : nat) (c : Client (V:=V)) :
  Spec.consistent c -> Spec.consistent (handleData_loop cborDecode fuel c).
Proof.
  revert c. induction fuel as [| f IH]; intros c Hc; [exact Hc |].
  cbn [handleData_loop]. rewrite handleData_round_spec.
  destruct (Spec.resync (receiveBuffer c)) as [t |];
    [| now apply consistent_set_receiveBuffer].
  destruct (Spec.frame_split t) as [[frame rest] |];
    [| now apply consistent_set_receiveBuffer].
  apply IH, consistent_dispatch. now apply consistent_set_receiveBuffer.
Qed.

Lemma consistent_handleData (data : list Z) (c : Client (V:=V)) :
  Spec.consistent c -> Spec.consistent (handleData cborDecode data c).
Proof.
  intros Hc. unfold handleData.
  apply consistent_loop. now apply consistent_set_receiveBuffer.
Qed.

Lemma consistent_run (ops : list Op) (c : Client (V:=V)) :
  Spec.consistent c -> Spec.consistent (run cborEncode cborDecode ops c).
Proof.
  revert c. induction ops as [| op ops IH]; intros c Hc; [exact Hc |].
  cbn [run foldl]. apply IH. destruct op as [m u p t | d | h]; cbn [exec].
  - now apply consistent_request.
  - now apply consistent_handleData.
  - now apply consistent_fireTimeout.
Qed.

(** X13.  Whatever requests, data and timeouts a client goes through, no
    promise is settled twice.  A settled promise is one that [request]
    returned and its timer is not armed any more; the promise of a
    request that is still pending has not been settled, and its timer is
    armed. *)
Theorem promises_settled_once (random : QArith_base.Q) (ops : list Op) :
  let c := run cborEncode cborDecode ops (constructor random) in
  NoDup (settled c).*1
  /\ (forall w, w ∈ (settled c).*1 ->
        (w < nextHandle c)%nat /\ timers c !! w = None)
  /\ (forall mid p, pendingRequests c !! mid = Some p ->
        (waiter p ∉ (settled c).*1) /\ is_Some (timers c !! timeout p)).
Proof.
  cbv zeta.
  destruct (consistent_run ops _ (consistent_constructor random))
    as [Hp Ht Hs Hn].
  split; [exact Hn |]. split.
  - intros w H. destruct (Hs _ H). now split.
  - intros mid p H. destruct (Hp _ _ H) as [Hto (t & Hl & _)]. split.
    + intros Hin. destruct (Hs _ Hin) as [Hnone _]. congruence.
    + rewrite Hto, Hl. eauto.
Qed.

(** X14.  A request that no response answers ends with its timer: the
    promise is rejected with the timeout, the method and the URI of the
    call, and the entry leaves [pendingRequests].  A response for that
    message-ID that comes afterwards settles nothing: it is logged as
    unknown, after the warning of [parseResponse] when its payload was
    not valid CBOR. *)
Theorem request_times_out (method uri : string) (pl : Payload) (t : Z)
    (methodCode : Z) (c : Client (V:=V)) :
  METHODS (JS.toUpperCase method) = Some methodCode ->
  let h := nextHandle c in
  let c1 := snd (request cborEncode method uri pl t c) in
  let c2 := fireTimeout h c1 in
  fst (request cborEncode method uri pl t c) = inr h
  /\ settled c2 = settled c ++ [(h, Rejected (RequestTimeout t method uri))]
  /\ pendingRequests c2 = delete (messageId c) (pendingRequests c)
  /\ timers c2 = delete h (timers c)
  /\ written c2 = written c1
  /\ fireTimeout h c2 = c2
  /\ forall data r,
       parseResponse cborDecode data = inr r ->
       r_messageId r = messageId c ->
       let c3 := handleCoapResponse cborDecode data c2 in
       settled c3 = settled c2
       /\ pendingRequests c3 = pendingRequests c2
       /\ timers c3 = timers c2
       /\ written c3 = written c2
       /\ console c3
          = console c2 ++ Spec.decode_warning r
            ++ [WarnUnknownMessageId (messageId c)].
Proof.
  intros Hm. cbv zeta.
  set (h := nextHandle c). set (mid := messageId c).
  set (c1 := mkClient (if mid + 1 >? 0xFFFF then 1 else mid + 1)
               (<[mid := mkPending h h method uri]> (pendingRequests c))
               (receiveBuffer c)
               (<[h := mkTimer mid h t method uri]> (timers c))
               (S h)
               (written c
                ++ [createCoapFrame
                      (buildMessage cborEncode methodCode uri pl mid)])
               (settled c)
               (console c ++ [LogRequest method uri mid])).
  assert (Hreq : request cborEncode method uri pl t c = (inr h, c1))
    by (unfold request; rewrite Hm; reflexivity).
  rewrite Hreq. cbn [fst snd].
  set (c2 := mkClient (messageId c1) (delete mid (pendingRequests c))
               (receiveBuffer c) (delete h (timers c)) (S h) (written c1)
               (settled c ++ [(h, Rejected (RequestTimeout t method uri))])
               (console c1)).
  assert (Hc2 : fireTimeout h c1 = c2).
  { unfold fireTimeout, c1.
    cbn [timers pendingRequests messageId receiveBuffer nextHandle written
          settled console].
    rewrite lookup_insert_eq. cbn [t_mid t_waiter t_timeout t_method t_uri].
    rewrite lookup_insert_eq. unfold settle, c2, c1.
    cbn [timers pendingRequests messageId receiveBuffer nextHandle written
          settled console].
    now rewrite !delete_insert_eq. }
  rewrite Hc2.
  split; [reflexivity |]. split; [reflexivity |]. split; [reflexivity |].
  split; [reflexivity |]. split; [reflexivity |]. split.
  - unfold fireTimeout, c2. cbn [timers]. now rewrite lookup_delete_eq.
  - intros data r Hr Hmid. cbv zeta.
    rewrite (handleCoapResponse_inr cborDecode data r c2 Hr). cbv zeta.
    assert (Hnone : pendingRequests c2 !! r_messageId r = None)
      by (rewrite Hmid; unfold c2; cbn [pendingRequests]; fold mid;
          apply lookup_delete_eq).
    rewrite Hnone, Hmid. cbn [log logs settled pendingRequests timers written
                              console].
    split; [reflexivity |]. split; [reflexivity |]. split; [reflexivity |].
    split; [reflexivity |]. now rewrite <- app_assoc.
Qed.

(** X15.  [request] with a method that is not in the table throws before
    anything is sent, registered or logged, yet after the message-ID was
    taken: every such call moves the counter on by one step, so that the
    IDs of the calls that failed are never used on the wire. *)
Theorem request_unknown_method (bad : list string) (uri : string)
    (pl : Payload) (t : Z) (c : Client (V:=V)) :
  Forall (fun method => METHODS (JS.toUpperCase method) = None) bad ->
  let c' :=
    foldl (fun c method => snd (request cborEncode method uri pl t c)) c bad in
  Forall (fun method =>
            forall c0, fst (request cborEncode method uri pl t c0)
                       = inl UnknownMethod) bad
  /\ messageId c' = Nat.iter (length bad) Spec.next_mid (messageId c)
  /\ written c' = written c
  /\ pendingRequests c' = pendingRequests c
  /\ timers c' = timers c
  /\ nextHandle c' = nextHandle c
  /\ settled c' = settled c
  /\ console c' = console c.
Proof.
  intros Hbad. cbv zeta. split.
  - eapply Forall_impl; [exact Hbad |]. cbn. intros method Hm c0.
    unfold request. now rewrite Hm.
  - revert c. induction Hbad as [| method bad Hm _ IH]; intros c.
    + cbn. auto 10.
    + cbn [foldl length]. rewrite Nat.iter_succ_r.
      assert (Hstep : snd (request cborEncode method uri pl t c)
                      = mkClient (Spec.next_mid (messageId c))
                          (pendingRequests c) (receiveBuffer c) (timers c)
                          (nextHandle c) (written c) (settled c) (console c))
        by (unfold request; rewrite Hm; reflexivity).
      rewrite Hstep. exact (IH _).
Qed.

End ClientInvariants.

(** *** The reassembler and the dispatch of frames *)

Lemma indexOf_go_absent (v : Z) (l : list Z) (i : Z) :
  v ∉ l -> JS.indexOf_go v l i = -1.
Proof.
  revert i. induction l as [| x l IH]; intros i H; [reflexivity |].
  apply not_elem_of_cons in H as [Hx Hl]. cbn [JS.indexOf_go].
  destruct (Z.eqb_spec x v); [congruence |]. now apply IH.
Qed.

Lemma resync_absent (buf : list Z) : SOF ∉ buf -> Spec.resync buf = None.
Proof.
  intros H. unfold Spec.resync, JS.indexOf. change (Z.to_nat 0) with 0%nat.
  rewrite drop_0, (indexOf_go_absent SOF buf 0 H). reflexivity.
Qed.

Lemma charCode_fromCharCode (z : Z) :
  Spec.is_byte z -> JS.charCode (JS.fromCharCode z) = z.
Proof.
  unfold Spec.is_byte, JS.charCode, JS.fromCharCode. intros H.
  rewrite Z.mod_small by exact H.
  rewrite N_ascii_embedding by lia. lia.
Qed.

Lemma fromCharCode_eqb (z k : Z) :
  Spec.is_byte z -> Spec.is_byte k ->
  Ascii.eqb (JS.fromCharCode z) (JS.fromCharCode k) = (z =? k).
Proof.
  intros Hz Hk. destruct (Z.eqb_spec z k) as [-> | Hne].
  - apply Ascii.eqb_refl.
  - apply Ascii.eqb_neq. intros E. apply Hne.
    rewrite <- (charCode_fromCharCode z Hz), <- (charCode_fromCharCode k Hk).
    now rewrite E.
Qed.

Section ReassemblerProperties.

Context {V : Type}.
Variable cborDecode : list Z -> option V.

Lemma dispatch_receiveBuffer (frameData : list Z) (c : Client (V:=V)) :
  receiveBuffer (dispatch cborDecode frameData c) = receiveBuffer c.
Proof.
  transitivity
    (receiveBuffer
       (dispatch cborDecode frameData (set_receiveBuffer (receiveBuffer c) c))).
  - now rewrite set_receiveBuffer_id.
  - now rewrite dispatch_set_receiveBuffer.
Qed.

Lemma handleData_loop_awaiting (fuel : nat) (c : Client (V:=V)) :
  (length (receiveBuffer c) < fuel)%nat ->
  Spec.awaiting (receiveBuffer (handleData_loop cborDecode fuel c))
  /\ receiveBuffer (handleData_loop cborDecode fuel c)
     `suffix_of` receiveBuffer c.
Proof.
  revert c. induction fuel as [| f IH]; intros c Hlen; [lia |].
  cbn [handleData_loop]. rewrite handleData_round_spec.
  pose proof (resync_cases (receiveBuffer c)) as Hres.
  destruct (Spec.resync (receiveBuffer c)) as [t |].
  - destruct Hres as (rest & Ht & Hidx & Hdrop).
    assert (Hsuf : t `suffix_of` receiveBuffer c)
      by (rewrite Hdrop; apply suffix_drop).
    destruct (Spec.frame_split t) as [[frame rest'] |] eqn:Hsplit.
    + destruct (frame_split_cases t frame rest' Hsplit)
        as (frameEnd & Hfe & _ & Hrest).
      pose proof (suffix_length _ _ Hsuf) as Hl.
      assert (Hl' : (length rest' < f)%nat).
      { rewrite Hrest, length_drop. lia. }
      destruct (IH (dispatch cborDecode frame (set_receiveBuffer rest' c)))
        as [Ha Hs].
      { now rewrite dispatch_receiveBuffer. }
      split; [exact Ha |].
      rewrite dispatch_receiveBuffer in Hs. cbn [receiveBuffer set_receiveBuffer] in Hs.
      etrans; [exact Hs |]. etrans; [| exact Hsuf].
      rewrite Hrest. apply suffix_drop.
    + cbn [receiveBuffer set_receiveBuffer]. split; [| exact Hsuf].
      right. split; [| exact Hsplit]. rewrite Ht. apply resync_head.
  - cbn [receiveBuffer set_receiveBuffer]. split; [now left |].
    apply suffix_nil.
Qed.

(** X16.  When [handleData] returns, the receive buffer holds no
    complete frame: it is empty, or it starts at a SOF and the frame it
    starts is still incomplete.  What it holds is the end of what was in
    the buffer followed by the new data. *)
Theorem handleData_buffer (data : list Z) (c : Client (V:=V)) :
  let c' := handleData cborDecode data c in
  Spec.awaiting (receiveBuffer c')
  /\ receiveBuffer c' `suffix_of` (receiveBuffer c ++ data).
Proof.
  cbv zeta. rewrite handleData_unfold.
  apply (handleData_loop_awaiting _ (Spec.append_data data c)).
  unfold Spec.append_data. cbn [receiveBuffer set_receiveBuffer]. lia.
Qed.

Lemma handleData_no_SOF (g : list Z) (c : Client (V:=V)) :
  SOF ∉ receiveBuffer c -> SOF ∉ g ->
  handleData cborDecode g c = set_receiveBuffer [] c.
Proof.
  intros Hc Hg. rewrite handleData_unfold. cbn [handleData_loop].
  rewrite handleData_round_spec. unfold Spec.append_data.
  cbn [receiveBuffer set_receiveBuffer].
  rewrite resync_absent by (apply not_elem_of_app; now split).
  reflexivity.
Qed.

(** X17.  Bytes that hold no SOF are thrown away: with no SOF in the
    buffer either, [handleData] empties the buffer and changes nothing
    else, and data that follows such bytes is handled as if they had not
    come. *)
Theorem handleData_discards_garbage (g : list Z) (c : Client (V:=V)) :
  SOF ∉ receiveBuffer c ->
  SOF ∉ g ->
  handleData cborDecode g c = set_receiveBuffer [] c
  /\ forall d,
       handleData cborDecode (g ++ d) c
       = handleData cborDecode d (set_receiveBuffer [] c).
Proof.
  intros Hc Hg. split; [now apply handleData_no_SOF |].
  intros d. rewrite <- handleData_app.
  now rewrite (handleData_no_SOF g c Hc Hg).
Qed.

Lemma handleData_nil (c : Client (V:=V)) :
  receiveBuffer c = [] -> handleData cborDecode [] c = c.
Proof.
  intros Hrb. rewrite handleData_no_SOF.
  - rewrite <- Hrb. apply set_receiveBuffer_id.
  - rewrite Hrb. apply not_elem_of_nil.
  - apply not_elem_of_nil.
Qed.

(** X18.  Frames that arrive back to back in one piece of data are taken
    apart and dispatched one after the other, in the order of arrival,
    and the buffer is empty afterwards. *)
Theorem handleData_frames (frames : list (list Z)) (c : Client (V:=V)) :
  receiveBuffer c = [] ->
  Forall Spec.framed frames ->
  handleData cborDecode (concat frames) c
  = foldl (fun c frame => dispatch cborDecode frame c) c frames
  /\ receiveBuffer (handleData cborDecode (concat frames) c) = [].
Proof.
  intros Hrb Hfr. revert c Hrb.
  induction Hfr as [| frame frames Hf _ IH]; intros c Hrb.
  - cbn [concat foldl]. now rewrite (handleData_nil c Hrb).
  - cbn [concat foldl]. rewrite <- handleData_app.
    destruct Hf as (type & body & eofs & cs & -> & Hno & Heofs & Hcs & Hc1 & Hmin).
    rewrite (handleData_single_frame cborDecode type body eofs cs c
               Hrb Hno Heofs Hcs Hc1 Hmin).
    apply IH. now rewrite dispatch_receiveBuffer.
Qed.

Lemma wire_frame_framed (type : Z) (payload : list Z) (double : bool)
    (cs : list Z) :
  EOF ∉ payload ->
  length cs = 4%nat ->
  JS.at_is cs 0 EOF = false ->
  payload <> [] \/ double = true ->
  Spec.framed (Spec.wire_frame type payload double cs).
Proof.
  intros Hno Hcs Hc1 Hne.
  exists type, (escape_loop payload), (if double then [EOF] else []), cs.
  split; [reflexivity |]. split; [now apply escape_loop_no_EOF |].
  split; [destruct double; auto |]. split; [exact Hcs |].
  split; [exact Hc1 |].
  destruct Hne as [Hne | ->]; [| cbn [length]; lia].
  destruct payload as [| b l]; [congruence |].
  cbn [escape_loop]. destruct (needsEscape b); cbn [length]; lia.
Qed.

(** X19.  A frame that arrives whole, with one EOF or two, is routed on
    its type: the payload of a 'C' frame goes to [handleCoapResponse],
    that of an 'A' or a 'T' frame is logged, a frame of another type is
    dropped.  A checksum that does not match adds a warning before that
    and stops nothing: the frame is handled all the same. *)
Theorem handleData_wire_frame (type : Z) (payload : list Z) (double : bool)
    (cs : list Z) (c : Client (V:=V)) :
  receiveBuffer c = [] ->
  Spec.is_byte type ->
  Forall Spec.is_byte payload ->
  EOF ∉ payload ->
  length cs = 4%nat ->
  JS.at_is cs 0 EOF = false ->
  payload <> [] \/ double = true ->
  let provided := JS.toUpperCase (JS.toString_ascii cs 0 4) in
  let c1 :=
    if String.eqb provided
         (checksumStr (calculateChecksum (Spec.wire_body type payload double)))
    then c
    else log (WarnChecksumMismatch provided) c in
  handleData cborDecode (Spec.wire_frame type payload double cs) c
  = if type =? 0x43 then handleCoapResponse cborDecode payload c1
    else if type =? 0x41 then log (LogAnnouncement payload) c1
    else if type =? 0x54 then log (LogTrace payload) c1
    else c1.
Proof.
  intros Hrb Htype Hbytes Hno Hcs Hc1 Hne. cbv zeta.
  destruct (wire_frame_framed type payload double cs Hno Hcs Hc1 Hne)
    as (type' & body & eofs & cs' & Heq & Hno' & Heofs & Hcs' & Hc1' & Hmin).
  rewrite Heq.
  rewrite (handleData_single_frame cborDecode type' body eofs cs' c
             Hrb Hno' Heofs Hcs' Hc1' Hmin).
  rewrite <- Heq. unfold dispatch.
  rewrite (decodeFrame_wire type payload double cs Htype Hbytes Hno Hcs
             (fun _ => Hc1) Hne).
  cbn [valid_ type_ data_ checksum_].
  rewrite checksumStr_hex4 by apply calculateChecksum_range.
  change "C"%char with (JS.fromCharCode 0x43).
  change "A"%char with (JS.fromCharCode 0x41).
  change "T"%char with (JS.fromCharCode 0x54).
  rewrite !fromCharCode_eqb by (unfold Spec.is_byte in *; lia).
  reflexivity.
Qed.

Lemma handleData_encodeFrame_dispatch (type : Z) (payload : list Z)
    (c : Client (V:=V)) :
  receiveBuffer c = [] ->
  Spec.is_byte type ->
  Forall Spec.is_byte payload ->
  payload <> [] ->
  EOF ∉ payload ->
  handleData cborDecode (encodeFrame type payload) c
  = dispatch cborDecode (encodeFrame type payload) c.
Proof.
  intros Hrb Htype Hbytes Hne Hno.
  destruct (frame_body_shape type payload) as (eofs & Heofs & Hbody & _).
  assert (Hpre : Forall Spec.is_byte (frame_body type payload)).
  { rewrite Hbody. apply Forall_app. split.
    - constructor; [unfold Spec.is_byte, SOF; lia |].
      constructor; [exact Htype | apply escape_loop_bytes, Hbytes].
    - destruct Heofs as [-> | ->]; repeat constructor;
        unfold Spec.is_byte, EOF; lia. }
  assert (Hshape : encodeFrame type payload
                   = SOF :: type :: escape_loop payload ++ EOF :: eofs
                     ++ JS.charCodes
                          (Spec.hex4 (calculateChecksum (frame_body type payload)))).
  { rewrite encodeFrame_checksum, (Buffer_from_bytes _ Hpre).
    rewrite Hbody at 1. cbn [app]. now rewrite <- app_assoc. }
  rewrite Hshape.
  apply (handleData_single_frame cborDecode type (escape_loop payload)
           eofs
           (JS.charCodes
              (Spec.hex4 (calculateChecksum (frame_body type payload))))
           c Hrb (escape_loop_no_EOF payload Hno) Heofs
           (proj1 (hex4_chars _)) (hex4_not_EOF _)).
  destruct payload as [| b l]; [congruence |].
  cbn [escape_loop]. destruct (needsEscape b); cbn [length]; lia.
Qed.

(** X20.  The client reads the frames its own encoder writes: a frame
    from [encodeFrame], for a payload of bytes that is not empty and
    holds no 0x3C, arrives as that payload under that type, and no
    checksum warning is logged. *)
Theorem handleData_encodeFrame (type : Z) (payload : list Z)
    (c : Client (V:=V)) :
  receiveBuffer c = [] ->
  Spec.is_byte type ->
  Forall Spec.is_byte payload ->
  payload <> [] ->
  EOF ∉ payload ->
  handleData cborDecode (encodeFrame type payload) c
  = if type =? 0x43 then handleCoapResponse cborDecode payload c
    else if type =? 0x41 then log (LogAnnouncement payload) c
    else if type =? 0x54 then log (LogTrace payload) c
    else c.
Proof.
  intros Hrb Htype Hbytes Hne Hno.
  rewrite (handleData_encodeFrame_dispatch type payload c Hrb Htype Hbytes
             Hne Hno).
  unfold dispatch.
  rewrite (frame_roundtrip_without_EOF type payload Htype Hbytes Hne Hno).
  cbn [valid_ type_ data_ checksum_].
  change "C"%char with (JS.fromCharCode 0x43).
  change "A"%char with (JS.fromCharCode 0x41).
  change "T"%char with (JS.fromCharCode 0x54).
  rewrite !fromCharCode_eqb by (unfold Spec.is_byte in *; lia).
  reflexivity.
Qed.

Section Answers.

Variable cborEncode : V -> list Z.

(** X29.  A request and its answer: after [request], the frame of a
    response that carries the message-ID of the request settles the
    promise that [request] returned (resolved with the payload for a code
    of class 2, rejected with the code, its name and the payload
    otherwise), takes the entry out of [pendingRequests] and disarms the
    timer; nothing is written to the port and the buffer is empty
    again. *)
Theorem request_answered (method uri : string) (pl : Payload) (t : Z)
    (methodCode : Z) (data : list Z) (r : Response (V:=V))
    (c : Client (V:=V)) :
  METHODS (JS.toUpperCase method) = Some methodCode ->
  receiveBuffer c = [] ->
  Forall Spec.is_byte data ->
  EOF ∉ data ->
  parseResponse cborDecode data = inr r ->
  r_messageId r = messageId c ->
  let c1 := snd (request cborEncode method uri pl t c) in
  let c2 := handleData cborDecode (createCoapFrame data) c1 in
  fst (request cborEncode method uri pl t c) = inr (nextHandle c)
  /\ settled c2
     = settled c
       ++ [(nextHandle c,
            if codeClass r =? 2 then Resolved (payload r)
            else Rejected (CoapError (codeName r) (code r) (payload r)))]
  /\ pendingRequests c2 = delete (messageId c) (pendingRequests c)
  /\ timers c2 = delete (nextHandle c) (timers c)
  /\ written c2 = written c1
  /\ receiveBuffer c2 = [].
Proof.
  intros Hm Hrb Hbytes Hno Hparse Hmid. cbv zeta.
  assert (Hne : data <> []).
  { intros ->. unfold parseResponse in Hparse. discriminate Hparse. }
  unfold request. rewrite Hm. cbn [fst snd].
  set (c1 := mkClient _ _ _ _ _ _ _ _).
  assert (Hrb1 : receiveBuffer c1 = []) by exact Hrb.
  unfold createCoapFrame, COMMANDS_COAP.
  rewrite (handleData_encodeFrame_dispatch 0x43 data c1 Hrb1
             ltac:(unfold Spec.is_byte; lia) Hbytes Hne Hno).
  unfold dispatch.
  rewrite (frame_roundtrip_without_EOF 0x43 data
             ltac:(unfold Spec.is_byte; lia) Hbytes Hne Hno).
  cbn [valid_ type_ data_ checksum_].
  change (Ascii.eqb (JS.fromCharCode 67) "C") with true. cbv iota.
  assert (Hlook : pendingRequests c1 !! messageId c
                  = Some (mkPending (nextHandle c) (nextHandle c) method uri))
    by (unfold c1; cbn [pendingRequests]; apply lookup_insert_eq).
  rewrite (handleCoapResponse_inr cborDecode data r c1 Hparse). cbv zeta.
  rewrite Hmid, Hlook. cbn [waiter timeout].
  split; [reflexivity |].
  destruct (codeClass r =? 2); unfold settle, log, logs, c1;
    cbn [settled pendingRequests timers written receiveBuffer messageId
          nextHandle console];
    rewrite !delete_insert_eq; auto.
Qed.

(** X30.  Responses find their request by the message-ID, not by the
    order of arrival: of two requests sent one after the other, the one
    sent second can be answered first, and each promise is settled with
    the response that carries its own message-ID. *)
Theorem responses_out_of_order (method1 uri1 method2 uri2 : string)
    (pl1 pl2 : Payload) (t1 t2 code1 code2 : Z) (data1 data2 : list Z)
    (r1 r2 : Response (V:=V)) (c : Client (V:=V)) :
  METHODS (JS.toUpperCase method1) = Some code1 ->
  METHODS (JS.toUpperCase method2) = Some code2 ->
  parseResponse cborDecode data1 = inr r1 ->
  parseResponse cborDecode data2 = inr r2 ->
  r_messageId r1 = messageId c ->
  r_messageId r2 = Spec.next_mid (messageId c) ->
  let outcome (r : Response (V:=V)) :=
    if codeClass r =? 2 then Resolved (payload r)
    else Rejected (CoapError (codeName r) (code r) (payload r)) in
  let c1 := snd (request cborEncode method1 uri1 pl1 t1 c) in
  let c2 := snd (request cborEncode method2 uri2 pl2 t2 c1) in
  let c3 := handleCoapResponse cborDecode data2 c2 in
  let c4 := handleCoapResponse cborDecode data1 c3 in
  fst (request cborEncode method1 uri1 pl1 t1 c) = inr (nextHandle c)
  /\ fst (request cborEncode method2 uri2 pl2 t2 c1) = inr (S (nextHandle c))
  /\ settled c3 = settled c ++ [(S (nextHandle c), outcome r2)]
  /\ is_Some (pendingRequests c3 !! messageId c)
  /\ settled c4
     = settled c
       ++ [(S (nextHandle c), outcome r2); (nextHandle c, outcome r1)]
  /\ pendingRequests c4 !! messageId c = None
  /\ pendingRequests c4 !! Spec.next_mid (messageId c) = None.
Proof.
  intros Hm1 Hm2 Hp1 Hp2 Hmid1 Hmid2. cbv zeta.
  assert (Hne : Spec.next_mid (messageId c) <> messageId c).
  { unfold Spec.next_mid. destruct (Z.gtb_spec (messageId c + 1) 0xFFFF); lia. }
  set (h := nextHandle c) in *. set (mid := messageId c) in *.
  set (c1 := mkClient (Spec.next_mid mid)
               (<[mid := mkPending h h method1 uri1]> (pendingRequests c))
               (receiveBuffer c)
               (<[h := mkTimer mid h t1 method1 uri1]> (timers c))
               (S h)
               (written c
                ++ [createCoapFrame
                      (buildMessage cborEncode code1 uri1 pl1 mid)])
               (settled c)
               (console c ++ [LogRequest method1 uri1 mid])).
  assert (Hreq1 : request cborEncode method1 uri1 pl1 t1 c = (inr h, c1))
    by (unfold request; rewrite Hm1; reflexivity).
  rewrite Hreq1. cbn [fst snd].
  set (c2 := mkClient (Spec.next_mid (Spec.next_mid mid))
               (<[Spec.next_mid mid := mkPending (S h) (S h) method2 uri2]>
                  (pendingRequests c1))
               (receiveBuffer c1)
               (<[S h := mkTimer (Spec.next_mid mid) (S h) t2 method2 uri2]>
                  (timers c1))
               (S (S h))
               (written c1
                ++ [createCoapFrame
                      (buildMessage cborEncode code2 uri2 pl2
                         (Spec.next_mid mid))])
               (settled c1)
               (console c1 ++ [LogRequest method2 uri2 (Spec.next_mid mid)])).
  assert (Hreq2 : request cborEncode method2 uri2 pl2 t2 c1 = (inr (S h), c2))
    by (unfold request; rewrite Hm2; reflexivity).
  rewrite Hreq2. cbn [fst snd].
  assert (Hlook2 : pendingRequests c2 !! Spec.next_mid mid
                   = Some (mkPending (S h) (S h) method2 uri2))
    by (unfold c2; cbn [pendingRequests]; apply lookup_insert_eq).
  set (out2 := if codeClass r2 =? 2 then Resolved (payload r2)
               else Rejected (CoapError (codeName r2) (code r2) (payload r2))).
  set (c3 := settle (S h) out2
               (log (LogResponse (codeName r2) (Spec.next_mid mid))
                  (mkClient (messageId c2)
                     (delete (Spec.next_mid mid) (pendingRequests c2))
                     (receiveBuffer c2) (delete (S h) (timers c2))
                     (nextHandle c2) (written c2) (settled c2)
                     (console (logs (Spec.decode_warning r2) c2))))).
  assert (H3 : handleCoapResponse cborDecode data2 c2 = c3).
  { rewrite (handleCoapResponse_inr cborDecode data2 r2 c2 Hp2). cbv zeta.
    rewrite Hmid2, Hlook2.
    cbn [waiter timeout]. unfold c3, out2. now destruct (codeClass r2 =? 2). }
  rewrite H3.
  assert (Hlook : pendingRequests c3 !! mid
                  = Some (mkPending h h method1 uri1)).
  { unfold c3, settle, log. cbn [pendingRequests].
    rewrite lookup_delete_ne by exact Hne.
    unfold c2. cbn [pendingRequests]. rewrite lookup_insert_ne by exact Hne.
    unfold c1. cbn [pendingRequests]. apply lookup_insert_eq. }
  split; [reflexivity |]. split; [reflexivity |].
  split; [reflexivity |]. split; [rewrite Hlook; eauto |].
  rewrite (handleCoapResponse_inr cborDecode data1 r1 c3 Hp1). cbv zeta.
  rewrite Hmid1, Hlook. cbn [waiter timeout].
  split; [| split].
  - destruct (codeClass r1 =? 2); cbn [settle log settled];
      unfold c3; cbn [settle log settled]; now rewrite <- app_assoc.
  - destruct (codeClass r1 =? 2); cbn [settle log pendingRequests];
      apply lookup_delete_eq.
  - destruct (codeClass r1 =? 2); cbn [settle log pendingRequests];
      (rewrite lookup_delete_ne by (intros E; apply Hne; now symmetry));
      unfold c3; cbn [settle log pendingRequests]; apply lookup_delete_eq.
Qed.

End Answers.

End ReassemblerProperties.

(* ===================================================================== *)
(** ** Further properties: checksum strength, URIs, convenience methods   *)
(* ===================================================================== *)

Lemma fold_carries_mod (fuel : nat) (s : Z) :
  0 <= s -> Spec.fold_carries fuel s mod 65535 = s mod 65535.
Proof.
  revert s. induction fuel as [| f IH]; intros s Hs; [reflexivity |].
  cbn [Spec.fold_carries]. destruct (Z.ltb_spec s 65536); [reflexivity |].
  rewrite IH by (Z.div_mod_to_equations; lia).
  pose proof (Z.div_mod s 65536 ltac:(lia)) as Hdm.
  set (q := s / 65536) in *. set (r := s mod 65536) in *.
  replace (s mod 65535) with ((r + q + q * 65535) mod 65535)
    by (f_equal; lia).
  now rewrite Z.mod_add by lia.
Qed.

Lemma checksum_complement (data : list Z) :
  0 <= Spec.word_sum data ->
  Spec.checksum data = 65535 - Spec.ones_complement_sum data.
Proof.
  intros H. pose proof (ones_complement_sum_range data H) as Hr.
  unfold Spec.checksum. set (r := Spec.ones_complement_sum data) in *.
  change 65535 with (Z.ones 16) at 1. rewrite Z.land_ones by lia.
  unfold Z.lnot. change (2 ^ 16) with 65536.
  Z.div_mod_to_equations. lia.
Qed.

Lemma word_sum_insert (data : list Z) :
  forall (i : nat) (b b' : Z),
    data !! i = Some b ->
    Spec.word_sum (<[i := b']> data)
    = Spec.word_sum data + (b' - b) * (if Nat.even i then 256 else 1).
Proof.
  induction data as [| | x y l IH] using pair_induction; intros i b b' Hi.
  - discriminate Hi.
  - destruct i as [| i]; [| discriminate Hi]. injection Hi as <-.
    cbn. lia.
  - destruct i as [| [| i]].
    + injection Hi as <-. cbn. lia.
    + injection Hi as <-. cbn. lia.
    + cbn [lookup list_lookup] in Hi. specialize (IH i b b' Hi).
      change (<[S (S i) := b']> (x :: y :: l))
        with (x :: y :: <[i := b']> l).
      unfold Spec.word_sum in *. cbn [Spec.words foldr].
      rewrite IH. cbn [Nat.even]. lia.
Qed.

(** X21.  [calculateChecksum] tells every corruption of a single byte:
    over a buffer of at most 65536 bytes, replacing one byte by another
    always changes the checksum. *)
Theorem calculateChecksum_detects_byte_error (data : list Z) (i : nat)
    (b b' : Z) :
  Forall Spec.is_byte data ->
  Z.of_nat (length data) <= 65536 ->
  data !! i = Some b ->
  Spec.is_byte b' ->
  b' <> b ->
  calculateChecksum (<[i := b']> data) <> calculateChecksum data.
Proof.
  intros Hbytes Hlen Hi Hb' Hne.
  assert (Hb : Spec.is_byte b).
  { rewrite Forall_lookup in Hbytes. exact (Hbytes i b Hi). }
  assert (Hbytes' : Forall Spec.is_byte (<[i := b']> data)).
  { apply Forall_insert; assumption. }
  pose proof (word_sum_short data Hbytes Hlen) as Hs.
  pose proof (word_sum_short (<[i := b']> data) Hbytes'
                ltac:(rewrite length_insert; exact Hlen)) as Hs'.
  rewrite !calculateChecksum_spec by (assumption || lia).
  rewrite !checksum_complement by lia.
  intros E.
  assert (Er : Spec.ones_complement_sum (<[i := b']> data)
               = Spec.ones_complement_sum data) by lia.
  apply (f_equal (fun r => r mod 65535)) in Er.
  unfold Spec.ones_complement_sum in Er.
  rewrite !fold_carries_mod in Er by lia.
  rewrite (word_sum_insert data i b b' Hi) in Er.
  unfold Spec.is_byte in *.
  destruct (Nat.even i); Z.div_mod_to_equations; lia.
Qed.

(** X22.  [calculateChecksum] does not see the order of the 16-bit words:
    exchanging two aligned pairs of bytes leaves the checksum as it
    was. *)
Theorem calculateChecksum_word_order (pre : list (Z * Z)) (a b c d : Z)
    (rest : list Z) :
  let words := flat_map (fun w => [fst w; snd w]) pre in
  calculateChecksum (words ++ a :: b :: c :: d :: rest)
  = calculateChecksum (words ++ c :: d :: a :: b :: rest).
Proof.
  cbv zeta. unfold calculateChecksum. do 3 f_equal.
  generalize 0. induction pre as [| [x y] pre IH]; intros acc.
  - cbn [flat_map app sum_loop]. f_equal. lia.
  - cbn [flat_map app fst snd sum_loop]. apply IH.
Qed.

Lemma split_nonempty (s : string) (sep : ascii) : JS.split s sep <> [].
Proof.
  destruct s as [| c r]; cbn [JS.split]; [discriminate |].
  destruct (Ascii.eqb c sep); [discriminate |].
  destruct (JS.split r sep); discriminate.
Qed.

Lemma append_nil (b : string) : String.append EmptyString b = b.
Proof. reflexivity. Qed.

Lemma append_cons (c : ascii) (a b : string) :
  String.append (String c a) b = String c (String.append a b).
Proof. reflexivity. Qed.

Lemma split_app (a b : string) (sep : ascii) :
  JS.split (String.append a (String sep b)) sep
  = JS.split a sep ++ JS.split b sep.
Proof.
  induction a as [| c a IH]; rewrite ?append_nil, ?append_cons;
    cbn [JS.split].
  - now rewrite Ascii.eqb_refl.
  - rewrite IH. destruct (Ascii.eqb c sep); [reflexivity |].
    pose proof (split_nonempty a sep) as Hne.
    destruct (JS.split a sep) as [| p ps]; [congruence | reflexivity].
Qed.

Lemma split_absent (s : string) (sep : ascii) :
  Spec.has_char sep s = false -> JS.split s sep = [s].
Proof.
  induction s as [| c r IH]; cbn [Spec.has_char JS.split]; [reflexivity |].
  intros H. apply orb_false_iff in H as [Hc Hr].
  rewrite Hc, (IH Hr). reflexivity.
Qed.

Lemma split_prefix (a b : string) (sep : ascii) :
  Spec.has_char sep a = false ->
  JS.split (String.append a b) sep
  = match JS.split b sep with
    | p :: ps => String.append a p :: ps
    | [] => []
    end.
Proof.
  intros Ha. pose proof (split_nonempty b sep) as Hne.
  induction a as [| c a IH]; rewrite ?append_nil, ?append_cons;
    cbn [JS.split].
  - destruct (JS.split b sep); [congruence | reflexivity].
  - cbn [Spec.has_char] in Ha. apply orb_false_iff in Ha as [Hc Hr].
    rewrite Hc, (IH Hr). destruct (JS.split b sep); [congruence | reflexivity].
Qed.

Lemma encodeOptions_parts (u u' : string) :
  uri_segments u = uri_segments u' ->
  uri_queries u = uri_queries u' ->
  encodeOptions u = encodeOptions u'.
Proof. intros Hs Hq. unfold encodeOptions. now rewrite Hs, Hq. Qed.

(** X23.  What [encodeOptions] makes of unusual URIs: a slash at the
    front adds nothing, a doubled slash in the path counts as one (empty
    segments give no option), and a second question mark ends the query:
    what follows it is left out without a word. *)
Theorem encodeOptions_uri_edges :
  (forall uri, encodeOptions (String "/" uri) = encodeOptions uri)
  /\ (forall a b,
        Spec.has_char "?" a = false ->
        encodeOptions (String.append a (String "/" (String "/" b)))
        = encodeOptions (String.append a (String "/" b)))
  /\ (forall p q r,
        Spec.has_char "?" p = false ->
        Spec.has_char "?" q = false ->
        encodeOptions
          (String.append p (String "?" (String.append q (String "?" r))))
        = encodeOptions (String.append p (String "?" q))).
Proof.
  split; [| split].
  - intros uri. apply encodeOptions_parts.
    + unfold uri_segments. cbn [JS.split Ascii.eqb Bool.eqb].
      pose proof (split_nonempty uri "?") as Hne.
      destruct (JS.split uri "?") as [| p ps]; [congruence |].
      cbn [lookup list_lookup default from_option id JS.split].
      rewrite Ascii.eqb_refl. reflexivity.
    + unfold uri_queries. cbn [JS.split Ascii.eqb Bool.eqb].
      pose proof (split_nonempty uri "?") as Hne.
      destruct (JS.split uri "?") as [| p ps]; [congruence | reflexivity].
  - intros a b Ha. apply encodeOptions_parts.
    + unfold uri_segments. rewrite !(split_prefix a _ "?" Ha).
      cbn [JS.split Ascii.eqb Bool.eqb].
      pose proof (split_nonempty b "?") as Hne.
      destruct (JS.split b "?") as [| p ps]; [congruence |].
      cbn [lookup list_lookup default from_option id].
      rewrite !split_app. cbn [JS.split]. rewrite Ascii.eqb_refl.
      rewrite !List.filter_app. reflexivity.
    + unfold uri_queries. rewrite !(split_prefix a _ "?" Ha).
      cbn [JS.split Ascii.eqb Bool.eqb].
      pose proof (split_nonempty b "?") as Hne.
      destruct (JS.split b "?") as [| p ps]; [congruence | reflexivity].
  - intros p q r Hp Hq.
    assert (H1 : JS.split
                   (String.append p
                      (String "?" (String.append q (String "?" r)))) "?"
                 = p :: q :: JS.split r "?").
    { rewrite split_app, split_app, (split_absent p _ Hp), (split_absent q _ Hq).
      reflexivity. }
    assert (H2 : JS.split (String.append p (String "?" q)) "?" = [p; q]).
    { rewrite split_app, (split_absent p _ Hp), (split_absent q _ Hq).
      reflexivity. }
    apply encodeOptions_parts.
    + unfold uri_segments. now rewrite H1, H2.
    + unfold uri_queries. now rewrite H1, H2.
Qed.

Section ConvenienceProperties.

Context {V : Type}.
Variable cborEncode : V -> list Z.

(** X24.  The six convenience methods never throw: each returns a
    promise and hands one CoAP frame to the serial port, with the code 1
    (get), 2 (post), 3 (put), 4 (delete), 6 (patch) or 7 (ipatch), the
    message-ID of the counter, and the data given; [get] and [delete]
    carry no payload, and [get] without a URI asks for '/c?d=a'. *)
Theorem convenience_methods (uri : option string) (data : Payload)
    (c : Client (V:=V)) :
  let u := default "/c"%string uri in
  let sent (r : (RequestFailure + nat) * Client) (code : Z) (u : string)
        (p : Payload) :=
    fst r = inr (nextHandle c)
    /\ written (snd r)
       = written c
         ++ [createCoapFrame (buildMessage cborEncode code u p (messageId c))]
    /\ is_Some (pendingRequests (snd r) !! messageId c) in
  sent (get cborEncode uri c) 1 (default "/c?d=a"%string uri) Null
  /\ sent (post cborEncode uri data c) 2 u data
  /\ sent (put cborEncode uri data c) 3 u data
  /\ sent (delete_ cborEncode uri c) 4 u Null
  /\ sent (patch cborEncode uri data c) 6 u data
  /\ sent (ipatch cborEncode uri data c) 7 u data.
Proof.
  cbv zeta. unfold get, post, put, delete_, patch, ipatch, request.
  change (METHODS (JS.toUpperCase "GET")) with (Some 1).
  change (METHODS (JS.toUpperCase "POST")) with (Some 2).
  change (METHODS (JS.toUpperCase "PUT")) with (Some 3).
  change (METHODS (JS.toUpperCase "DELETE")) with (Some 4).
  change (METHODS (JS.toUpperCase "PATCH")) with (Some 6).
  change (METHODS (JS.toUpperCase "IPATCH")) with (Some 7).
  cbn [fst snd written pendingRequests]. rewrite !lookup_insert_eq.
  repeat (split; [reflexivity || eauto |]). eauto.
Qed.

End ConvenienceProperties.

(* ===================================================================== *)
(** ** Properties of the request history and of the device manager        *)
(* ===================================================================== *)

Section HistoryProperties.

Context {R : Type}.

Lemma addToHistory_take (c : Server.HistoryCall (R:=R))
    (h : list Server.HistoryEntry) :
  Server.call c h = take 200 (Server.call c [] ++ h).
Proof.
  unfold Server.call, Server.addToHistory, Server.MAX_HISTORY.
  cbn [length app]. change (Z.of_nat 1 >? 200) with false. cbv iota.
  cbn [app]. change (Z.to_nat 200) with 200%nat.
  destruct (Z.gtb_spec (Z.of_nat (S (length h))) 200) as [Hgt | Hle];
    [reflexivity |].
  rewrite take_ge; [reflexivity |]. cbn [length]. lia.
Qed.

Lemma call_singleton (c : Server.HistoryCall (R:=R)) :
  length (Server.call c []) = 1%nat.
Proof. reflexivity. Qed.

Lemma calls_take (calls : list (Server.HistoryCall (R:=R)))
    (h : list Server.HistoryEntry) :
  calls <> [] ->
  foldl (fun h c => Server.call c h) h calls
  = take 200 (concat (map (fun c => Server.call c []) (rev calls)) ++ h).
Proof.
  revert h. induction calls as [| c calls IH] using rev_ind; intros h Hne;
    [congruence |].
  rewrite foldl_app. cbn [foldl]. rewrite rev_app_distr. cbn [rev app map concat].
  rewrite addToHistory_take.
  destruct calls as [| c0 calls0]; [reflexivity |].
  rewrite IH by discriminate.
  set (prev := concat _ ++ h).
  assert (H1 : length (Server.call c []) = 1%nat) by reflexivity.
  destruct (Server.call c []) as [| e [| e' l]]; try discriminate H1.
  rewrite <- app_assoc. fold prev. cbn [app take].
  now rewrite take_take, Nat.min_l by lia.
Qed.

(** X25.  The request history holds the most recent requests, newest
    first, and at most 200 of them: after any number of calls of
    [addToHistory] on the empty history it is made of the entries of the
    last 200 calls, in the reverse of the order of the calls. *)
Theorem history_holds_latest (calls : list (Server.HistoryCall (R:=R))) :
  let h := foldl (fun h c => Server.call c h) [] calls in
  h = take 200 (concat (map (fun c => Server.call c []) (rev calls)))
  /\ length h = Nat.min 200 (length calls).
Proof.
  cbv zeta.
  assert (Hl : forall l : list (Server.HistoryCall (R:=R)),
            length (concat (map (fun c => Server.call c []) l)) = length l).
  { induction l as [| c l IHl]; [reflexivity |].
    cbn [map concat]. rewrite length_app, IHl. reflexivity. }
  destruct calls as [| c calls]; [split; reflexivity |].
  rewrite calls_take by discriminate. rewrite app_nil_r.
  split; [reflexivity |].
  rewrite length_take, Hl, length_rev. lia.
Qed.

End HistoryProperties.

Section ManagerProperties.

Import DeviceManager.

Context {V D : Type}.
Variable cborEncode : V -> list Z.
Variable unknown : D.

Lemma Map_get_set_eq {A : Type} (k : string) (v : A) (m : list (string * A)) :
  Map_get k (Map_set k v m) = Some v.
Proof.
  induction m as [| [k' v'] m IH]; cbn [Map_set Map_get].
  - now rewrite String.eqb_refl.
  - destruct (String.eqb_spec k' k) as [-> | Hne]; cbn [Map_get].
    + now rewrite String.eqb_refl.
    + destruct (String.eqb_spec k' k); [contradiction | exact IH].
Qed.

Lemma Map_get_set_ne {A : Type} (k k' : string) (v : A)
    (m : list (string * A)) :
  k <> k' -> Map_get k' (Map_set k v m) = Map_get k' m.
Proof.
  intros Hne. induction m as [| [k0 v0] m IH]; cbn [Map_set Map_get].
  - destruct (String.eqb_spec k k'); [contradiction | reflexivity].
  - destruct (String.eqb_spec k0 k) as [-> | Hk]; cbn [Map_get].
    + destruct (String.eqb_spec k k'); [contradiction | reflexivity].
    + destruct (String.eqb_spec k0 k'); [reflexivity | exact IH].
Qed.

Lemma Map_get_delete {A : Type} (k k' : string) (m : list (string * A)) :
  Map_get k' (Map_delete k m) = if String.eqb k k' then None else Map_get k' m.
Proof.
  induction m as [| [k0 v0] m IH]; cbn [Map_delete List.filter Map_get fst].
  - now destruct (String.eqb k k').
  - fold (Map_delete k m).
    destruct (String.eqb_spec k0 k) as [-> | Hk]; cbn [negb Map_get].
    + rewrite IH. destruct (String.eqb_spec k k'); reflexivity.
    + rewrite IH. destruct (String.eqb_spec k0 k') as [-> | Hk'];
        [| reflexivity].
      destruct (String.eqb_spec k k'); [congruence | reflexivity].
Qed.

Lemma Map_set_keys {A : Type} (k : string) (v v0 : A)
    (m : list (string * A)) :
  Map_get k m = Some v0 -> (Map_set k v m).*1 = m.*1.
Proof.
  induction m as [| [k' v'] m IH]; cbn [Map_set Map_get]; [discriminate |].
  destruct (String.eqb_spec k' k) as [-> | Hne]; intros H.
  - reflexivity.
  - cbn [fmap list_fmap fst]. f_equal. now apply IH.
Qed.

Lemma Map_get_keys {A : Type} (k : string) (m : list (string * A)) :
  is_Some (Map_get k m) <-> k ∈ m.*1.
Proof.
  induction m as [| [k' v'] m IH]; cbn [Map_get fmap list_fmap fst].
  - split; [intros [x Hx]; discriminate | intros H; now apply elem_of_nil in H].
  - rewrite elem_of_cons. destruct (String.eqb_spec k' k) as [-> | Hne].
    + split; [now left | eauto].
    + rewrite IH. split; [now right | intros [-> | H]; [contradiction | exact H]].
Qed.

Lemma Map_has_get {A : Type} (k : string) (m : list (string * A)) :
  Map_has k m = false <-> Map_get k m = None.
Proof. unfold Map_has. destruct (Map_get k m); split; congruence. Qed.

Lemma includes_elem_of (p : string) (l : list string) :
  existsb (String.eqb p) l = true <-> p ∈ l.
Proof.
  rewrite existsb_exists, list_elem_of_In. split.
  - intros (x & Hx & E). apply String.eqb_eq in E. now subst.
  - intros H. exists p. split; [exact H | apply String.eqb_refl].
Qed.

(** The connection that [connectDevice] puts in the map. *)
Lemma connectDevice_ok (now : string) (random : QArith_base.Q)
    (p : string) (m : Manager (V:=V) (D:=D)) :
  exists (d : DeviceConnection (V:=V) (D:=D)) info m',
    connectDevice unknown (OpenOk now random) p 115200 m = (inr info, m')
    /\ devices m' = Map_set p d (devices m)
    /\ devicePath d = p
    /\ isConnected d = Some true
    /\ coap d = Some (CoAPClient.constructor random)
    /\ scanInterval m' = scanInterval m.
Proof.
  eexists _, _, _. split; [reflexivity |]. cbn. auto 10.
Qed.

Lemma connectDevice_error (message : string) (p : string)
    (m : Manager (V:=V) (D:=D)) :
  exists m',
    connectDevice unknown (OpenError message) p 115200 m = (inl message, m')
    /\ devices m' = devices m
    /\ timeouts m' = timeouts m
    /\ scanInterval m' = scanInterval m.
Proof. eexists. split; [reflexivity |]. cbn. auto. Qed.

Lemma connect_loop_ok (open : string -> OpenOutcome) (paths : list string) :
  forall m : Manager (V:=V) (D:=D),
    (forall p, p ∈ paths -> Map_get p (devices m) = None ->
       exists now random, open p = OpenOk now random) ->
    exists m',
      connect_loop unknown open paths m = (inr tt, m')
      /\ (forall p, is_Some (Map_get p (devices m')) <->
            is_Some (Map_get p (devices m)) \/ p ∈ paths)
      /\ (forall p d, Map_get p (devices m) = Some d ->
            Map_get p (devices m') = Some d)
      /\ (forall p, p ∈ paths -> Map_get p (devices m) = None ->
            exists (d : DeviceConnection (V:=V) (D:=D)) now random,
              open p = OpenOk now random
              /\ Map_get p (devices m') = Some d
              /\ devicePath d = p
              /\ isConnected d = Some true
              /\ coap d = Some (CoAPClient.constructor random))
      /\ scanInterval m' = scanInterval m.
Proof.
  induction paths as [| q rest IH]; intros m Hopen.
  - exists m. split; [reflexivity |]. split; [| split; [| split]].
    + intros p. split; [now left | intros [H | H]; [exact H |]].
      now apply elem_of_nil in H.
    + auto.
    + intros p H. now apply elem_of_nil in H.
    + reflexivity.
  - cbn [connect_loop]. destruct (Map_has q (devices m)) eqn:Hhas.
    + assert (Hq : is_Some (Map_get q (devices m))).
      { unfold Map_has in Hhas. destruct (Map_get q (devices m)); eauto.
        discriminate Hhas. }
      destruct (IH m) as (m' & Hrun & Hiff & Hkeep & Hnew & Hint).
      { intros p Hp. apply Hopen. now right. }
      exists m'. split; [exact Hrun |]. split; [| split; [| split]].
      * intros p. rewrite Hiff, elem_of_cons. split.
        -- intros [H | H]; auto.
        -- intros [H | [-> | H]]; auto.
      * exact Hkeep.
      * intros p Hp Hnone. apply elem_of_cons in Hp as [-> | Hp].
        -- destruct Hq as [x Hx]. congruence.
        -- now apply Hnew.
      * exact Hint.
    + apply Map_has_get in Hhas.
      destruct (Hopen q ltac:(left) Hhas) as (now & random & Hq).
      rewrite Hq.
      destruct (connectDevice_ok now random q m)
        as (d & info & m1 & Hc & Hdev & Hpath & Hconn & Hcoap & Hint1).
      rewrite Hc.
      destruct (IH m1) as (m' & Hrun & Hiff & Hkeep & Hnew & Hint).
      { intros p Hp Hnone. apply Hopen; [now right |].
        rewrite Hdev in Hnone.
        destruct (String.eqb_spec q p) as [-> | Hne].
        - now rewrite Map_get_set_eq in Hnone.
        - now rewrite Map_get_set_ne in Hnone. }
      assert (Hget1 : forall p, Map_get p (devices m1)
                                = if String.eqb q p then Some d
                                  else Map_get p (devices m)).
      { intros p. rewrite Hdev. destruct (String.eqb_spec q p) as [-> | Hne].
        - apply Map_get_set_eq.
        - now apply Map_get_set_ne. }
      exists m'. split; [exact Hrun |]. split; [| split; [| split]].
      * intros p. rewrite Hiff, Hget1, elem_of_cons.
        destruct (String.eqb_spec q p) as [-> | Hne].
        -- split; [auto | intros _; left; eauto].
        -- split; [intros [H | H]; auto |].
           intros [H | [-> | H]]; auto. contradiction.
      * intros p d0 Hp. apply Hkeep. rewrite Hget1.
        destruct (String.eqb_spec q p) as [-> | Hne]; [congruence | exact Hp].
      * intros p Hp Hnone. destruct (String.eqb_spec q p) as [<- | Hne].
        -- exists d, now, random. split; [exact Hq |].
           split; [| auto]. apply Hkeep. rewrite Hget1.
           now rewrite String.eqb_refl.
        -- apply elem_of_cons in Hp as [-> | Hp]; [contradiction |].
           apply Hnew; [exact Hp |]. rewrite Hget1.
           destruct (String.eqb_spec q p); [contradiction | exact Hnone].
      * now rewrite Hint.
Qed.

Lemma disconnectDevice_get (path p : string) (m : Manager (V:=V) (D:=D)) :
  Map_get p (devices (disconnectDevice path m))
  = if String.eqb path p then None else Map_get p (devices m).
Proof.
  unfold disconnectDevice. destruct (Map_get path (devices m)) eqn:E.
  - cbn [devices]. apply Map_get_delete.
  - destruct (String.eqb_spec path p) as [-> | Hne]; [exact E | reflexivity].
Qed.

Lemma remove_loop_get (tty paths : list string) (p : string) :
  forall m : Manager (V:=V) (D:=D),
    Map_get p (devices (remove_loop tty paths m))
    = if bool_decide (p ∈ paths) && negb (existsb (String.eqb p) tty)
      then None else Map_get p (devices m).
Proof.
  induction paths as [| q rest IH]; intros m; cbn [remove_loop].
  - rewrite bool_decide_eq_false_2 by apply not_elem_of_nil. reflexivity.
  - destruct (existsb (String.eqb q) tty) eqn:Hq.
    + rewrite IH. destruct (decide (p = q)) as [-> | Hne].
      * rewrite Hq. cbn [negb]. now rewrite !andb_false_r.
      * destruct (decide (p ∈ rest)) as [Hin | Hout].
        -- rewrite !bool_decide_eq_true_2; [reflexivity | now right | exact Hin].
        -- rewrite !bool_decide_eq_false_2; [reflexivity | | exact Hout].
           intros H. apply elem_of_cons in H as [H | H]; contradiction.
    + rewrite IH, disconnectDevice_get. cbn [devices log].
      destruct (String.eqb_spec q p) as [-> | Hne].
      * rewrite Hq. cbn [negb]. rewrite andb_true_r.
        rewrite (bool_decide_eq_true_2 (p ∈ p :: rest)) by now left.
        now destruct (bool_decide (p ∈ rest)).
      * destruct (decide (p ∈ rest)) as [Hin | Hout].
        -- rewrite !bool_decide_eq_true_2; [reflexivity | now right | exact Hin].
        -- rewrite !bool_decide_eq_false_2; [reflexivity | | exact Hout].
           intros H. apply elem_of_cons in H as [H | H]; [congruence | contradiction].
Qed.

Lemma remove_loop_scanInterval (tty paths : list string) :
  forall m : Manager (V:=V) (D:=D),
    scanInterval (remove_loop tty paths m) = scanInterval m.
Proof.
  induction paths as [| q rest IH]; intros m; cbn [remove_loop]; [reflexivity |].
  destruct (existsb (String.eqb q) tty); rewrite IH; [reflexivity |].
  unfold disconnectDevice. now destruct (Map_get q _).
Qed.

Lemma elem_of_ttyDevices (files : list string) (p : string) :
  p ∈ ttyDevices files <->
  exists f, f ∈ files
            /\ (String.prefix "ttyACM" f = true \/ String.prefix "ttyUSB" f = true)
            /\ p = String.append "/dev/" f.
Proof.
  unfold ttyDevices. rewrite merge_sort_Permutation, list_elem_of_In, in_map_iff.
  split.
  - intros (f & <- & Hf). apply filter_In in Hf as [Hin Hp].
    exists f. rewrite list_elem_of_In. apply orb_true_iff in Hp. auto.
  - intros (f & Hin & Hp & ->). exists f. split; [reflexivity |].
    apply filter_In. rewrite <- list_elem_of_In. split; [exact Hin |].
    now apply orb_true_iff.
Qed.

(** X26.  A scan in which every new port opens leaves the map with
    exactly the serial devices that are listed in '/dev' (the names that
    begin with ttyACM or ttyUSB, under '/dev/'): a device that was in the
    map and is still listed keeps its connection, a listed device that
    was not in the map is connected, with a fresh CoAP client, and a
    device that is not listed any more is taken out. *)
Theorem scanDevices_connects (files : list string)
    (open : string -> OpenOutcome) (m : Manager (V:=V) (D:=D)) :
  (forall p, p ∈ ttyDevices files -> Map_get p (devices m) = None ->
     exists now random, open p = OpenOk now random) ->
  let infos := fst (scanDevices unknown (inr files) open m) in
  let m' := snd (scanDevices unknown (inr files) open m) in
  infos = getAllDevices m'
  /\ (forall p, is_Some (Map_get p (devices m')) <->
        exists f, f ∈ files
                  /\ (String.prefix "ttyACM" f = true
                      \/ String.prefix "ttyUSB" f = true)
                  /\ p = String.append "/dev/" f)
  /\ (forall p d, Map_get p (devices m) = Some d -> p ∈ ttyDevices files ->
        Map_get p (devices m') = Some d)
  /\ (forall p, p ∈ ttyDevices files -> Map_get p (devices m) = None ->
        exists (d : DeviceConnection (V:=V) (D:=D)) now random,
          open p = OpenOk now random
          /\ Map_get p (devices m') = Some d
          /\ devicePath d = p
          /\ isConnected d = Some true
          /\ coap d = Some (CoAPClient.constructor random)).
Proof.
  intros Hopen. cbv zeta. unfold scanDevices.
  set (tty := ttyDevices files) in *.
  destruct (connect_loop_ok open tty (log [LogFound (length tty)] m) Hopen)
    as (m1 & Hrun & Hiff & Hkeep & Hnew & _).
  rewrite Hrun. cbn [fst snd].
  set (m2 := remove_loop tty (map fst (devices m1)) m1).
  assert (Hget : forall p, Map_get p (devices m2)
                           = if existsb (String.eqb p) tty
                             then Map_get p (devices m1) else None).
  { intros p. unfold m2. rewrite remove_loop_get.
    destruct (existsb (String.eqb p) tty) eqn:Hp; cbn [negb].
    - now rewrite andb_false_r.
    - rewrite andb_true_r.
      destruct (decide (p ∈ map fst (devices m1))) as [Hin | Hout].
      + now rewrite bool_decide_eq_true_2.
      + rewrite bool_decide_eq_false_2 by exact Hout.
        destruct (Map_get p (devices m1)) eqn:E; [| reflexivity].
        exfalso. apply Hout. apply Map_get_keys. eauto. }
  split; [reflexivity |]. split; [| split].
  - intros p. rewrite <- elem_of_ttyDevices. fold tty. rewrite Hget.
    destruct (existsb (String.eqb p) tty) eqn:Hp.
    + apply includes_elem_of in Hp. rewrite Hiff. split; [auto |].
      intros _. now right.
    + split; [intros [x Hx]; discriminate |].
      intros Hin. apply includes_elem_of in Hin. congruence.
  - intros p d Hp Hin. rewrite Hget.
    rewrite (proj2 (includes_elem_of p tty) Hin). now apply Hkeep.
  - intros p Hin Hnone.
    destruct (Hnew p Hin Hnone) as (d & now & random & Ho & Hg & Hrest).
    exists d, now, random. split; [exact Ho |]. split; [| exact Hrest].
    rewrite Hget. now rewrite (proj2 (includes_elem_of p tty) Hin).
Qed.

Lemma connect_loop_app (open : string -> OpenOutcome) (a b : list string) :
  forall m : Manager (V:=V) (D:=D),
    connect_loop unknown open (a ++ b) m
    = match connect_loop unknown open a m with
      | (inl message, m') => (inl message, m')
      | (inr _, m') => connect_loop unknown open b m'
      end.
Proof.
  induction a as [| q a IH]; intros m; cbn [app connect_loop]; [reflexivity |].
  destruct (Map_has q (devices m)); [apply IH |].
  destruct (connectDevice unknown (open q) q 115200 m) as [[message | info] m'];
    [reflexivity | apply IH].
Qed.

(** X27.  A scan stops at the first new port that fails to open: it
    returns the empty list, the listed devices that come after that port
    are not connected, and no device is taken out of the map, not even
    one that is not listed any more. *)
Theorem scanDevices_stops_at_failure (files : list string)
    (open : string -> OpenOutcome) (m : Manager (V:=V) (D:=D))
    (a b : list string) (p message : string) :
  ttyDevices files = a ++ p :: b ->
  (forall q, q ∈ a -> Map_get q (devices m) = None ->
     exists now random, open q = OpenOk now random) ->
  p ∉ a ->
  Map_get p (devices m) = None ->
  open p = OpenError message ->
  let infos := fst (scanDevices unknown (inr files) open m) in
  let m' := snd (scanDevices unknown (inr files) open m) in
  infos = []
  /\ Map_get p (devices m') = None
  /\ (forall q, q ∈ b -> q ∉ a -> Map_get q (devices m) = None ->
        Map_get q (devices m') = None)
  /\ (forall q d, Map_get q (devices m) = Some d ->
        Map_get q (devices m') = Some d).
Proof.
  intros Htty Ha Hpa Hp Hfail. cbv zeta. unfold scanDevices. rewrite Htty.
  set (m0 := log [LogFound (length (a ++ p :: b))] m).
  rewrite connect_loop_app.
  destruct (connect_loop_ok open a m0 Ha)
    as (m1 & Hrun & Hiff & Hkeep & _ & _).
  rewrite Hrun. cbn [connect_loop].
  assert (Hnone : forall q, q ∉ a -> Map_get q (devices m) = None ->
                    Map_get q (devices m1) = None).
  { intros q Hq Hn. destruct (Map_get q (devices m1)) eqn:E; [| reflexivity].
    assert (Hs : is_Some (Map_get q (devices m1))) by eauto.
    apply Hiff in Hs as [[x Hx] | Hs]; [| contradiction].
    cbn [devices log m0] in Hx. congruence. }
  rewrite (proj2 (Map_has_get p (devices m1)) (Hnone p Hpa Hp)).
  rewrite Hfail.
  destruct (connectDevice_error message p m1) as (m2 & Hc & Hdev & _).
  rewrite Hc. cbn [fst snd devices log]. rewrite Hdev.
  split; [reflexivity |]. split; [now apply Hnone |].
  split; [intros q _; apply Hnone |].
  intros q d Hq. now apply Hkeep.
Qed.

(** X28.  [executeRequest] throws 'Device not found' for a path that is
    not in the map and 'Device not connected' for a device that is in the
    map but not connected, and then changes nothing.  On a connected
    device it is [request] on the client of that device: the other
    devices and the order of the map are as before.  After
    [disconnectDevice] or [shutdown] the path is not found. *)
Theorem executeRequest_cases (path method : string) (uri : option string)
    (data : Payload) (m : Manager (V:=V) (D:=D)) :
  let run := executeRequest cborEncode path method uri data in
  match Map_get path (devices m) with
  | None => run m = (inl (DeviceNotFound path), m)
  | Some d =>
      if truthy (isConnected d)
      then
        (forall client,
           coap d = Some client ->
           let r := request cborEncode method (default "/c"%string uri) data
                      15000 client in
           fst (run m) = match fst r with
                         | inl e => inl (Failed e)
                         | inr promise => inr promise
                         end
           /\ Map_get path (devices (snd (run m))) = Some (set_coap (snd r) d))
        /\ (forall q, q <> path ->
              Map_get q (devices (snd (run m))) = Map_get q (devices m))
        /\ (devices (snd (run m))).*1 = (devices m).*1
      else run m = (inl (DeviceNotConnected path), m)
  end
  /\ run (disconnectDevice path m)
     = (inl (DeviceNotFound path), disconnectDevice path m)
  /\ run (shutdown m) = (inl (DeviceNotFound path), shutdown m).
Proof.
  cbv zeta. split; [| split].
  - unfold executeRequest.
    destruct (Map_get path (devices m)) as [d |] eqn:Hget; [| reflexivity].
    destruct (truthy (isConnected d)); cbn [negb]; [| reflexivity].
    destruct (coap d) as [client |] eqn:Hcoap.
    + destruct (request cborEncode method (default "/c"%string uri) data 15000
                  client) as [r client'] eqn:Hr.
      cbn [fst snd devices]. split; [| split].
      * intros c [= <-]. rewrite Hr. cbn [fst snd].
        split; [reflexivity | apply Map_get_set_eq].
      * intros q Hq. apply Map_get_set_ne. congruence.
      * now apply (Map_set_keys path _ d).
    + cbn [fst snd]. split; [intros c Hc; discriminate Hc |].
      split; reflexivity.
  - unfold executeRequest. rewrite disconnectDevice_get.
    now rewrite String.eqb_refl.
  - reflexivity.
Qed.

End ManagerProperties.

(* ===================================================================== *)
(** ** The further properties at concrete inputs                          *)
(* ===================================================================== *)

Lemma parseResponse_buildMessage_witness :
  let enc := fun v : list Z => v in
  let dec := fun b : list Z => Some b in
  Forall (fun b => 0 <= b < 255) (encodeOptions "/c?d=a")
  /\ parseResponse dec (buildMessage enc 69 "/c?d=a" (Value [0xA0]) 0x1234)
     = inr {| version := 1; type := 0; code := 69; r_messageId := 0x1234;
              payload := Value [0xA0];
              codeClass := 2;
              codeName := codeName_of 69 |}.
Proof.
  cbv zeta.
  assert (Ho : Forall (fun b => 0 <= b < 255) (encodeOptions "/c?d=a")).
  { change (encodeOptions "/c?d=a")
      with [0xB1; 0x63; 0x12; 0x01; 0x04; 0x33; 0x64; 0x3D; 0x61].
    repeat (constructor; [lia |]). constructor. }
  split; [exact Ho |].
  exact (parseResponse_buildMessage (fun v : list Z => v)
           (fun b : list Z => Some b) 69 "/c?d=a" (Value [0xA0]) 0x1234
           ltac:(lia) ltac:(lia) Ho).
Defined.

Lemma request_times_out_witness :
  let enc := fun v : list Z => v in
  let dec := fun b : list Z => Some b in
  let c := constructor (V:=list Z) (QArith_base.Qmake 0x1234 0xFFFF) in
  let c2 := fireTimeout 0 (snd (request enc "GET" "/c" Null 15000 c)) in
  METHODS (JS.toUpperCase "GET") = Some 1
  /\ settled c2 = [(0%nat, Rejected (RequestTimeout 15000 "GET" "/c"))]
  /\ pendingRequests c2 = delete 0x1234 ∅.
Proof.
  cbv zeta.
  pose proof (request_times_out (fun v : list Z => v)
                (fun b : list Z => Some b) "GET" "/c" Null 15000 1
                (constructor (QArith_base.Qmake 0x1234 0xFFFF)) eq_refl) as H.
  cbv zeta in H.
  split; [reflexivity |].
  exact (conj (proj1 (proj2 H)) (proj1 (proj2 (proj2 H)))).
Defined.

Lemma request_unknown_method_witness :
  let enc := fun v : list Z => v in
  let c := constructor (V:=list Z) (QArith_base.Qmake 0x1234 0xFFFF) in
  let c' :=
    foldl (fun c method => snd (request enc method "/c" Null 15000 c)) c
      ["head"; "OPTIONS"]%string in
  Forall (fun method => METHODS (JS.toUpperCase method) = None)
    ["head"; "OPTIONS"]%string
  /\ messageId c' = Nat.iter 2 Spec.next_mid (messageId c)
  /\ written c' = written c.
Proof.
  cbv zeta.
  assert (Hbad : Forall (fun method => METHODS (JS.toUpperCase method) = None)
                   ["head"; "OPTIONS"]%string)
    by (repeat (constructor; [reflexivity |]); constructor).
  split; [exact Hbad |].
  pose proof (request_unknown_method (fun v : list Z => v)
                ["head"; "OPTIONS"]%string "/c" Null 15000
                (constructor (QArith_base.Qmake 0x1234 0xFFFF)) Hbad) as H.
  cbv zeta in H.
  exact (conj (proj1 (proj2 H)) (proj1 (proj2 (proj2 H)))).
Defined.

Lemma handleData_discards_garbage_witness :
  let dec := fun b : list Z => Some b in
  let c := constructor (V:=list Z) (QArith_base.Qmake 0x1234 0xFFFF) in
  (SOF ∉ receiveBuffer c)
  /\ (SOF ∉ [0x0D; 0x0A; 0x41])
  /\ handleData dec [0x0D; 0x0A; 0x41] c = set_receiveBuffer [] c.
Proof.
  cbv zeta.
  assert (H1 : SOF ∉ receiveBuffer
                 (constructor (V:=list Z) (QArith_base.Qmake 0x1234 0xFFFF)))
    by apply not_elem_of_nil.
  assert (H2 : SOF ∉ [0x0D; 0x0A; 0x41]).
  { rewrite list_elem_of_In. cbn. intros H.
    repeat (destruct H as [H | H]; [discriminate H |]). exact H. }
  split; [exact H1 |]. split; [exact H2 |].
  exact (proj1 (handleData_discards_garbage (fun b : list Z => Some b)
                  [0x0D; 0x0A; 0x41] _ H1 H2)).
Defined.

Lemma handleData_frames_witness :
  let dec := fun b : list Z => Some b in
  let c := constructor (V:=list Z) (QArith_base.Qmake 0x1234 0xFFFF) in
  let ping := [0x3E; 0x50; 0x3C; 0x3C; 56; 53; 55; 51] in
  Forall Spec.framed [Spec.sample_frame; ping]
  /\ handleData dec (Spec.sample_frame ++ ping) c
     = dispatch dec ping (dispatch dec Spec.sample_frame c).
Proof.
  cbv zeta.
  assert (Hf : Forall Spec.framed
                 [Spec.sample_frame; [0x3E; 0x50; 0x3C; 0x3C; 56; 53; 55; 51]]).
  { constructor; [| constructor; [| constructor]].
    - exists 0x43, ([0x60; 0x45; 0x12; 0x34; 0x5C; 0x46] ++ Spec.sample_payload),
        [EOF], (JS.charCodes "4334").
      split; [reflexivity |]. split.
      + rewrite list_elem_of_In. cbn. intros H.
        repeat (destruct H as [H | H]; [discriminate H |]). exact H.
      + split; [now right |]. split; [reflexivity |].
        split; [reflexivity |]. cbn. lia.
    - exists 0x50, [], [EOF], (JS.charCodes "8573").
      split; [reflexivity |]. split; [apply not_elem_of_nil |].
      split; [now right |]. split; [reflexivity |].
      split; [reflexivity |]. cbn. lia. }
  split; [exact Hf |].
  pose proof (proj1 (handleData_frames (fun b : list Z => Some b)
                [Spec.sample_frame; [0x3E; 0x50; 0x3C; 0x3C; 56; 53; 55; 51]]
                (constructor (QArith_base.Qmake 0x1234 0xFFFF)) eq_refl Hf))
    as H.
  cbn [concat foldl] in H. rewrite app_nil_r in H. exact H.
Defined.

Lemma handleData_wire_frame_witness :
  let dec := fun b : list Z => Some b in
  let c := constructor (V:=list Z) (QArith_base.Qmake 0x1234 0xFFFF) in
  Spec.wire_frame 0x41 [0x48; 0x69] false (JS.charCodes "0000")
  = [0x3E; 0x41; 0x48; 0x69; 0x3C; 48; 48; 48; 48]
  /\ checksumStr (calculateChecksum (Spec.wire_body 0x41 [0x48; 0x69] false))
     = "3D55"%string
  /\ handleData dec [0x3E; 0x41; 0x48; 0x69; 0x3C; 48; 48; 48; 48] c
     = log (LogAnnouncement [0x48; 0x69])
         (log (WarnChecksumMismatch "0000") c).
Proof.
  cbv zeta. split; [reflexivity |]. split; [vm_compute; reflexivity |].
  assert (Hb : Forall Spec.is_byte [0x48; 0x69])
    by (repeat (constructor; [unfold Spec.is_byte; lia |]); constructor).
  assert (Hno : EOF ∉ [0x48; 0x69]).
  { rewrite list_elem_of_In. cbn. intros H.
    repeat (destruct H as [H | H]; [discriminate H |]). exact H. }
  exact (handleData_wire_frame (fun b : list Z => Some b) 0x41 [0x48; 0x69]
           false (JS.charCodes "0000")
           (constructor (QArith_base.Qmake 0x1234 0xFFFF)) eq_refl
           ltac:(unfold Spec.is_byte; lia) Hb Hno eq_refl eq_refl
           ltac:(left; discriminate)).
Defined.

Lemma handleData_encodeFrame_witness :
  let dec := fun b : list Z => Some b in
  let c := constructor (V:=list Z) (QArith_base.Qmake 0x1234 0xFFFF) in
  Forall Spec.is_byte [0x62; 0x6F; 0x6F; 0x74]
  /\ (EOF ∉ [0x62; 0x6F; 0x6F; 0x74])
  /\ handleData dec (encodeFrame 0x54 [0x62; 0x6F; 0x6F; 0x74]) c
     = log (LogTrace [0x62; 0x6F; 0x6F; 0x74]) c.
Proof.
  cbv zeta.
  assert (Hb : Forall Spec.is_byte [0x62; 0x6F; 0x6F; 0x74])
    by (repeat (constructor; [unfold Spec.is_byte; lia |]); constructor).
  assert (Hno : EOF ∉ [0x62; 0x6F; 0x6F; 0x74]).
  { rewrite list_elem_of_In. cbn. intros H.
    repeat (destruct H as [H | H]; [discriminate H |]). exact H. }
  split; [exact Hb |]. split; [exact Hno |].
  exact (handleData_encodeFrame (fun b : list Z => Some b) 0x54
           [0x62; 0x6F; 0x6F; 0x74]
           (constructor (QArith_base.Qmake 0x1234 0xFFFF)) eq_refl
           ltac:(unfold Spec.is_byte; lia) Hb ltac:(discriminate) Hno).
Defined.

Lemma calculateChecksum_detects_byte_error_witness :
  Forall Spec.is_byte [0x3E; 0x50; 0x3C; 0x3C]
  /\ calculateChecksum (<[1%nat := 0x51]> [0x3E; 0x50; 0x3C; 0x3C])
     <> calculateChecksum [0x3E; 0x50; 0x3C; 0x3C].
Proof.
  assert (Hb : Forall Spec.is_byte [0x3E; 0x50; 0x3C; 0x3C])
    by (repeat (constructor; [unfold Spec.is_byte; lia |]); constructor).
  split; [exact Hb |].
  exact (calculateChecksum_detects_byte_error [0x3E; 0x50; 0x3C; 0x3C] 1
           0x50 0x51 Hb ltac:(cbn; lia) eq_refl
           ltac:(unfold Spec.is_byte; lia) ltac:(lia)).
Defined.

Lemma scanDevices_connects_witness :
  let files := ["ttyUSB1"; "sda"; "ttyACM0"]%string in
  let open :=
    fun _ : string =>
      DeviceManager.OpenOk "2025-01-01T00:00:00.000Z"
        (QArith_base.Qmake 0x1234 0xFFFF) in
  let m := DeviceManager.constructor (V:=list Z) (D:=unit) in
  let m' := snd (DeviceManager.scanDevices tt (inr files) open m) in
  (forall p, p ∈ DeviceManager.ttyDevices files ->
     DeviceManager.Map_get p (DeviceManager.devices m) = None ->
     exists now random, open p = DeviceManager.OpenOk now random)
  /\ (DeviceManager.devices m').*1 = ["/dev/ttyACM0"; "/dev/ttyUSB1"]%string
  /\ fst (DeviceManager.scanDevices tt (inr files) open m)
     = DeviceManager.getAllDevices m'.
Proof.
  cbv zeta.
  assert (H : forall p,
            p ∈ DeviceManager.ttyDevices ["ttyUSB1"; "sda"; "ttyACM0"]%string ->
            DeviceManager.Map_get p
              (DeviceManager.devices
                 (DeviceManager.constructor (V:=list Z) (D:=unit))) = None ->
            exists now random,
              DeviceManager.OpenOk "2025-01-01T00:00:00.000Z"
                (QArith_base.Qmake 0x1234 0xFFFF)
              = DeviceManager.OpenOk now random)
    by (intros; eauto).
  split; [exact H |]. split; [vm_compute; reflexivity |].
  exact (proj1 (scanDevices_connects tt ["ttyUSB1"; "sda"; "ttyACM0"]%string
                  (fun _ => DeviceManager.OpenOk "2025-01-01T00:00:00.000Z"
                              (QArith_base.Qmake 0x1234 0xFFFF))
                  DeviceManager.constructor H)).
Defined.

Lemma scanDevices_stops_at_failure_witness :
  let files := ["ttyACM0"; "ttyACM1"; "ttyACM2"]%string in
  let open :=
    fun p : string =>
      if String.eqb p "/dev/ttyACM1" then DeviceManager.OpenError "busy"
      else DeviceManager.OpenOk "2025-01-01T00:00:00.000Z"
             (QArith_base.Qmake 0x1234 0xFFFF) in
  let m := DeviceManager.constructor (V:=list Z) (D:=unit) in
  let m' := snd (DeviceManager.scanDevices tt (inr files) open m) in
  DeviceManager.ttyDevices files
  = ["/dev/ttyACM0"] ++ "/dev/ttyACM1" :: ["/dev/ttyACM2"]
  /\ fst (DeviceManager.scanDevices tt (inr files) open m) = []
  /\ DeviceManager.Map_get "/dev/ttyACM1" (DeviceManager.devices m') = None
  /\ DeviceManager.Map_get "/dev/ttyACM2" (DeviceManager.devices m') = None.
Proof.
  cbv zeta.
  assert (Htty : DeviceManager.ttyDevices ["ttyACM0"; "ttyACM1"; "ttyACM2"]%string
                 = ["/dev/ttyACM0"] ++ "/dev/ttyACM1" :: ["/dev/ttyACM2"])
    by (vm_compute; reflexivity).
  split; [exact Htty |].
  pose proof (scanDevices_stops_at_failure tt
                ["ttyACM0"; "ttyACM1"; "ttyACM2"]%string
                (fun p : string =>
                   if String.eqb p "/dev/ttyACM1"
                   then DeviceManager.OpenError "busy"
                   else DeviceManager.OpenOk "2025-01-01T00:00:00.000Z"
                          (QArith_base.Qmake 0x1234 0xFFFF))
                (DeviceManager.constructor (V:=list Z) (D:=unit))
                ["/dev/ttyACM0"%string] ["/dev/ttyACM2"%string]
                "/dev/ttyACM1" "busy" Htty) as H.
  cbv zeta in H.
  assert (Hin : "/dev/ttyACM2"%string ∈ ["/dev/ttyACM2"%string])
    by apply list_elem_of_here.
  assert (Hout : forall q : string,
            q <> "/dev/ttyACM0"%string -> q ∉ ["/dev/ttyACM0"%string]).
  { intros q Hq Hm. apply list_elem_of_singleton in Hm. contradiction. }
  destruct H as (H1 & H2 & H3 & _).
  - intros q Hq _. apply list_elem_of_singleton in Hq. subst q. eauto.
  - apply Hout. discriminate.
  - reflexivity.
  - reflexivity.
  - split; [exact H1 |]. split; [exact H2 |].
    apply (H3 "/dev/ttyACM2"%string Hin); [apply Hout; discriminate | reflexivity].
Defined.

Lemma request_answered_witness :
  let enc := fun v : list Z => v in
  let dec := fun b : list Z => Some b in
  let c := constructor (V:=list Z) (QArith_base.Qmake 0x1234 0xFFFF) in
  let data := [0x60; 0x45; 0x12; 0x34; 0xFF; 0xA0] in
  let c2 :=
    handleData dec (createCoapFrame data)
      (snd (request enc "GET" "/c?d=a" Null 15000 c)) in
  METHODS (JS.toUpperCase "GET") = Some 1
  /\ Forall Spec.is_byte data
  /\ (EOF ∉ data)
  /\ settled c2 = [(0%nat, Resolved (Value [0xA0]))]
  /\ pendingRequests c2 = delete 0x1234 ∅.
Proof.
  cbv zeta.
  assert (Hb : Forall Spec.is_byte [0x60; 0x45; 0x12; 0x34; 0xFF; 0xA0])
    by (repeat (constructor; [unfold Spec.is_byte; lia |]); constructor).
  assert (Hno : EOF ∉ [0x60; 0x45; 0x12; 0x34; 0xFF; 0xA0]).
  { rewrite list_elem_of_In. cbn. intros H.
    repeat (destruct H as [H | H]; [discriminate H |]). exact H. }
  split; [reflexivity |]. split; [exact Hb |]. split; [exact Hno |].
  pose proof (request_answered (fun b : list Z => Some b)
                (fun v : list Z => v) "GET" "/c?d=a" Null 15000 1
                [0x60; 0x45; 0x12; 0x34; 0xFF; 0xA0]
                {| version := 1; type := 2; code := 69; r_messageId := 0x1234;
                   payload := Value [0xA0]; codeClass := 2;
                   codeName := codeName_of 69 |}
                (constructor (QArith_base.Qmake 0x1234 0xFFFF))
                eq_refl eq_refl Hb Hno eq_refl eq_refl) as H.
  cbv zeta in H.
  exact (conj (proj1 (proj2 H)) (proj1 (proj2 (proj2 H)))).
Defined.

Lemma responses_out_of_order_witness :
  let enc := fun v : list Z => v in
  let dec := fun b : list Z => Some b in
  let c := constructor (V:=list Z) (QArith_base.Qmake 0x1234 0xFFFF) in
  let data1 := [0x60; 0x45; 0x12; 0x34; 0xFF; 0xA0] in
  let data2 := [0x60; 0x84; 0x12; 0x35] in
  let c2 :=
    snd (request enc "PUT" "/c" (Value [0xA1]) 15000
           (snd (request enc "GET" "/c?d=a" Null 15000 c))) in
  let c4 := handleCoapResponse dec data1 (handleCoapResponse dec data2 c2) in
  METHODS (JS.toUpperCase "GET") = Some 1
  /\ METHODS (JS.toUpperCase "PUT") = Some 3
  /\ settled c4
     = [(1%nat, Rejected (CoapError (codeName_of 132) 132 Null));
        (0%nat, Resolved (Value [0xA0]))].
Proof.
  cbv zeta. split; [reflexivity |]. split; [reflexivity |].
  pose proof (responses_out_of_order (fun b : list Z => Some b)
                (fun v : list Z => v) "GET" "/c?d=a" "PUT" "/c" Null
                (Value [0xA1]) 15000 15000 1 3
                [0x60; 0x45; 0x12; 0x34; 0xFF; 0xA0] [0x60; 0x84; 0x12; 0x35]
                {| version := 1; type := 2; code := 69; r_messageId := 0x1234;
                   payload := Value [0xA0]; codeClass := 2;
                   codeName := codeName_of 69 |}
                {| version := 1; type := 2; code := 132; r_messageId := 0x1235;
                   payload := Null; codeClass := 4;
                   codeName := codeName_of 132 |}
                (constructor (QArith_base.Qmake 0x1234 0xFFFF))
                eq_refl eq_refl eq_refl eq_refl eq_refl eq_refl) as H.
  cbv zeta in H.
  exact (proj1 (proj2 (proj2 (proj2 (proj2 H))))).
Defined.
